(** * Justia lawyer scraper: a shallow embedding of the extraction pipeline

    The repository holds four variants of the same actor:
    - [Cheerio]      : src/main.js, first program (CheerioCrawler, HTTP only);
    - [Camoufox]     : src/main.js, second program (PlaywrightCrawler);
    - [HttpFirst]    : part_001 (HTTP loop with a browser fallback);
    - [BrowserFirst] : part_002 (PlaywrightCrawler, browser first).

    JavaScript strings are modelled as [string], read as sequences of
    code units below 256 (Latin-1); [toLowerCase], [trim] and the white
    space of regular expressions act on them as JavaScript does.  Code
    units from 256 on are outside the model: there [toLowerCase] can change
    the length of a string (U+0130) or give an ASCII letter (U+212A), so no
    statement below relies on the length of a lower-cased string.  The two
    pagination tokens that hold U+203A are written with the bytes of their
    UTF-8 form.  HTTP status codes and counters are [Z]. *)

From stdpp Require Import base strings gmap list pretty.
From Stdlib Require Import ZArith Lia Ascii.

Open Scope string_scope.
Open Scope Z_scope.
Open Scope list_scope.

(** ** JavaScript string primitives used by the source *)

Module JsString.

(** The lower-case form of one code unit: A-Z, and the capital letters
    of Latin-1 (U+00C0-U+00DE without the multiplication sign U+00D7). *)
Definition lowerCodeUnit (c : ascii) : ascii :=
  let n := nat_of_ascii c in
  if ((Nat.leb 65 n && Nat.leb n 90)
      || (Nat.leb 192 n && Nat.leb n 222 && negb (Nat.eqb n 215)))%bool
  then ascii_of_nat (n + 32) else c.

(** [s.toLowerCase()] *)
Fixpoint toLowerCase (s : string) : string :=
  match s with
  | EmptyString => EmptyString
  | String c s' => String (lowerCodeUnit c) (toLowerCase s')
  end.

(** [s.slice(0, n)] *)
Fixpoint slice0 (n : nat) (s : string) : string :=
  match n, s with
  | O, _ => EmptyString
  | _, EmptyString => EmptyString
  | S n', String c s' => String c (slice0 n' s')
  end.

(** [s.startsWith(p)] *)
Fixpoint startsWith (s p : string) {struct p} : bool :=
  match p, s with
  | EmptyString, _ => true
  | String _ _, EmptyString => false
  | String a p', String b s' => Ascii.eqb a b && startsWith s' p'
  end.

(** [s.includes(sub)] *)
Fixpoint includes (s sub : string) : bool :=
  startsWith s sub ||
  match s with
  | EmptyString => false
  | String _ s' => includes s' sub
  end.

(** [!s] for a string: only the empty string is falsy. *)
Definition falsy (s : string) : bool :=
  match s with EmptyString => true | _ => false end.

(** [a || b] on strings. *)
Definition or_else (a b : string) : string := if falsy a then b else a.

(** The declarative reading of "the text contains the phrase". *)
Definition contains (s sub : string) : Prop :=
  exists pre post, s = pre +:+ sub +:+ post.

End JsString.

Import JsString.

Infix "|?" := JsString.or_else (at level 50, left associativity).

(** ** Blocking detector *)

(** part_001, lines 32-41 and 539. *)
Module HttpFirstBlocking.

Definition phrases : list string :=
  [ "just a moment"; "checking your browser"; "cf-browser-verification"; "cloudflare" ].

Definition isBlockedHtml (html : string) : bool :=
  if falsy html then false
  else
    let sample := toLowerCase (slice0 5000 html) in
    includes sample "just a moment" ||
    includes sample "checking your browser" ||
    includes sample "cf-browser-verification" ||
    includes sample "cloudflare".

(** [isBlockedHtml(r.body) || r.statusCode === 403 || ... 429 || ... 503] *)
Definition blocked (body : string) (statusCode : Z) : bool :=
  isBlockedHtml body || (statusCode =? 403) || (statusCode =? 429) || (statusCode =? 503).

End HttpFirstBlocking.

(** src/main.js, lines 63-73 and 689. *)
Module CheerioBlocking.

Definition phrases : list string :=
  [ "just a moment"; "verify you are human"; "cf-browser-verification";
    "access denied"; "security of your connection" ].

Definition isBlockedHtml (html : string) : bool :=
  if falsy html then false
  else
    let lower := toLowerCase html in
    includes lower "just a moment" ||
    includes lower "verify you are human" ||
    includes lower "cf-browser-verification" ||
    includes lower "access denied" ||
    includes lower "security of your connection".

(** [statusCode === 403 || isBlockedHtml(htmlSnapshot)] *)
Definition blocked (htmlSnapshot : string) (statusCode : Z) : bool :=
  (statusCode =? 403) || isBlockedHtml htmlSnapshot.

End CheerioBlocking.

(** ** Data model shared by the run controllers *)

(** The object literal every extractor pushes.  [biography], [education],
    [barAdmissions] and [languages] are [null] or a value. *)
Record Lawyer := mkLawyer {
  name : string;
  firmName : string;
  location : string;
  address : string;
  phone : string;
  email : string;
  website : string;
  practiceAreas : string;
  description : string;
  yearsLicensed : string;
  biography : option string;
  education : option (list string);
  barAdmissions : option (list string);
  languages : option (list string);
  scrapedAt : string
}.

(** [lawyer.website || `${lawyer.name}|${lawyer.location}|${lawyer.firmName}`] *)
Definition dedupKey (lawyer : Lawyer) : string :=
  website lawyer |? (name lawyer +:+ "|" +:+ location lawyer +:+ "|" +:+ firmName lawyer).

(** [maxX > 0 && counter >= maxX] *)
Definition limitReached (maxX counter : Z) : bool := (0 <? maxX) && (maxX <=? counter).

Definition nonEmpty {A} (l : list A) : bool :=
  match l with [] => false | _ => true end.

Inductive Mode := Lightweight | Rendered.

Inductive Purpose := Listing | ApiProbe | Detail.

(** One network fetch as the run controller sees it: the transport, what
    was fetched, the URL, and for a listing page the verdict of the
    blocking detector ([false] for the other fetches, whose result never
    reaches the escalation decision). *)
Record FetchEvent := mkFetch {
  fetchMode : Mode;
  fetchPurpose : Purpose;
  fetchUrl : string;
  fetchBlocked : bool
}.

Record Response := mkResponse {
  statusCode : Z;
  body : string
}.

Record Request := mkRequest {
  url : string;
  retryCount : Z
}.

(** The tail of every crawler request handler (src/main.js lines 808-824
    and 1334-1351, part_002 lines 581-599, the same text in each): the two
    budget checks, then the next page is resolved and added to the queue
    only when it is non-empty and differs from the URL just processed.
    The result is the request added, if any. *)
Definition nextRequest (maxLawyers maxPages totalScraped pagesProcessed : Z)
    (findNextPageUrl : string -> string) (requestUrl : string) : option string :=
  if limitReached maxLawyers totalScraped then None
  else if limitReached maxPages pagesProcessed then None
  else
    let nextUrl := findNextPageUrl requestUrl in
    if negb (falsy nextUrl) && negb (String.eqb nextUrl requestUrl)
    then Some nextUrl
    else None.

(** ** src/main.js, first program: the CheerioCrawler request handler *)

Module Cheerio.

Record RunState := mkState {
  seenWebsites : gset string;
  totalScraped : Z;
  pagesProcessed : Z;
  dataset : list Lawyer
}.

Definition initial : RunState :=
  {| seenWebsites := ∅; totalScraped := 0; pagesProcessed := 0; dataset := [] |}.

(** What a call of the handler ends in: [throw new Error(...)], or a normal
    return with the request it added to the queue, if any. *)
Inductive Outcome :=
| Throw
| Return (st : RunState) (enqueued : option string).

Section Handler.

(** Input of the actor. *)
Variable maxLawyers maxPages : Z.
Variable fetchFullProfiles : bool.

(** Collaborators: the cheerio-based extractors, the pagination resolver,
    the enrichment call and the crawler's own HTTP fetch. *)
Variable extractLawyersFromJsonLdHtml : string -> string -> list Lawyer.
Variable extractLawyersFromNextData : string -> string -> list Lawyer.
Variable extractListingViaHtml : string -> string -> list Lawyer.
Variable findNextPageUrl : string -> string -> string.
Variable enrichProfileWithDetailsHttp : string -> Lawyer -> Lawyer.
Variable fetch : string -> Response.

(** Lines 703-724: every extractor runs, each non-empty result is pushed. *)
Definition extractAll (htmlSnapshot pageUrl : string) : list Lawyer :=
  let lawyers := [] in
  if falsy htmlSnapshot then lawyers
  else
    let jsonLdLawyers := extractLawyersFromJsonLdHtml htmlSnapshot pageUrl in
    let lawyers := if nonEmpty jsonLdLawyers then lawyers ++ jsonLdLawyers else lawyers in
    let nextDataLawyers := extractLawyersFromNextData htmlSnapshot pageUrl in
    let lawyers := if nonEmpty nextDataLawyers then lawyers ++ nextDataLawyers else lawyers in
    let htmlLawyers := extractListingViaHtml htmlSnapshot pageUrl in
    let lawyers := if nonEmpty htmlLawyers then lawyers ++ htmlLawyers else lawyers in
    lawyers.

(** Lines 737-751: the [for ... of] loop with its [continue] and [break]. *)
Fixpoint filterLoop (lawyers : list Lawyer) (seen : gset string) (total : Z)
    (unique : list Lawyer) : list Lawyer * gset string * Z :=
  match lawyers with
  | [] => (unique, seen, total)
  | lawyer :: rest =>
      if bool_decide (dedupKey lawyer ∈ seen) then filterLoop rest seen total unique
      else if limitReached maxLawyers total then (unique, seen, total)
      else filterLoop rest ({[dedupKey lawyer]} ∪ seen) (total + 1) (unique ++ [lawyer])
  end.

(** Lines 758-782. *)
Definition enrichAll (unique : list Lawyer) : list Lawyer :=
  if fetchFullProfiles then
    map (fun baseLawyer =>
           if falsy (website baseLawyer) then baseLawyer
           else enrichProfileWithDetailsHttp (website baseLawyer) baseLawyer) unique
  else unique.

Definition requestHandler (st : RunState) (request : Request) (response : Response)
  : Outcome :=
  let htmlSnapshot := body response in
  let blocked := (statusCode response =? 403) || CheerioBlocking.isBlockedHtml htmlSnapshot in
  if blocked && (retryCount request <? 2) then Throw
  else
    let lawyers := extractAll htmlSnapshot (url request) in
    let '(unique, seen, total) :=
      filterLoop lawyers (seenWebsites st) (totalScraped st) [] in
    let st' := {| seenWebsites := seen;
                  totalScraped := total;
                  pagesProcessed := pagesProcessed st + 1;
                  dataset := dataset st ++ enrichAll unique |} in
    Return st' (nextRequest maxLawyers maxPages (totalScraped st') (pagesProcessed st')
                            (findNextPageUrl htmlSnapshot) (url request)).

(** The crawler around the handler: one request at a time (the handler adds
    at most one), [maxRequestsPerCrawl = maxPages] when positive, a thrown
    handler is retried up to [maxRequestRetries = 4] times over the same
    HTTP transport, and a URL whose [uniqueKey] was queued before is not
    queued again. *)
Definition maxRequestRetries : Z := 4.

Fixpoint crawl (fuel : nat) (st : RunState) (request : Request) (handled : Z)
    (queued : gset string) (trace : list FetchEvent) : RunState * list FetchEvent :=
  match fuel with
  | O => (st, trace)
  | S fuel' =>
      if limitReached maxPages handled then (st, trace)
      else
        let response := fetch (url request) in
        let verdict := (statusCode response =? 403)
                       || CheerioBlocking.isBlockedHtml (body response) in
        let trace' := trace ++ [mkFetch Lightweight Listing (url request) verdict] in
        match requestHandler st request response with
        | Throw =>
            if retryCount request <? maxRequestRetries
            then crawl fuel' st (mkRequest (url request) (retryCount request + 1))
                       handled queued trace'
            else (st, trace')
        | Return st' None => (st', trace')
        | Return st' (Some nextUrl) =>
            if bool_decide (nextUrl ∈ queued) then (st', trace')
            else crawl fuel' st' (mkRequest nextUrl 0) (handled + 1)
                       ({[nextUrl]} ∪ queued) trace'
        end
  end.

(** [crawler.run([searchUrl])] *)
Definition run (fuel : nat) (searchUrl : string) : RunState * list FetchEvent :=
  crawl fuel initial (mkRequest searchUrl 0) 0 {[searchUrl]} [].

End Handler.

End Cheerio.

(** ** part_001: the HTTP-first loop and its browser fallback *)

Module HttpFirst.

(** What [fetchHttp] returns. *)
Record HttpResult := mkHttp {
  r_url : string;
  r_statusCode : Z;
  r_body : string
}.

(** What [fetchProfileDetails] returns when it is not [null]. *)
Record Details := mkDetails {
  d_blocked : bool;
  d_email : option string;
  d_biography : option string;
  d_education : option (list string);
  d_barAdmissions : option (list string);
  d_languages : option (list string)
}.

Record RunState := mkState {
  seenWebsites : gset string;
  pagesProcessed : Z;
  totalScraped : Z;
  extractionMethod : string;
  consecutiveBlocked : Z;
  dataset : list Lawyer;
  trace : list FetchEvent
}.

Definition initial : RunState :=
  {| seenWebsites := ∅; pagesProcessed := 0; totalScraped := 0;
     extractionMethod := "HTTP"; consecutiveBlocked := 0;
     dataset := []; trace := [] |}.

Definition logFetch (e : FetchEvent) (st : RunState) : RunState :=
  {| seenWebsites := seenWebsites st; pagesProcessed := pagesProcessed st;
     totalScraped := totalScraped st; extractionMethod := extractionMethod st;
     consecutiveBlocked := consecutiveBlocked st; dataset := dataset st;
     trace := trace st ++ [e] |}.

Definition pushData (batch : list Lawyer) (st : RunState) : RunState :=
  {| seenWebsites := seenWebsites st; pagesProcessed := pagesProcessed st;
     totalScraped := totalScraped st; extractionMethod := extractionMethod st;
     consecutiveBlocked := consecutiveBlocked st; dataset := dataset st ++ batch;
     trace := trace st |}.

(** [s || null], [xs.length ? xs : null] and [a ?? b]. *)
Definition orNull (s : string) : option string := if falsy s then None else Some s.
Definition listOrNull (xs : list string) : option (list string) :=
  if nonEmpty xs then Some xs else None.
Definition nullish {A} (a : option A) (b : A) : A :=
  match a with Some x => x | None => b end.
Definition nullishOpt {A} (a b : option A) : option A :=
  match a with Some x => Some x | None => b end.

Section Loop.

Variable maxLawyers maxPages : Z.
Variable fetchFullProfiles : bool.

(** Collaborators: the two transports, the JSON parser and walker, and the
    cheerio-based readers. *)
Variable fetchHttp : string -> HttpResult.
Variable pageContent : string -> string.
Variable Json : Type.
Variable safeJsonParse : string -> option Json.
Variable extractLawyersFromJsonObject : Json -> string -> list Lawyer.
Variable tryExtractApiUrlFromHtml : string -> string -> string.
Variable extractListingViaEmbeddedJson : string -> string -> list Lawyer.
Variable extractListingViaHtml : string -> string -> list Lawyer.
Variable findNextPageUrl : string -> string -> string.
Variable detailEmail detailBiography : string -> string.
Variable detailEducation detailBarAdmissions detailLanguages : string -> list string.

(** Lines 173-189; the result is [(lawyers, apiUrlTried)] and the state
    records the fetch of the candidate endpoint. *)
Definition extractListingViaJsonApi (st : RunState) (pageUrl html : string)
  : RunState * list Lawyer * string :=
  let apiUrl := tryExtractApiUrlFromHtml html pageUrl in
  if falsy apiUrl then (st, [], "")
  else
    let r := fetchHttp apiUrl in
    let st := logFetch (mkFetch Lightweight ApiProbe apiUrl false) st in
    match safeJsonParse (r_body r) with
    | None => (st, [], apiUrl)
    | Some data => (st, extractLawyersFromJsonObject data pageUrl, apiUrl)
    end.

(** Lines 555-576: the cascade of the HTTP loop (where [blocked] is false). *)
Definition cascade (st : RunState) (r : HttpResult) : RunState * list Lawyer :=
  let '(st, lawyers, apiUrlTried) := extractListingViaJsonApi st (r_url r) (r_body r) in
  let extractionMethod1 :=
    if nonEmpty lawyers then "HTTP JSON API" else extractionMethod st in
  let lawyers2 :=
    if negb (nonEmpty lawyers) then extractListingViaEmbeddedJson (r_body r) (r_url r)
    else lawyers in
  let extractionMethod2 :=
    if negb (nonEmpty lawyers) && nonEmpty lawyers2 then "HTTP Embedded JSON"
    else extractionMethod1 in
  let lawyers3 :=
    if negb (nonEmpty lawyers2) then extractListingViaHtml (r_body r) (r_url r)
    else lawyers2 in
  let extractionMethod3 :=
    if negb (nonEmpty lawyers2) && nonEmpty lawyers3 then "HTTP HTML"
    else extractionMethod2 in
  ({| seenWebsites := seenWebsites st; pagesProcessed := pagesProcessed st;
      totalScraped := totalScraped st; extractionMethod := extractionMethod3;
      consecutiveBlocked := consecutiveBlocked st; dataset := dataset st;
      trace := trace st |}, lawyers3).

(** Lines 598-604. *)
Fixpoint uniqueLoop (remaining : Z) (lawyers : list Lawyer) (seen : gset string)
    (unique : list Lawyer) : list Lawyer * gset string :=
  match lawyers with
  | [] => (unique, seen)
  | l :: rest =>
      if falsy (website l) then uniqueLoop remaining rest seen unique
      else if bool_decide (website l ∈ seen) then uniqueLoop remaining rest seen unique
      else
        let seen := {[website l]} ∪ seen in
        let unique := unique ++ [l] in
        if (0 <? maxLawyers) && (remaining <=? Z.of_nat (length unique))
        then (unique, seen)
        else uniqueLoop remaining rest seen unique
  end.

(** Lines 347-391. *)
Definition fetchProfileDetails (st : RunState) (profileUrl : string)
  : RunState * option Details :=
  let r := fetchHttp profileUrl in
  let st := logFetch (mkFetch Lightweight Detail profileUrl false) st in
  if negb (r_statusCode r =? 200) then (st, None)
  else if HttpFirstBlocking.isBlockedHtml (r_body r)
  then (st, Some (mkDetails true None None None None None))
  else (st, Some {| d_blocked := false;
                    d_email := orNull (detailEmail (r_body r));
                    d_biography := orNull (detailBiography (r_body r));
                    d_education := listOrNull (detailEducation (r_body r));
                    d_barAdmissions := listOrNull (detailBarAdmissions (r_body r));
                    d_languages := listOrNull (detailLanguages (r_body r)) |}).

(** Lines 613-625: the merge of one record with its details. *)
Definition mergeDetails (base : Lawyer) (details : option Details) : Lawyer :=
  match details with
  | Some d =>
      if d_blocked d then base
      else
        {| name := name base; firmName := firmName base; location := location base;
           address := address base; phone := phone base;
           email := nullish (d_email d) (email base);
           website := website base; practiceAreas := practiceAreas base;
           description := description base; yearsLicensed := yearsLicensed base;
           biography := nullishOpt (d_biography d) (biography base);
           education := nullishOpt (d_education d) (education base);
           barAdmissions := nullishOpt (d_barAdmissions d) (barAdmissions base);
           languages := nullishOpt (d_languages d) (languages base);
           scrapedAt := scrapedAt base |}
  | None => base
  end.

Fixpoint enrichLoop (st : RunState) (unique enriched : list Lawyer)
  : RunState * list Lawyer :=
  match unique with
  | [] => (st, enriched)
  | base :: rest =>
      let '(st, details) := fetchProfileDetails st (website base) in
      enrichLoop st rest (enriched ++ [mergeDetails base details])
  end.

(** Lines 594-648: "Save results". *)
Definition saveResults (st : RunState) (lawyers : list Lawyer) : RunState :=
  if nonEmpty lawyers then
    let remaining :=
      if 0 <? maxLawyers then Z.max 0 (maxLawyers - totalScraped st)
      else Z.of_nat (length lawyers) in
    let '(unique, seen) := uniqueLoop remaining lawyers (seenWebsites st) [] in
    let st := {| seenWebsites := seen; pagesProcessed := pagesProcessed st;
                 totalScraped := totalScraped st; extractionMethod := extractionMethod st;
                 consecutiveBlocked := consecutiveBlocked st; dataset := dataset st;
                 trace := trace st |} in
    let '(st, saved) :=
      if fetchFullProfiles && nonEmpty unique then enrichLoop st unique []
      else (st, unique) in
    let st := pushData saved st in
    {| seenWebsites := seenWebsites st; pagesProcessed := pagesProcessed st;
       totalScraped := totalScraped st + Z.of_nat (length saved);
       extractionMethod := extractionMethod st;
       consecutiveBlocked := consecutiveBlocked st; dataset := dataset st;
       trace := trace st |}
  else st.

(** Lines 438-484: the handler of the fallback crawler.  [seen] is the
    fallback's own set; the result is the new state, the new [seen] and the
    request it added, if any. *)
Definition fallbackHandler (maxLawyers' : Z) (st : RunState) (seen : gset string)
    (requestUrl : string) : RunState * gset string * option string :=
  let html := pageContent requestUrl in
  let st := logFetch (mkFetch Rendered Listing requestUrl false) st in
  let lawyers := extractListingViaEmbeddedJson html requestUrl in
  let lawyers :=
    if negb (nonEmpty lawyers) then extractListingViaHtml html requestUrl else lawyers in
  let '(filtered, seen) :=
    fold_left
      (fun '(acc, seen) l =>
         if falsy (website l) then (acc, seen)
         else if bool_decide (website l ∈ seen) then (acc, seen)
         else (acc ++ [l], {[website l]} ∪ seen))
      lawyers ([], seen) in
  let slice :=
    if 0 <? maxLawyers'
    then take (Z.to_nat (Z.max 0 (maxLawyers' - Z.of_nat (size seen)
                                   + Z.of_nat (length filtered)))) filtered
    else filtered in
  let st := if nonEmpty slice then pushData slice st else st in
  if (0 <? maxLawyers') && (maxLawyers' <=? Z.of_nat (size seen)) then (st, seen, None)
  else
    let next := findNextPageUrl html requestUrl in
    if negb (falsy next) then (st, seen, Some next) else (st, seen, None).

(** The fallback crawler: [maxRequestsPerCrawl] requests at most, and a URL
    queued before is not queued again. *)
Fixpoint fallbackCrawl (fuel : nat) (maxLawyers' maxRequestsPerCrawl : Z)
    (st : RunState) (seen : gset string) (requestUrl : string) (handled : Z)
    (queued : gset string) : RunState :=
  match fuel with
  | O => st
  | S fuel' =>
      if maxRequestsPerCrawl <=? handled then st
      else
        match fallbackHandler maxLawyers' st seen requestUrl with
        | (st, seen, None) => st
        | (st, seen, Some next) =>
            if bool_decide (next ∈ queued) then st
            else fallbackCrawl fuel' maxLawyers' maxRequestsPerCrawl st seen next
                               (handled + 1) ({[next]} ∪ queued)
        end
  end.

(** Lines 410-488; [maxPages || 5] reads a zero page budget as five. *)
Definition runBrowserFallback (fuel : nat) (st : RunState) (startUrl : string)
    (maxLawyers' maxPages' : Z) : RunState :=
  let maxRequestsPerCrawl :=
    Z.min 20 (Z.max 1 (if maxPages' =? 0 then 5 else maxPages')) in
  fallbackCrawl fuel maxLawyers' maxRequestsPerCrawl st ∅ startUrl 0 {[startUrl]}.

(** Lines 530-657: the [while (nextUrl)] loop. *)
Fixpoint mainLoop (fuel : nat) (st : RunState) (nextUrl : string) : RunState :=
  match fuel with
  | O => st
  | S fuel' =>
      if falsy nextUrl then st
      else if limitReached maxPages (pagesProcessed st) then st
      else if limitReached maxLawyers (totalScraped st) then st
      else
        let r := fetchHttp nextUrl in
        let blocked := HttpFirstBlocking.blocked (r_body r) (r_statusCode r) in
        let st := {| seenWebsites := seenWebsites st;
                     pagesProcessed := pagesProcessed st + 1;
                     totalScraped := totalScraped st;
                     extractionMethod := extractionMethod st;
                     consecutiveBlocked :=
                       if blocked then consecutiveBlocked st + 1 else 0;
                     dataset := dataset st;
                     trace := trace st ++ [mkFetch Lightweight Listing nextUrl blocked] |} in
        if blocked then
          runBrowserFallback fuel' st nextUrl
            (if 0 <? maxLawyers then Z.max 0 (maxLawyers - totalScraped st) else 0)
            (if 0 <? maxPages then Z.max 0 (maxPages - pagesProcessed st) else 0)
        else
          let '(st, lawyers) := cascade st r in
          let st := saveResults st lawyers in
          if limitReached maxLawyers (totalScraped st) then st
          else
            let next := findNextPageUrl (r_body r) (r_url r) in
            let nextUrl := next |? "" in
            if falsy nextUrl then st
            else mainLoop fuel' st nextUrl
  end.

Definition run (fuel : nat) (searchUrl : string) : RunState :=
  mainLoop fuel initial searchUrl.

End Loop.

End HttpFirst.

(** ** src/main.js, second program, and part_002: the browser handlers *)

Module Browser.

Section Cascade.

Variable Json : Type.
Variable safeJsonParse : string -> option Json.
Variable extractLawyersFromJsonLd : Json -> string -> list Lawyer.
Variable extractListingViaHtml : string -> string -> list Lawyer.

(** src/main.js lines 1233-1247, part_002 lines 456-469: the first script
    whose JSON-LD yields records wins ([break]). *)
Fixpoint jsonLdStep (jsonLdScripts : list string) (requestUrl : string) : list Lawyer :=
  match jsonLdScripts with
  | [] => []
  | jsonText :: rest =>
      match safeJsonParse jsonText with
      | Some data =>
          let extracted := extractLawyersFromJsonLd data requestUrl in
          if nonEmpty extracted then extracted else jsonLdStep rest requestUrl
      | None => jsonLdStep rest requestUrl
      end
  end.

(** src/main.js lines 1230-1256. *)
Definition camoufoxCascade (jsonLdScripts : list string) (html requestUrl : string)
  : list Lawyer :=
  let lawyers := jsonLdStep jsonLdScripts requestUrl in
  if negb (nonEmpty lawyers) then extractListingViaHtml html requestUrl else lawyers.

(** part_002 lines 452-524; [embeddedJson] stands for the scan of the
    inline scripts of priority 3. *)
Definition browserFirstCascade (embeddedJson : list Lawyer)
    (jsonLdScripts : list string) (html requestUrl : string) : list Lawyer :=
  let lawyers := jsonLdStep jsonLdScripts requestUrl in
  let lawyers := if negb (nonEmpty lawyers) then embeddedJson else lawyers in
  if negb (nonEmpty lawyers) then extractListingViaHtml html requestUrl else lawyers.

End Cascade.

(** part_002 lines 526-535: records without a website are skipped. *)
Fixpoint filterLoop (maxLawyers : Z) (lawyers : list Lawyer) (seen : gset string)
    (total : Z) (unique : list Lawyer) : list Lawyer * gset string * Z :=
  match lawyers with
  | [] => (unique, seen, total)
  | lawyer :: rest =>
      if falsy (website lawyer) || bool_decide (website lawyer ∈ seen)
      then filterLoop maxLawyers rest seen total unique
      else if limitReached maxLawyers total then (unique, seen, total)
      else filterLoop maxLawyers rest ({[website lawyer]} ∪ seen) (total + 1)
                      (unique ++ [lawyer])
  end.

End Browser.

(** ** URL resolution *)

Definition JUSTIA_BASE : string := "https://www.justia.com".

(** [absoluteUrl]; [newURL rel base] stands for [new URL(rel, base).toString()],
    with [None] when the constructor throws. *)
Definition absoluteUrl (newURL : string -> string -> option string)
    (maybeRelativeUrl baseUrl : string) : string :=
  if falsy maybeRelativeUrl then ""
  else match newURL maybeRelativeUrl (baseUrl |? JUSTIA_BASE) with
       | Some u => u
       | None => ""
       end.

(** ** The parsed document and the cheerio queries the source makes *)

Module Dom.

#[warnings="-register-all"]
Inductive node :=
| Text (s : string)
| Elem (tag : string) (attrs : list (string * string)) (kids : list node).

(** White space and line terminators of JavaScript below 256: tab to
    carriage return, space, and the no-break space U+00A0. *)
Definition isSpace (c : ascii) : bool :=
  let n := nat_of_ascii c in
  (Nat.eqb n 32 || (Nat.leb 9 n && Nat.leb n 13) || Nat.eqb n 160)%bool.

Fixpoint trimStart (s : string) : string :=
  match s with
  | String c s' => if isSpace c then trimStart s' else s
  | EmptyString => EmptyString
  end.

Fixpoint trimEnd (s : string) : string :=
  match s with
  | EmptyString => EmptyString
  | String c s' =>
      let r := trimEnd s' in
      if isSpace c && falsy r then EmptyString else String c r
  end.

(** [s.trim()] *)
Definition trim (s : string) : string := trimEnd (trimStart s).

Definition digitVal (c : ascii) : option Z :=
  let n := nat_of_ascii c in
  if (Nat.leb 48 n && Nat.leb n 57)%bool then Some (Z.of_nat (n - 48)) else None.

(** The value of the longest prefix of decimal digits; [None] when the
    string does not start with a digit. *)
Fixpoint digits (s : string) (acc : Z) (seen : bool) : option Z :=
  match s with
  | String c s' =>
      match digitVal c with
      | Some d => digits s' (10 * acc + d) true
      | None => if seen then Some acc else None
      end
  | EmptyString => if seen then Some acc else None
  end.

(** A number as [Number.parseInt] can give it: [NaN], an infinity, or a
    double whose value is an integer.  [-0] is not told apart from [0]:
    neither [===], [+ 1] nor [Number.isFinite] tells them apart. *)
Inductive number :=
| NaN
| Infinity (negative : bool)
| Finite (z : Z).

(** The double nearest to a non-negative integer, ties to the even
    significand of 53 bits; [None] when the result is beyond the largest
    double. *)
Definition roundToDouble (z : Z) : option Z :=
  if z <? 2 ^ 53 then Some z
  else
    let e := Z.log2 z - 52 in
    let q := Z.shiftr z e in
    let r := z - Z.shiftl q e in
    let half := Z.shiftl 1 (e - 1) in
    let q' := if (half <? r) || ((r =? half) && Z.odd q) then q + 1 else q in
    let v := Z.shiftl q' e in
    if 2 ^ 1024 <=? v then None else Some v.

(** The number that stands for an integer. *)
Definition toNumber (z : Z) : number :=
  match roundToDouble (Z.abs z) with
  | Some v => Finite (Z.sgn z * v)
  | None => Infinity (z <? 0)
  end.

(** [a === b] *)
Definition strictEquals (a b : number) : bool :=
  match a, b with
  | Finite x, Finite y => x =? y
  | Infinity s, Infinity t => Bool.eqb s t
  | _, _ => false
  end.

(** [currentNum + 1] for a finite [currentNum]. *)
Definition plus1 (currentNum : Z) : number := toNumber (currentNum + 1).

(** [Number.parseInt(s, 10)]: leading white space, a sign, then the
    longest run of decimal digits, read exactly and rounded once (the
    standard lets an implementation drop the digits after the twentieth;
    V8 does not). *)
Definition parseInt (s : string) : number :=
  let signed (negative : bool) (s' : string) :=
    match digits s' 0 false with
    | Some n => toNumber (if negative then - n else n)
    | None => NaN
    end in
  match trimStart s with
  | String "-" s' => signed true s'
  | String "+" s' => signed false s'
  | s' => signed false s'
  end.

(** [$(el).attr(name)] *)
Fixpoint assoc (name : string) (attrs : list (string * string)) : option string :=
  match attrs with
  | [] => None
  | (k, v) :: rest => if String.eqb k name then Some v else assoc name rest
  end.

Definition attr (name : string) (n : node) : option string :=
  match n with
  | Elem _ attrs _ => assoc name attrs
  | Text _ => None
  end.

(** [$(sel).attr(name)], [$(sel).first().attr(name)]: the attribute of the
    first element of the selection. *)
Definition attrOfFirst (name : string) (sel : list node) : option string :=
  match sel with
  | [] => None
  | n :: _ => attr name n
  end.

(** [$(el).text()] *)
Fixpoint text (n : node) : string :=
  match n with
  | Text s => s
  | Elem _ _ kids => fold_right (fun k acc => text k +:+ acc) "" kids
  end.

(** The element and its descendants, in document order. *)
Fixpoint elements (n : node) : list node :=
  match n with
  | Text _ => []
  | Elem _ _ kids => n :: flat_map elements kids
  end.

(** [$(selector)] over the whole document. *)
Definition select (matches : node -> bool) (doc : list node) : list node :=
  List.filter matches (flat_map elements doc).

(** The elements lying strictly inside an element that satisfies
    [container], in document order. *)
Fixpoint inside (container : node -> bool) (within : bool) (n : node) : list node :=
  match n with
  | Text _ => []
  | Elem _ _ kids =>
      (if within then [n] else [])
      ++ flat_map (inside container (within || container n)) kids
  end.

(** [$(container).find(selector)] *)
Definition find (container matches : node -> bool) (doc : list node) : list node :=
  List.filter matches (flat_map (inside container false) doc).

Definition isTag (t : string) (n : node) : bool :=
  match n with
  | Elem tag _ _ => String.eqb tag t
  | Text _ => false
  end.

Definition attrIs (name value : string) (n : node) : bool :=
  match attr name n with
  | Some v => String.eqb v value
  | None => false
  end.

(** [[name="value"]] for an attribute whose value css-select compares
    without regard to case ([rel], [type], [lang] and the like):
    [attr.length === value.length && attr.toLowerCase() === value], with
    [value] lower-cased beforehand. *)
Definition attrIsNoCase (name value : string) (n : node) : bool :=
  match attr name n with
  | Some v =>
      Nat.eqb (String.length v) (String.length (toLowerCase value))
      && String.eqb (toLowerCase v) (toLowerCase value)
  | None => false
  end.

Definition attrIncludes (name part : string) (n : node) : bool :=
  match attr name n with
  | Some v => includes v part
  | None => false
  end.

(** The whitespace-separated tokens of a [class] attribute. *)
Fixpoint tokens (s : string) (cur : string) : list string :=
  match s with
  | EmptyString => if falsy cur then [] else [cur]
  | String c s' =>
      if isSpace c then (if falsy cur then tokens s' "" else cur :: tokens s' "")
      else tokens s' (cur +:+ String c "")
  end.

Definition hasClass (c : string) (n : node) : bool :=
  match attr "class" n with
  | Some v => existsb (String.eqb c) (tokens v "")
  | None => false
  end.

(** Every element of a tree with its ancestors, nearest first, in
    document order. *)
Fixpoint placed (ancestors : list node) (n : node) : list (list node * node) :=
  match n with
  | Text _ => []
  | Elem _ _ kids => (ancestors, n) :: flat_map (placed (n :: ancestors)) kids
  end.

End Dom.

(** ** Pagination resolver (src/main.js lines 413-450 and 1069-1106,
    part_002 lines 274-311; part_001 lines 312-345) *)

Module Pagination.

Import Dom.

(** A value used as a condition: [undefined] and [''] are falsy. *)
Definition truthy (v : option string) : option string :=
  match v with
  | Some s => if falsy s then None else Some s
  | None => None
  end.

(** [a[rel="next"]]; css-select compares the value of [rel] without
    regard to case. *)
Definition relNextAnchor (n : node) : bool := isTag "a" n && attrIsNoCase "rel" "next" n.

(** [a[aria-label*="Next"], a[aria-label*="next"]] *)
Definition ariaNextAnchor (n : node) : bool :=
  isTag "a" n && (attrIncludes "aria-label" "Next" n || attrIncludes "aria-label" "next" n).

(** The filter on the anchor text in src/main.js and part_002. *)
Definition nextTextAnchor (n : node) : bool :=
  let t := toLowerCase (trim (text n)) in
  String.eqb t "next" || String.eqb t "next ›" || String.eqb t "›"
  || String.eqb t ">" || includes t "next page".

(** [.pagination, .pager, nav[role="navigation"]] *)
Definition paginationContainer (n : node) : bool :=
  hasClass "pagination" n || hasClass "pager" n
  || (isTag "nav" n && attrIs "role" "navigation" n).

(** [a[aria-current="page"], .current, .active, .selected] *)
Definition currentMarker (n : node) : bool :=
  (isTag "a" n && attrIs "aria-current" "page" n)
  || hasClass "current" n || hasClass "active" n || hasClass "selected" n.

Section Resolver.

Variable newURL : string -> string -> option string.

(** What the variants differ in: the filter on the anchor text, the
    selector of the pagination container and the selector of the current
    page marker. *)
Variable nextText : node -> bool.
Variable container : node -> bool.
Variable marker : node -> bool.

(** The body shared by the four copies of [findNextPageUrl]. *)
Definition resolve (doc : list node) (pageUrl : string) : string :=
  let relNext := attrOfFirst "href" (select relNextAnchor doc) in
  match truthy relNext with
  | Some relNext => absoluteUrl newURL relNext pageUrl
  | None =>
  let nextText :=
    attrOfFirst "href" (List.filter nextText (select (isTag "a") doc)) in
  match truthy nextText with
  | Some nextText => absoluteUrl newURL nextText pageUrl
  | None =>
  let ariaNext := attrOfFirst "href" (select ariaNextAnchor doc) in
  match truthy ariaNext with
  | Some ariaNext => absoluteUrl newURL ariaNext pageUrl
  | None =>
  let pagination := select container doc in
  if nonEmpty pagination then
    match find container marker doc with
    | current :: _ =>
        let currentText := trim (text current) in
        match parseInt currentText with
        | Finite currentNum =>
            let nextNum :=
              List.filter
                (fun el => strictEquals (parseInt (trim (text el))) (plus1 currentNum))
                (find container (isTag "a") doc) in
            match truthy (attrOfFirst "href" nextNum) with
            | Some href => absoluteUrl newURL href pageUrl
            | None => ""
            end
        | _ => ""
        end
    | [] => ""
    end
  else ""
  end end end.

(** The four steps one by one: each gives the link target it finds. *)
Definition stepRelNext (doc : list node) : option string :=
  truthy (attrOfFirst "href" (select relNextAnchor doc)).

Definition stepNextText (doc : list node) : option string :=
  truthy (attrOfFirst "href" (List.filter nextText (select (isTag "a") doc))).

Definition stepAriaNext (doc : list node) : option string :=
  truthy (attrOfFirst "href" (select ariaNextAnchor doc)).

Definition stepPageNumber (doc : list node) : option string :=
  _ ← head (select container doc);
  current ← head (find container marker doc);
  match parseInt (trim (text current)) with
  | Finite currentNum =>
      truthy (attrOfFirst "href"
                (List.filter
                   (fun el => strictEquals (parseInt (trim (text el))) (plus1 currentNum))
                   (find container (isTag "a") doc)))
  | _ => None
  end.

Definition firstStep (doc : list node) : option string :=
  match stepRelNext doc with
  | Some h => Some h
  | None =>
      match stepNextText doc with
      | Some h => Some h
      | None =>
          match stepAriaNext doc with
          | Some h => Some h
          | None => stepPageNumber doc
          end
      end
  end.

End Resolver.

(** [findNextPageUrl] of src/main.js (both programs) and part_002. *)
Definition findNextPageUrl (newURL : string -> string -> option string)
    (doc : list node) (pageUrl : string) : string :=
  resolve newURL nextTextAnchor paginationContainer currentMarker doc pageUrl.

End Pagination.

(** [findNextPageUrl] of part_001: no "next page" phrase, [.pagination]
    as the only container, no [.selected] marker. *)
Module PaginationHttpFirst.

Import Dom.

Definition nextTextAnchor (n : node) : bool :=
  let t := toLowerCase (trim (text n)) in
  String.eqb t "next" || String.eqb t "next ›" || String.eqb t "›" || String.eqb t ">".

(** [.pagination] *)
Definition paginationContainer (n : node) : bool := hasClass "pagination" n.

(** [a[aria-current="page"], .current, .active] *)
Definition currentMarker (n : node) : bool :=
  (isTag "a" n && attrIs "aria-current" "page" n)
  || hasClass "current" n || hasClass "active" n.

Definition findNextPageUrl (newURL : string -> string -> option string)
    (doc : list node) (pageUrl : string) : string :=
  Pagination.resolve newURL nextTextAnchor paginationContainer currentMarker doc pageUrl.

End PaginationHttpFirst.

(** The four rules in the words of the specification, as properties of
    the document. *)
Module PaginationSpec.

Import Dom.

(** [x] is the first member of [els] with property [P]. *)
Definition firstWith {A} (P : A -> Prop) (els : list A) (x : A) : Prop :=
  exists before after,
    els = before ++ x :: after /\ P x /\ Forall (fun y => ~ P y) before.

(** The elements of the document with their ancestors, in document order. *)
Definition placedElements (doc : list node) : list (list node * node) :=
  flat_map (placed []) doc.

Definition isElement (tag : string) (n : node) : Prop :=
  exists attrs kids, n = Elem tag attrs kids.

(** One of the white-space separated words of the [class] attribute. *)
Definition hasClassWord (word : string) (n : node) : Prop :=
  exists v, attr "class" n = Some v /\ word ∈ tokens v "".

(** The text of an element as the reader sees it. *)
Definition visibleText (n : node) : string := trim (text n).

(** Equal up to the case of the letters. *)
Definition sameUpToCase (a b : string) : Prop :=
  String.length a = String.length b /\ toLowerCase a = toLowerCase b.

(** (a) an explicit "next" relation link *)
Definition relNextLink (n : node) : Prop :=
  isElement "a" n /\ exists rel, attr "rel" n = Some rel /\ sameUpToCase rel "next".

(** (b) an anchor whose visible text, in lower case, is one of the "next"
    tokens; src/main.js and part_002 also take a text that holds the
    phrase "next page" *)
Definition nextTokens : list string := ["next"; "next ›"; "›"; ">"].

Definition nextTokenLink (n : node) : Prop :=
  isElement "a" n /\ toLowerCase (visibleText n) ∈ nextTokens.

Definition nextTextLink (n : node) : Prop :=
  isElement "a" n /\
  (toLowerCase (visibleText n) ∈ nextTokens \/
   contains (toLowerCase (visibleText n)) "next page").

(** (c) an anchor with an accessibility label containing "Next" or "next" *)
Definition ariaNextLink (n : node) : Prop :=
  isElement "a" n /\
  exists label, attr "aria-label" n = Some label /\
                (contains label "Next" \/ contains label "next").

(** (d) the recognized pagination containers and the markers of the
    current page: of src/main.js and part_002, and of part_001 *)
Definition paginationContainer (n : node) : Prop :=
  hasClassWord "pagination" n \/ hasClassWord "pager" n \/
  (isElement "nav" n /\ attr "role" n = Some "navigation").

Definition currentMarker (n : node) : Prop :=
  (isElement "a" n /\ attr "aria-current" n = Some "page") \/
  hasClassWord "current" n \/ hasClassWord "active" n \/ hasClassWord "selected" n.

Definition paginationClass (n : node) : Prop := hasClassWord "pagination" n.

Definition currentMarkerHttpFirst (n : node) : Prop :=
  (isElement "a" n /\ attr "aria-current" n = Some "page") \/
  hasClassWord "current" n \/ hasClassWord "active" n.

Section Rules.

Variable nextText : node -> Prop.
Variable container : node -> Prop.
Variable marker : node -> Prop.

(** The non-empty link target of the first element with property [P]. *)
Definition target (P : node -> Prop) (doc : list node) (href : string) : Prop :=
  exists n, firstWith P (flat_map elements doc) n /\ attr "href" n = Some href /\ href <> "".

Definition ruleA : list node -> string -> Prop := target relNextLink.
Definition ruleB : list node -> string -> Prop := target nextText.
Definition ruleC : list node -> string -> Prop := target ariaNextLink.

(** Lying inside a pagination container. *)
Definition inContainer (p : list node * node) : Prop := Exists container p.1.

(** The first marker inside a container reads as the finite number [N];
    the target is that of the first anchor inside a container whose text
    parses to [N] plus one. *)
Definition ruleD (doc : list node) (href : string) : Prop :=
  exists current N next,
    firstWith (fun p => inContainer p /\ marker p.2) (placedElements doc) current /\
    parseInt (visibleText current.2) = Finite N /\
    firstWith (fun p => inContainer p /\ isElement "a" p.2 /\
                        strictEquals (parseInt (visibleText p.2)) (plus1 N) = true)
              (placedElements doc) next /\
    attr "href" next.2 = Some href /\ href <> "".

Definition matches (rule : list node -> string -> Prop) (doc : list node) : Prop :=
  exists href, rule doc href.

(** The target of the first rule, in the order (a), (b), (c), (d), that
    has one. *)
Definition firstRule (doc : list node) (href : string) : Prop :=
  ruleA doc href \/
  (~ matches ruleA doc /\ ruleB doc href) \/
  (~ matches ruleA doc /\ ~ matches ruleB doc /\ ruleC doc href) \/
  (~ matches ruleA doc /\ ~ matches ruleB doc /\ ~ matches ruleC doc /\ ruleD doc href).

Definition noRule (doc : list node) : Prop :=
  ~ matches ruleA doc /\ ~ matches ruleB doc /\ ~ matches ruleC doc /\ ~ matches ruleD doc.

(** What the resolver is to return. *)
Definition resolves (newURL : string -> string -> option string)
    (doc : list node) (pageUrl url : string) : Prop :=
  (exists href, firstRule doc href /\ url = absoluteUrl newURL href pageUrl) \/
  (noRule doc /\ url = "").

End Rules.

End PaginationSpec.

(** ** JSON-LD extractor (src/main.js lines 181-281) *)

Module JsonLd.

(** A JavaScript value as [JSON.parse] builds it, plus [undefined] for a
    missing property.  Numbers are integers here; only their truthiness and
    their not being strings matter to the code. *)
#[warnings="-register-all"]
Inductive json :=
| JUndefined
| JNull
| JBool (b : bool)
| JNum (n : Z)
| JStr (s : string)
| JArr (items : list json)
| JObj (props : list (string * json)).

(** How a call ends: a value, a thrown [TypeError], or the recursion bound
    of the model reached. *)
Inductive result (A : Type) :=
| Ok (a : A)
| TypeError
| OutOfFuel.
Arguments Ok {A} a.
Arguments TypeError {A}.
Arguments OutOfFuel {A}.

Definition bind {A B} (r : result A) (k : A -> result B) : result B :=
  match r with
  | Ok a => k a
  | TypeError => TypeError
  | OutOfFuel => OutOfFuel
  end.

Notation "'let!' x ':=' r 'in' k" := (bind r (fun x => k))
  (at level 10, x name, r at level 100, k at level 200).

Definition truthy (v : json) : bool :=
  match v with
  | JUndefined | JNull => false
  | JBool b => b
  | JNum n => negb (n =? 0)
  | JStr s => negb (falsy s)
  | JArr _ | JObj _ => true
  end.

(** [a || b] *)
Definition or (a b : json) : json := if truthy a then a else b.

(** [typeof v === 'object'] *)
Definition typeofObject (v : json) : bool :=
  match v with
  | JNull | JArr _ | JObj _ => true
  | _ => false
  end.

Definition isArray (v : json) : bool :=
  match v with JArr _ => true | _ => false end.

Definition isString (v : json) : bool :=
  match v with JStr _ => true | _ => false end.

Fixpoint lookup (k : string) (props : list (string * json)) : json :=
  match props with
  | [] => JUndefined
  | (k', v) :: rest => if String.eqb k' k then v else lookup k rest
  end.

(** [v?.k]: never throws. *)
Definition getOpt (v : json) (k : string) : json :=
  match v with
  | JObj props => lookup k props
  | _ => JUndefined
  end.

(** [v.k]: throws on [null] and [undefined]. *)
Definition get (v : json) (k : string) : result json :=
  match v with
  | JUndefined | JNull => TypeError
  | _ => Ok (getOpt v k)
  end.

(** [v === s] for a string literal [s]. *)
Definition isStr (v : json) (s : string) : bool :=
  match v with JStr x => String.eqb x s | _ => false end.

(** Whether an object has an own property [k]. *)
Definition hasKey (k : string) (props : list (string * json)) : bool :=
  existsb (fun kv => String.eqb kv.1 k) props.

(** [xs.join(sep)] for strings. *)
Fixpoint joinStrings (sep : string) (xs : list string) : string :=
  match xs with
  | [] => ""
  | [x] => x
  | x :: rest => x +:+ sep +:+ joinStrings sep rest
  end.

Section Traverse.

Context {A B : Type}.
Variable f : A -> result B.

(** [f] on every member, from the left; the first error ends it. *)
Fixpoint traverse (xs : list A) : result (list B) :=
  match xs with
  | [] => Ok []
  | x :: rest =>
      let! y := f x in
      let! ys := traverse rest in
      Ok (y :: ys)
  end.

End Traverse.

(** [String(v)], as [Array.prototype.join] and a template literal apply
    it.  An array answers with its own [join(',')], in which [null] and
    [undefined] read as the empty string.  An object answers with
    [Object.prototype.toString], unless it has an own property [toString]:
    a value built by [JSON.parse] is not callable, so the conversion goes
    on to [valueOf], which gives no primitive either, and throws a
    [TypeError].  Numbers are integers of magnitude below 2^53, which
    JavaScript prints in decimal. *)
Fixpoint toStr (v : json) : result string :=
  match v with
  | JUndefined => Ok "undefined"
  | JNull => Ok "null"
  | JBool true => Ok "true"
  | JBool false => Ok "false"
  | JNum n => Ok (pretty n)
  | JStr s => Ok s
  | JArr items =>
      let! parts :=
        traverse (fun x => match x with
                           | JUndefined | JNull => Ok ""
                           | _ => toStr x
                           end) items in
      Ok (joinStrings "," parts)
  | JObj props => if hasKey "toString" props then TypeError else Ok "[object Object]"
  end.

(** The string an element contributes to a [join]. *)
Definition elementStr (x : json) : result string :=
  match x with
  | JUndefined | JNull => Ok ""
  | _ => toStr x
  end.

(** [items.join(sep)] *)
Definition join (sep : string) (items : list json) : result string :=
  let! parts := traverse elementStr items in
  Ok (joinStrings sep parts).

(** [type.includes(s)]: a string method, an array method, or not a
    function at all. *)
Definition typeIncludes (type : json) (s : string) : result bool :=
  match type with
  | JStr t => Ok (includes t s)
  | JArr items => Ok (existsb (fun v => isStr v s) items)
  | _ => TypeError
  end.

(** The values a [for ... of] loop draws from [v]. *)
Fixpoint chars (s : string) : list json :=
  match s with
  | EmptyString => []
  | String c s' => JStr (String c "") :: chars s'
  end.

Definition iterate (v : json) : result (list json) :=
  match v with
  | JArr items => Ok items
  | JStr s => Ok (chars s)
  | _ => TypeError
  end.

(** [s.split(',')] *)
Fixpoint splitComma (s : string) (cur : string) : list string :=
  match s with
  | EmptyString => [cur]
  | String c s' =>
      if Ascii.eqb c "," then cur :: splitComma s' ""
      else splitComma s' (cur +:+ String c "")
  end.

(** The object literal pushed for an item. *)
Record entry := mkEntry {
  name : json;
  firmName : json;
  location : json;
  address : json;
  phone : json;
  email : json;
  website : string;
  practiceAreas : json;
  description : json;
  yearsLicensed : json;
  biography : json;
  education : json;
  barAdmissions : json;
  languages : json;
  scrapedAt : string
}.

Section Extractor.

(** [new URL(value, base).toString()], [None] when it throws; and the
    timestamp of the run. *)
Variable newURL : json -> string -> option string.
Variable now : string.

Definition absoluteUrl (maybeRelativeUrl : json) (baseUrl : string) : string :=
  if negb (truthy maybeRelativeUrl) then ""
  else match newURL maybeRelativeUrl (baseUrl |? JUSTIA_BASE) with
       | Some u => u
       | None => ""
       end.

(** Lines 220-231; [join] may throw. *)
Definition practiceAreasOf (item : json) : result json :=
  if truthy (getOpt item "knowsAbout") then
    match getOpt item "knowsAbout" with
    | JArr xs => let! s := join ", " xs in Ok (JStr s)
    | v => Ok v
    end
  else if truthy (or (getOpt item "areaServed") (getOpt item "serviceArea")) then
    match or (getOpt item "areaServed") (getOpt item "serviceArea") with
    | JArr xs => let! s := join ", " xs in Ok (JStr s)
    | v => Ok v
    end
  else Ok (JStr "").

(** Lines 234-242; [join] may throw. *)
Definition locationOf (item : json) : result json :=
  let address := getOpt item "address" in
  if isString address then Ok address
  else if truthy (or (getOpt address "addressLocality") (getOpt address "addressRegion"))
  then
    let! s := join ", " (List.filter truthy
                [getOpt address "addressLocality"; getOpt address "addressRegion"]) in
    Ok (JStr s)
  else Ok (or (getOpt item "location") (JStr "")).

Definition languagesOf (item : json) : json :=
  match getOpt item "knowsLanguage" with
  | JArr xs => JArr xs
  | JStr s => JArr (map (fun x => JStr (Dom.trim x)) (splitComma s ""))
  | _ => JNull
  end.

(** Lines 203-266: one item that is not an [ItemList]. *)
Definition entity (item : json) (pageUrl : string) (results : list entry)
  : result (list entry) :=
  let type := or (getOpt item "@type") (JStr "") in
  let! a := typeIncludes type "Attorney" in
  let! b := (if a then Ok true else typeIncludes type "Lawyer") in
  let! c := (if b then Ok true else typeIncludes type "Person") in
  let! d := (if c then Ok true else typeIncludes type "LegalService") in
  let! isLawyer := (if d then Ok true else typeIncludes type "Organization") in
  if negb isLawyer && negb (truthy (getOpt item "name")) then Ok results
  else
    let name := or (or (getOpt item "name") (getOpt item "givenName")) (JStr "") in
    if negb (truthy name) then Ok results
    else
      let profileUrl :=
        absoluteUrl (or (or (getOpt item "url") (getOpt item "@id")) (JStr "")) pageUrl in
      let! practiceAreas := practiceAreasOf item in
      let! location := locationOf item in
      Ok (results ++
          [ {| name := or name (JStr "Unknown Name");
               firmName := or (or (or (getOpt (getOpt item "worksFor") "name")
                                      (getOpt (getOpt item "affiliation") "name"))
                                  (getOpt (getOpt item "memberOf") "name"))
                              (JStr "");
               location := location;
               address := if isString (getOpt item "address") then getOpt item "address"
                          else or (getOpt (getOpt item "address") "streetAddress") location;
               phone := or (or (getOpt item "telephone") (getOpt item "phone")) (JStr "");
               email := or (getOpt item "email") (JStr "");
               website := profileUrl;
               practiceAreas := practiceAreas;
               description := or (getOpt item "description") (JStr "");
               yearsLicensed := or (getOpt item "yearsInPractice") (JStr "");
               biography := JNull;
               education := JNull;
               barAdmissions := JNull;
               languages := languagesOf item;
               scrapedAt := now |} ]).

Section Loops.

(** The recursive call, one level down. *)
Variable recurse : json -> string -> result (list entry).

(** Lines 193-199. *)
Fixpoint listItemsLoop (listItems : list json) (pageUrl : string) (results : list entry)
  : result (list entry) :=
  match listItems with
  | [] => Ok results
  | listItem :: rest =>
      let! inner := get listItem "item" in
      let nestedItem := or inner listItem in
      if truthy nestedItem then
        let! extracted := recurse nestedItem pageUrl in
        listItemsLoop rest pageUrl (results ++ extracted)
      else listItemsLoop rest pageUrl results
  end.

(** Lines 187-267. *)
Fixpoint itemsLoop (items : list json) (pageUrl : string) (results : list entry)
  : result (list entry) :=
  match items with
  | [] => Ok results
  | item :: rest =>
      if negb (truthy item) || negb (typeofObject item) then itemsLoop rest pageUrl results
      else if isStr (getOpt item "@type") "ItemList" && truthy (getOpt item "itemListElement")
      then
        let listItems :=
          match getOpt item "itemListElement" with
          | JArr xs => xs
          | v => [v]
          end in
        let! results := listItemsLoop listItems pageUrl results in
        itemsLoop rest pageUrl results
      else
        let! results := entity item pageUrl results in
        itemsLoop rest pageUrl results
  end.

End Loops.

(** [extractLawyersFromJsonLd(data, pageUrl)]; [fuel] bounds the nesting
    of item lists. *)
Fixpoint extractLawyersFromJsonLd (fuel : nat) (data : json) (pageUrl : string)
  : result (list entry) :=
  match fuel with
  | O => OutOfFuel
  | S fuel' =>
      let! items := (if isArray data then iterate data
                     else
                       let! graph := get data "@graph" in
                       iterate (or graph (JArr [data]))) in
      itemsLoop (extractLawyersFromJsonLd fuel') items pageUrl []
  end.

(** [JSON.parse] is a collaborator: [None] when it throws. *)
Variable JSONparse : string -> option json.

(** Lines 55-61. *)
Definition safeJsonParse (text : string) : json :=
  match JSONparse text with
  | Some v => v
  | None => JNull
  end.

(** Lines 272-281; [scripts] are the texts of the [application/ld+json]
    script elements of the page. *)
Fixpoint extractLawyersFromJsonLdHtml (fuel : nat) (scripts : list string)
    (pageUrl : string) (found : list entry) : result (list entry) :=
  match scripts with
  | [] => Ok found
  | text :: rest =>
      let data := safeJsonParse text in
      if truthy data then
        let! extracted := extractLawyersFromJsonLd fuel data pageUrl in
        extractLawyersFromJsonLdHtml fuel rest pageUrl (found ++ extracted)
      else extractLawyersFromJsonLdHtml fuel rest pageUrl found
  end.

End Extractor.

End JsonLd.

(** ** Generic JSON object walks *)

Module Walk.

(** Object graphs: a value is a primitive or a reference to a container in
    the heap, so that a graph can point back to itself.  The containers are
    plain objects and arrays, as [JSON.parse] builds them; [VFun] is a
    built-in method read off a prototype. *)
Definition loc := positive.

Inductive value :=
| VUndefined
| VNull
| VBool (b : bool)
| VNum (n : Z)
| VStr (s : string)
| VRef (l : loc)
| VFun (name : string).

(** [CObj] lists the own properties of an object in the order of
    [Object.values], each key once. *)
Inductive container :=
| CArr (items : list value)
| CObj (props : list (string * value)).

Definition truthy (v : value) : bool :=
  match v with
  | VUndefined | VNull => false
  | VBool b => b
  | VNum n => negb (n =? 0)
  | VStr s => negb (falsy s)
  | VRef _ | VFun _ => true
  end.

Definition or (a b : value) : value := if truthy a then a else b.

(** [typeof v === 'object'] *)
Definition typeofObject (v : value) : bool :=
  match v with
  | VNull | VRef _ => true
  | _ => false
  end.

Fixpoint lookup (k : string) (props : list (string * value)) : value :=
  match props with
  | [] => VUndefined
  | (k', v) :: rest => if String.eqb k' k then v else lookup k rest
  end.

(** The record pushed for an array element. *)
Record entry := mkEntry {
  name : value;
  firmName : value;
  location : value;
  address : value;
  phone : value;
  email : value;
  website : string;
  practiceAreas : value;
  description : value;
  yearsLicensed : value;
  biography : value;
  education : value;
  barAdmissions : value;
  languages : value;
  scrapedAt : string
}.

(** [Object.values(c)] *)
Definition valuesOf (c : container) : list value :=
  match c with
  | CArr items => items
  | CObj props => map snd props
  end.

(** How a call ends: a value, a thrown [TypeError], or the bound of the
    model reached. *)
Abbreviation result := JsonLd.result.
Abbreviation Ok := JsonLd.Ok.
Abbreviation TypeError := JsonLd.TypeError.
Abbreviation OutOfFuel := JsonLd.OutOfFuel.
Notation "'let!' x ':=' r 'in' k" := (JsonLd.bind r (fun x => k))
  (at level 10, x name, r at level 100, k at level 200).

(** The result of a collaborator that may throw. *)
Definition orThrow {A} (o : option A) : result A :=
  match o with
  | Some a => Ok a
  | None => TypeError
  end.

Section Heap.

Variable h : gmap loc container.

(** Collaborators, each [None] when it throws:
    [new URL(value, base).toString()]; [String(v)] as a template literal
    applies it, which throws for an object whose [toString] and [valueOf]
    give no primitive; [items.join(', ')], which applies the same
    conversion to the members.  [now] is the timestamp. *)
Variable newURL : value -> string -> option string.
Variable toString : value -> option string.
Variable joinComma : list value -> option string.
Variable now : string.

(** [v?.k] for the property names the source reads.  Of these, a string
    has [link] ([String.prototype.link]) and a function has [name]; an
    array, a number and a boolean have none. *)
Definition getOpt (v : value) (k : string) : value :=
  match v with
  | VRef l =>
      match h !! l with
      | Some (CObj props) => lookup k props
      | _ => VUndefined
      end
  | VStr _ => if String.eqb k "link" then VFun "link" else VUndefined
  | VFun name => if String.eqb k "name" then VStr name else VUndefined
  | _ => VUndefined
  end.

(** [Array.isArray(v)] with its elements. *)
Definition asArray (v : value) : option (list value) :=
  match v with
  | VRef l =>
      match h !! l with
      | Some (CArr items) => Some items
      | _ => None
      end
  | _ => None
  end.

(** [Object.values(node)] for a reference; a reference outside the heap
    has no values. *)
Definition values (l : loc) : list value :=
  match h !! l with
  | Some c => valuesOf c
  | None => []
  end.

Definition absoluteUrl (maybeRelativeUrl : value) (baseUrl : string) : string :=
  if negb (truthy maybeRelativeUrl) then ""
  else match newURL maybeRelativeUrl (baseUrl |? JUSTIA_BASE) with
       | Some u => u
       | None => ""
       end.

(** *** part_001 lines 73-142, part_002 lines 127-195:
    [extractLawyersFromJsonObject] *)

Definition rawName (item : value) : value :=
  or (or (or (getOpt item "name") (getOpt item "fullName")) (getOpt item "title")) (VStr "").

Definition rawProfileUrl (item : value) : value :=
  or (or (or (getOpt item "url") (getOpt item "profileUrl")) (getOpt item "link")) (VStr "").

(** part_001 lines 98-124: the body of the loop over one array; [Ok None]
    is the [continue], and the [join] of the practice areas may throw. *)
Definition recordOf (item : value) (pageUrl : string) : result (option entry) :=
  let name := rawName item in
  let profileUrl := rawProfileUrl item in
  let absoluteProfileUrl := absoluteUrl profileUrl pageUrl in
  if negb (truthy name) && falsy absoluteProfileUrl then Ok None
  else
    let! practiceAreas :=
      (match asArray (getOpt item "practiceAreas") with
       | Some xs => let! s := orThrow (joinComma xs) in Ok (VStr s)
       | None => Ok (or (or (getOpt item "practiceAreas") (getOpt item "specialties"))
                        (VStr ""))
       end) in
    Ok (Some {| name := or name (VStr "Unknown Name");
                firmName := or (or (or (getOpt item "firmName") (getOpt item "firm"))
                                   (getOpt (getOpt item "organization") "name"))
                               (VStr "");
                location := or (or (or (getOpt item "location") (getOpt item "city"))
                                   (getOpt item "region"))
                               (VStr "");
                address := or (getOpt item "address") (VStr "");
                phone := or (or (getOpt item "phone") (getOpt item "telephone")) (VStr "");
                email := or (getOpt item "email") (VStr "");
                website := absoluteProfileUrl;
                practiceAreas := practiceAreas;
                description := or (or (getOpt item "description") (getOpt item "bio"))
                                  (VStr "");
                yearsLicensed := or (or (getOpt item "yearsLicensed")
                                        (getOpt item "licensedSince"))
                                    (VStr "");
                biography := VNull;
                education := VNull;
                barAdmissions := VNull;
                languages := VNull;
                scrapedAt := now |}).

(** The records of the elements of one array, in order. *)
Definition recordsOf (items : list value) (pageUrl : string) : result (list entry) :=
  let! found := JsonLd.traverse (fun item => recordOf item pageUrl) items in
  Ok (omap id found).

(** part_001 lines 86-95: the arrays looked at; part_002, lines 139-148,
    adds [node.profiles]. *)
Definition arraysToCheck (profiles : bool) (node : value) : list value :=
  List.filter truthy
    ([ getOpt node "lawyers"; getOpt node "attorneys"; getOpt node "results";
       getOpt node "items"; getOpt (getOpt node "data") "lawyers";
       getOpt (getOpt node "data") "attorneys"; getOpt (getOpt node "data") "results" ]
     ++ if profiles then [getOpt node "profiles"] else []).

(** part_001 lines 86-125: the records found at one node. *)
Definition recordsAt (profiles : bool) (node : value) (pageUrl : string)
  : result (list entry) :=
  let! found :=
    JsonLd.traverse
      (fun arr =>
         match asArray arr with
         | Some items => recordsOf items pageUrl
         | None => Ok []
         end)
      (arraysToCheck profiles node) in
  Ok (concat found).

(** Lines 128-131: the children pushed, the last on top. *)
Definition pushed (l : loc) : list value :=
  rev (List.filter (fun value => truthy value && typeofObject value) (values l)).

(** Lines 79-132: the [while (stack.length)] loop.  The head of [stack]
    is its top; [order] lists the containers in the order they are
    processed and is not part of the source state. *)
Fixpoint loop (profiles : bool) (fuel : nat) (pageUrl : string) (stack : list value)
    (visited : gset loc) (results : list entry) (order : list loc)
  : result (list entry * list loc) :=
  match stack with
  | [] => Ok (results, order)
  | node :: stack =>
      match fuel with
      | O => OutOfFuel
      | S fuel' =>
          match node with
          | VRef l =>
              if bool_decide (l ∈ visited)
              then loop profiles fuel' pageUrl stack visited results order
              else
                let! found := recordsAt profiles node pageUrl in
                loop profiles fuel' pageUrl (pushed l ++ stack) ({[l]} ∪ visited)
                     (results ++ found) (order ++ [l])
          | _ => loop profiles fuel' pageUrl stack visited results order
          end
      end
  end.

(** Lines 134-141: "De-dup by website".  The template literal is only
    evaluated for a record without a website. *)
Definition entryKey (r : entry) : result string :=
  if falsy (website r) then
    let! n := orThrow (toString (name r)) in
    let! l := orThrow (toString (location r)) in
    let! f := orThrow (toString (firmName r)) in
    Ok (n +:+ "|" +:+ l +:+ "|" +:+ f)
  else Ok (website r).

Fixpoint dedup (results : list entry) (seen : gset string) : result (list entry) :=
  match results with
  | [] => Ok []
  | r :: rest =>
      let! key := entryKey r in
      if bool_decide (key ∈ seen) then dedup rest seen
      else
        let! kept := dedup rest ({[key]} ∪ seen) in
        Ok (r :: kept)
  end.

(** The number of values held by the containers of the heap that are not
    in [visited]: a bound on what the loop can still push. *)
Definition unvisitedValues (visited : gset loc) : nat :=
  sum_list_with
    (fun '(l, c) => if bool_decide (l ∈ visited) then 0%nat else length (valuesOf c))
    (map_to_list h).

(** One iteration for the root and one for every value that can be pushed. *)
Definition budget : nat := S (unvisitedValues ∅).

Definition extractLawyersFromJsonObject (profiles : bool) (root : value) (pageUrl : string)
  : result (list entry) :=
  let! walked := loop profiles budget pageUrl [root] ∅ [] [] in
  dedup walked.1 ∅.

(** *** src/main.js lines 157-177: [walk] of [extractLawyersFromApiPayload] *)

(** What [pushCandidate(node)] comes to before it looks at [seen]: it
    throws (a conversion to a string in it fails), it returns early (the
    name is missing or too short), or it has a key and a record. *)
Inductive Candidate :=
| Throws
| Skipped
| Found (dedupKey : string) (r : entry).

Variable candidate : value -> Candidate.

Definition pushCandidate (node : value) (st : list entry * gset string)
  : result (list entry * gset string) :=
  match candidate node with
  | Throws => TypeError
  | Skipped => Ok st
  | Found dedupKey r =>
      if bool_decide (dedupKey ∈ st.2) then Ok st
      else Ok (st.1 ++ [r], {[dedupKey]} ∪ st.2)
  end.

Definition looksLikeLawyer (node : value) (props : list (string * value)) : bool :=
  let keys := map (fun kv => toLowerCase kv.1) props in
  let hasName :=
    truthy (or (or (getOpt node "name") (getOpt node "fullName")) (getOpt node "title")) in
  hasName
  || existsb (fun k => includes k "attorney" || includes k "lawyer" || includes k "profile")
             keys.

(** [walk(node)]: plain recursion; [fuel] bounds the depth of the calls,
    [OutOfFuel] is a recursion that did not end within it. *)
Fixpoint walk (fuel : nat) (node : value) (st : list entry * gset string)
  : result (list entry * gset string) :=
  match fuel with
  | O => OutOfFuel
  | S fuel' =>
      let each :=
        fix each (vals : list value) (st : list entry * gset string) :=
          match vals with
          | [] => Ok st
          | v :: rest =>
              let! st' := walk fuel' v st in
              each rest st'
          end in
      match node with
      | VRef l =>
          match h !! l with
          | Some (CArr items) => each items st
          | Some (CObj props) =>
              let! st :=
                (if looksLikeLawyer node props then pushCandidate node st else Ok st) in
              each (map snd props) st
          | None => Ok st
          end
      | _ => Ok st
      end
  end.

End Heap.

End Walk.

(** ** Predicates and fixtures used in the statements *)

(** A detector is bounded by [n] when bodies that agree on their first [n]
    characters are classified alike. *)
Definition prefix_bounded (n : nat) (detect : string -> bool) : Prop :=
  forall b1 b2, slice0 n b1 = slice0 n b2 -> detect b1 = detect b2.

Fixpoint spaces (n : nat) : string :=
  match n with O => "" | S n' => String " " (spaces n') end.

(** A small site used to run the controllers on concrete input: three
    listing pages chained by "next" links with 9, 9 and 7 profile cards,
    a page that carries both JSON-LD and profile cards, a page whose
    "next" link points to itself, and a URL answered with status 403. *)
Module Fixture.

Definition letter (i : nat) : string := String (ascii_of_nat (65 + i)) "".

Definition card (nm loc firm site : string) : Lawyer :=
  {| name := nm; firmName := firm; location := loc; address := loc;
     phone := ""; email := ""; website := site; practiceAreas := "";
     description := ""; yearsLicensed := ""; biography := None;
     education := None; barAdmissions := None; languages := None;
     scrapedAt := "2024-01-01T00:00:00.000Z" |}.

Definition candidate (i : nat) : Lawyer :=
  card ("Lawyer " +:+ letter i) "California" ""
       ("https://www.justia.com/lawyers/california/" +:+ letter i).

Definition page1 := "https://www.justia.com/lawyers/criminal-law/california".
Definition page2 := "https://www.justia.com/lawyers/criminal-law/california?page=2".
Definition page3 := "https://www.justia.com/lawyers/criminal-law/california?page=3".
Definition pageBoth := "https://www.justia.com/lawyers/family-law/texas".
Definition pageSelf := "https://www.justia.com/lawyers/tax-law/ohio".
Definition pageDenied := "https://www.justia.com/lawyers/tax-law/utah".

Definition fetch (u : string) : Response :=
  if String.eqb u page1 then mkResponse 200 "<html>page 1</html>"
  else if String.eqb u page2 then mkResponse 200 "<html>page 2</html>"
  else if String.eqb u page3 then mkResponse 200 "<html>page 3</html>"
  else if String.eqb u pageBoth then mkResponse 200 "<html>both</html>"
  else if String.eqb u pageSelf then mkResponse 200 "<html>self</html>"
  else if String.eqb u pageDenied then mkResponse 403 "<html>Forbidden</html>"
  else mkResponse 404 "".

Definition ldRecord : Lawyer :=
  card "Ada Structured" "Austin, TX" "Structured LLP"
       "https://www.justia.com/lawyers/texas/ada-structured".
Definition htmlRecord : Lawyer :=
  card "Hal Markup" "Dallas, TX" "Markup & Co"
       "https://www.justia.com/lawyers/texas/hal-markup".

Definition extractLawyersFromJsonLdHtml (html pageUrl : string) : list Lawyer :=
  if String.eqb html "<html>both</html>" then [ldRecord] else [].

Definition extractLawyersFromNextData (html pageUrl : string) : list Lawyer := [].

Definition extractListingViaHtml (html pageUrl : string) : list Lawyer :=
  if String.eqb html "<html>page 1</html>" then map candidate (seq 0 9)
  else if String.eqb html "<html>page 2</html>" then map candidate (seq 9 9)
  else if String.eqb html "<html>page 3</html>" then map candidate (seq 18 7)
  else if String.eqb html "<html>both</html>" then [htmlRecord]
  else if String.eqb html "<html>self</html>" then [candidate 25]
  else [].

Definition findNextPageUrl (html pageUrl : string) : string :=
  if String.eqb html "<html>page 1</html>" then page2
  else if String.eqb html "<html>page 2</html>" then page3
  else if String.eqb html "<html>self</html>" then pageSelf
  else "".

Definition enrich (profileUrl : string) (baseData : Lawyer) : Lawyer := baseData.

Definition cheerioRun (maxLawyers maxPages : Z) (fuel : nat) (searchUrl : string) :=
  Cheerio.run maxLawyers maxPages false extractLawyersFromJsonLdHtml
              extractLawyersFromNextData extractListingViaHtml findNextPageUrl
              enrich fetch fuel searchUrl.

(** Two anonymous cards (no profile URL) whose composite keys coincide
    although name and location differ, and two that differ plainly. *)
Definition anonymous1 : Lawyer := card "Smith | Jones" "Reno" "" "".
Definition anonymous2 : Lawyer := card "Smith " " Jones|Reno" "" "".
Definition anonymous3 : Lawyer := card "Ann Lee" "Reno" "Lee Law" "".
Definition anonymous4 : Lawyer := card "Ann Lee" "Elko" "Lee Law" "".

End Fixture.

(** [s] holds no ["|"], the separator of the composite identity key. *)
Definition noBar (s : string) : bool := negb (includes s "|").

(** The composite of the identity key. *)
Definition composite (l : Lawyer) : string :=
  name l +:+ "|" +:+ location l +:+ "|" +:+ firmName l.

(** The stored records are counted by [totalScraped] and stay within a
    positive budget. *)
Definition within_budget (maxLawyers : Z) (st : Cheerio.RunState) : Prop :=
  Cheerio.totalScraped st = Z.of_nat (length (Cheerio.dataset st)) /\
  (0 < maxLawyers -> Cheerio.totalScraped st <= maxLawyers).

(** Escalation read off the fetch trace of a run: the first fetch is
    lightweight; after a listing fetch classified as blocked the next fetch
    is a rendered fetch of the same URL, and every later fetch is rendered. *)
Definition escalates_one_way (tr : list FetchEvent) : Prop :=
  (forall e, tr !! 0%nat = Some e -> fetchMode e = Lightweight) /\
  forall i e,
    tr !! i = Some e -> fetchPurpose e = Listing -> fetchBlocked e = true ->
    (forall e', tr !! S i = Some e' ->
                fetchMode e' = Rendered /\ fetchPurpose e' = Listing /\
                fetchUrl e' = fetchUrl e) /\
    (forall j e', (i < j)%nat -> tr !! j = Some e' -> fetchMode e' = Rendered).

Definition unblockedLightweight (e : FetchEvent) : Prop :=
  fetchMode e = Lightweight /\ fetchBlocked e = false.

Definition renderedListing (e : FetchEvent) : Prop :=
  fetchMode e = Rendered /\ fetchPurpose e = Listing /\ fetchBlocked e = false.

(** The same site seen by part_001: page 1 is served over HTTP, page 2 is
    answered with status 429, the browser renders pages 2 and 3. *)
Module FixtureHttp.

Definition fetchHttp (u : string) : HttpFirst.HttpResult :=
  if String.eqb u Fixture.page1 then HttpFirst.mkHttp u 200 "<html>page 1</html>"
  else if String.eqb u Fixture.page2 then HttpFirst.mkHttp u 429 "Too Many Requests"
  else HttpFirst.mkHttp u 404 "".

Definition pageContent (u : string) : string :=
  if String.eqb u Fixture.page2 then "<html>page 2</html>"
  else if String.eqb u Fixture.page3 then "<html>page 3</html>"
  else "".

Definition run (maxLawyers maxPages : Z) (fuel : nat) (searchUrl : string)
  : HttpFirst.RunState :=
  HttpFirst.run maxLawyers maxPages false fetchHttp pageContent unit
    (fun _ => None) (fun _ _ => []) (fun _ _ => "") (fun _ _ => [])
    Fixture.extractListingViaHtml Fixture.findNextPageUrl
    (fun _ => "") (fun _ => "") (fun _ => []) (fun _ => []) (fun _ => [])
    fuel searchUrl.

End FixtureHttp.

(** [st'] continues [st] with lightweight, unblocked fetches only. *)
Definition httpOnly (st st' : HttpFirst.RunState) : Prop :=
  exists ev, HttpFirst.trace st' = HttpFirst.trace st ++ ev /\
             Forall unblockedLightweight ev.


(** Documents for the pagination resolver, and a resolver for URLs that
    keeps absolute URLs and puts the site origin before paths. *)
Module FixtureDom.

Import Dom.

Definition newURL (rel base : string) : option string :=
  if startsWith rel "http" then Some rel
  else if startsWith rel "/" then Some (JUSTIA_BASE +:+ rel)
  else None.

Definition anchor (attrs : list (string * string)) (label : string) : node :=
  Elem "a" attrs [Text label].

(** A [rel="next"] link after a "Next" text link. *)
Definition docRelNext : list node :=
  [Elem "div" []
     [anchor [("href", "/lawyers/tax-law/ohio?page=9")] " Next ";
      anchor [("rel", "next"); ("href", "/lawyers/tax-law/ohio?page=2")] "2"]].

Definition docNextText : list node :=
  [Elem "div" []
     [anchor [("href", "/lawyers/tax-law/ohio")] "Ohio";
      anchor [("href", "/lawyers/tax-law/ohio?page=3")] "  NEXT PAGE "]].

Definition docAria : list node :=
  [Elem "nav" []
     [anchor [("aria-label", "Go to next results"); ("href", "/lawyers/tax-law/ohio?page=4")] "»"]].

Definition docNumbers : list node :=
  [Elem "ul" [("class", "list pagination")]
     [Elem "li" [] [anchor [("href", "/lawyers/tax-law/ohio?page=1")] "1"];
      Elem "li" [("class", "active")] [Elem "span" [] [Text " 2 "]];
      Elem "li" [] [anchor [("href", "/lawyers/tax-law/ohio?page=3")] "3"]]].

Definition docPlain : list node :=
  [Elem "div" [("class", "results")]
     [anchor [("href", "/lawyers/tax-law/ohio/ann-lee")] "Ann Lee"]].

(** [rel] spelled in capitals. *)
Definition docRelUpper : list node :=
  [Elem "div" []
     [anchor [("rel", "NEXT"); ("href", "/lawyers/tax-law/ohio?page=2")] "2"]].

(** A pagination bar of part_002 with a [.selected] marker inside a
    [.pager], which part_001 does not look at. *)
Definition docPager : list node :=
  [Elem "div" [("class", "pager")]
     [Elem "span" [("class", "selected")] [Text "7"];
      anchor [("href", "/lawyers/tax-law/ohio?page=8")] "8"]].

(** Page numbers at 2^53, where adding one changes nothing. *)
Definition docHuge : list node :=
  [Elem "ul" [("class", "pagination")]
     [Elem "li" [("class", "active")] [Text "9007199254740992"];
      Elem "li" [] [anchor [("href", "/lawyers/tax-law/ohio?page=big")]
                          "9007199254740992"]]].

End FixtureDom.

(** JSON-LD blocks; the fixture's [JSONparse] knows these script texts
    (written with apostrophes for the quotes) and rejects any other. *)
Module FixtureLd.

Import JsonLd.

Definition newURL (v : json) (base : string) : option string :=
  match v with
  | JStr s => FixtureDom.newURL s base
  | _ => None
  end.

Definition attorney : json :=
  JObj [("@type", JStr "Attorney"); ("name", JStr "Ann Lee");
        ("url", JStr "/lawyers/nevada/ann-lee"); ("telephone", JStr "555-0100")].

Definition itemList : json :=
  JObj [("@type", JStr "ItemList");
        ("itemListElement",
         JArr [JObj [("@type", JStr "ListItem"); ("position", JNum 1);
                     ("item", attorney)]])].

(** [@type] is a number. *)
Definition numericType : json :=
  JObj [("@type", JNum 5); ("name", JStr "Ann Lee")].

(** A [null] element in an item list. *)
Definition nullListItem : json :=
  JObj [("@type", JStr "ItemList"); ("itemListElement", JArr [JNull])].

(** [@graph] is an object, not an array. *)
Definition objectGraph : json :=
  JObj [("@graph", JObj [("@type", JStr "Person"); ("name", JStr "Ann Lee")])].

(** A person whose [knowsAbout] holds an object with a property
    [toString]. *)
Definition unprintable : json :=
  JObj [("@type", JStr "Person"); ("name", JStr "Bo Ito");
        ("knowsAbout", JArr [JObj [("toString", JNum 1)]])].

Definition JSONparse (text : string) : option json :=
  if String.eqb text "{'@type':'Attorney','name':'Ann Lee','url':'/lawyers/nevada/ann-lee','telephone':'555-0100'}"
  then Some attorney
  else if String.eqb text "{'@type':5,'name':'Ann Lee'}" then Some numericType
  else if String.eqb text "{'@type':'ItemList','itemListElement':[null]}"
  then Some nullListItem
  else if String.eqb text "{'@graph':{'@type':'Person','name':'Ann Lee'}}"
  then Some objectGraph
  else None.

Definition now : string := "2024-01-01T00:00:00.000Z".

End FixtureLd.

(** An object graph that points back to itself: the root holds itself and
    an array of three items, one of them the root again and one without
    name or URL. *)
Module FixtureGraph.

Import Walk.

Definition heap : gmap loc container :=
  list_to_map
    [ (1%positive, CObj [("self", VRef 1%positive); ("lawyers", VRef 2%positive)]);
      (2%positive, CArr [VRef 3%positive; VRef 1%positive; VRef 4%positive]);
      (3%positive, CObj [("name", VStr "Ann Lee"); ("url", VStr "/lawyers/nevada/ann-lee")]);
      (4%positive, CObj [("phone", VStr "555-0100")]) ].

Definition selfLoop : gmap loc container :=
  {[ 1%positive := CObj [("self", VRef 1%positive)] ]}.

(** The same data without the back references, and the height of its
    nodes. *)
Definition tree : gmap loc container :=
  list_to_map
    [ (1%positive, CObj [("lawyers", VRef 2%positive)]);
      (2%positive, CArr [VRef 3%positive; VRef 4%positive]);
      (3%positive, CObj [("name", VStr "Ann Lee"); ("url", VStr "/lawyers/nevada/ann-lee")]);
      (4%positive, CObj [("phone", VStr "555-0100")]) ].

Definition rank (l : loc) : nat :=
  match l with
  | 1%positive => 2
  | 2%positive => 1
  | _ => 0
  end.

(** [{"results": ["abc"]}]: an array whose element is a string. *)
Definition strings : gmap loc container :=
  list_to_map
    [ (1%positive, CObj [("results", VRef 2%positive)]);
      (2%positive, CArr [VStr "abc"]) ].

(** [{"profiles": [{"name": "Ann Lee", "url": "/lawyers/nevada/ann-lee"}]}] *)
Definition profiles : gmap loc container :=
  list_to_map
    [ (1%positive, CObj [("profiles", VRef 2%positive)]);
      (2%positive, CArr [VRef 3%positive]);
      (3%positive, CObj [("name", VStr "Ann Lee"); ("url", VStr "/lawyers/nevada/ann-lee")]) ].

(** [{"results": [{"name": {"toString": 1}}]}]: a name that cannot be
    turned into a string. *)
Definition unprintable : gmap loc container :=
  list_to_map
    [ (1%positive, CObj [("results", VRef 2%positive)]);
      (2%positive, CArr [VRef 3%positive]);
      (3%positive, CObj [("name", VRef 4%positive)]);
      (4%positive, CObj [("toString", VNum 1)]) ].

(** [{"results": [{"name": "Bo Ito", "practiceAreas": [{"toString": 1}]}]}]:
    practice areas that cannot be joined. *)
Definition unjoinable : gmap loc container :=
  list_to_map
    [ (1%positive, CObj [("results", VRef 2%positive)]);
      (2%positive, CArr [VRef 3%positive]);
      (3%positive, CObj [("name", VStr "Bo Ito"); ("practiceAreas", VRef 4%positive)]);
      (4%positive, CArr [VRef 5%positive]);
      (5%positive, CObj [("toString", VNum 1)]) ].

Section Conversions.

Variable h : gmap loc container.

(** [String(v)].  An object of parsed JSON answers [[object Object]]
    unless it has an own property [toString], which is then no function
    and makes the conversion throw; an array answers with its [join(',')],
    in which [null], [undefined] and an array that is being joined already
    read as the empty string.  [joining] is the arrays being joined, [fuel]
    bounds the nesting. *)
Fixpoint toStringIn (fuel : nat) (joining : list loc) (v : value) : option string :=
  match v with
  | VUndefined => Some "undefined"
  | VNull => Some "null"
  | VBool b => Some (if b then "true" else "false")
  | VNum n => Some (pretty n)
  | VStr s => Some s
  | VFun name => Some ("function " +:+ name +:+ "() { [native code] }")
  | VRef l =>
      match h !! l with
      | Some (CArr items) =>
          if bool_decide (l ∈ joining) then Some ""
          else
            match fuel with
            | O => None
            | S fuel' =>
                strs ← mapM (fun item =>
                               match item with
                               | VUndefined | VNull => Some ""
                               | _ => toStringIn fuel' (l :: joining) item
                               end) items;
                Some (JsonLd.joinStrings "," strs)
            end
      | Some (CObj props) =>
          if existsb (fun kv => String.eqb kv.1 "toString") props then None
          else Some "[object Object]"
      | None => Some "[object Object]"
      end
  end.

Definition toString (v : value) : option string :=
  toStringIn (S (size h)) [] v.

(** [items.join(', ')] *)
Definition joinComma (items : list value) : option string :=
  strs ← mapM (fun item =>
                 match item with
                 | VUndefined | VNull => Some ""
                 | _ => toString item
                 end) items;
  Some (JsonLd.joinStrings ", " strs).

(** What the URL parser writes for a character of a path. *)
Fixpoint encodePath (s : string) : string :=
  match s with
  | "" => ""
  | String c rest =>
      (if Ascii.eqb c " " then "%20"
       else if Ascii.eqb c "{" then "%7B"
       else if Ascii.eqb c "}" then "%7D"
       else String c "") +:+ encodePath rest
  end.

(** [base] up to its last "/". *)
Fixpoint directory (base : string) : string :=
  match base with
  | "" => ""
  | String c rest =>
      if includes rest "/" then String c (directory rest)
      else if Ascii.eqb c "/" then "/" else ""
  end.

(** [new URL(v, base).toString()] for a base without query: an absolute
    URL is kept, a path is put behind the site origin, anything else
    replaces the last segment of the base. *)
Definition newURL (v : value) (base : string) : option string :=
  s ← toString v;
  if startsWith s "http" || startsWith s "/" then FixtureDom.newURL s base
  else Some (directory base +:+ encodePath s).

End Conversions.

(** [pushCandidate] on the nodes of [tree]: the object with a name gives a
    record, the others have no name. *)
Definition candidate (node : value) : Candidate :=
  match node with
  | VRef 3%positive =>
      Found "Ann Lee|https://www.justia.com/lawyers/nevada/ann-lee"
        {| name := VStr "Ann Lee"; firmName := VStr ""; location := VStr "";
           address := VStr ""; phone := VStr ""; email := VStr "";
           website := "https://www.justia.com/lawyers/nevada/ann-lee";
           practiceAreas := VStr ""; description := VStr ""; yearsLicensed := VStr "";
           biography := VNull; education := VNull; barAdmissions := VNull;
           languages := VNull; scrapedAt := FixtureLd.now |}
  | _ => Skipped
  end.

End FixtureGraph.

(** ** Enrichment (src/main.js lines 481-587) *)

Module Enrich.

(** What the cheerio queries of [enrichProfileWithDetailsHttp] read from the
    detail page, each text already trimmed; a missing attribute reads as
    the empty string.  [ldLawyers] is the result of
    [extractLawyersFromJsonLdHtml] on the page, [None] when it throws. *)
Record DetailPage := mkPage {
  mailtoHref : string;
  emailText : string;
  biographyText : string;
  educationTexts : list string;
  admissionTexts : list string;
  languageTexts : list string;
  practiceTexts : list string;
  firmText : string;
  telText : string;
  telHref : string;
  telephoneText : string;
  street : string;
  locality : string;
  region : string;
  postal : string;
  locationText : string;
  licensedYears : option string;
  ldLawyers : option (list Lawyer)
}.

(** [a || b] where [a] is [null] or a string. *)
Definition orNullable (a b : option string) : option string :=
  match a with
  | Some s => if falsy s then b else Some s
  | None => b
  end.

(** [a || b] where [a] is [null], [undefined] or an array: every array is
    truthy. *)
Definition orArray (a b : option (list string)) : option (list string) :=
  match a with
  | Some xs => Some xs
  | None => b
  end.

(** [s || null] *)
Definition orNull (s : string) : option string := if falsy s then None else Some s.

(** [xs.join(', ')] *)
Fixpoint joinComma (xs : list string) : string :=
  match xs with
  | [] => ""
  | [x] => x
  | x :: rest => x +:+ ", " +:+ joinComma rest
  end.

(** [[...new Set(pieces)]]: the first occurrence of each piece. *)
Fixpoint distinct (pieces : list string) (seen : gset string) : list string :=
  match pieces with
  | [] => []
  | p :: rest =>
      if bool_decide (p ∈ seen) then distinct rest seen
      else p :: distinct rest ({[p]} ∪ seen)
  end.

(** [xs.filter(Boolean)] *)
Definition nonEmptyStrings (xs : list string) : list string :=
  List.filter (fun t => negb (falsy t)) xs.

(** Lines 519-526. *)
Definition practiceAreasOf (texts : list string) : string :=
  let pieces :=
    List.filter
      (fun t => negb (falsy t) && Nat.ltb 2 (String.length t)
                && Nat.ltb (String.length t) 100)%bool
      texts in
  joinComma (take 10 (distinct pieces ∅)).

(** [ld?.field] for a string field. *)
Definition ldString (ld : option Lawyer) (field : Lawyer -> string) : string :=
  match ld with
  | Some l => field l
  | None => ""
  end.

(** The body of the [try] once the page is loaded (lines 491-582); [None]
    is an exception, which the [catch] turns into [baseData]. *)
Definition merge (page : DetailPage) (baseData : Lawyer) : option Lawyer :=
  let email' := orNull (mailtoHref page |? emailText page) in
  let biography' := orNull (biographyText page) in
  let education' := nonEmptyStrings (educationTexts page) in
  let barAdmissions' := nonEmptyStrings (admissionTexts page) in
  let languages' := nonEmptyStrings (languageTexts page) in
  let practiceAreas' := practiceAreasOf (practiceTexts page) in
  let firmName' := firmText page |? firmName baseData in
  let phone' := telText page |? telHref page |? telephoneText page |? phone baseData in
  let addressParts :=
    nonEmptyStrings [street page; locality page; region page; postal page] in
  let address' := joinComma addressParts |? address baseData in
  let location' :=
    locationText page |? joinComma (nonEmptyStrings [locality page; region page])
    |? location baseData in
  let yearsLicensed' :=
    match licensedYears page with
    | Some years => years
    | None => yearsLicensed baseData
    end in
  match ldLawyers page with
  | None => None
  | Some ldLawyers =>
      let ld := head ldLawyers in
      let mergedPractice :=
        practiceAreas' |? ldString ld practiceAreas |? practiceAreas baseData in
      let mergedAddress := address' |? ldString ld address |? address baseData in
      let mergedLocation := location' |? ldString ld location |? location baseData in
      let mergedPhone := phone' |? ldString ld phone |? phone baseData in
      let mergedEmail :=
        match email' with Some e => e | None => "" end
        |? ldString ld email |? email baseData in
      let mergedFirm := firmName' |? ldString ld firmName |? firmName baseData in
      let mergedDesc :=
        match biography' with Some b => b | None => "" end
        |? ldString ld description |? description baseData in
      Some {| name := name baseData;
              firmName := mergedFirm;
              location := mergedLocation;
              address := mergedAddress;
              phone := mergedPhone;
              email := mergedEmail |? email baseData;
              website := website baseData;
              practiceAreas := mergedPractice;
              description := mergedDesc |? description baseData;
              yearsLicensed := yearsLicensed';
              biography :=
                orNullable biography' (orNullable (ld ≫= biography) (biography baseData));
              education :=
                if nonEmpty education' then Some education'
                else orArray (ld ≫= education) (education baseData);
              barAdmissions :=
                if nonEmpty barAdmissions' then Some barAdmissions'
                else orArray (ld ≫= barAdmissions) (barAdmissions baseData);
              languages :=
                if nonEmpty languages' then Some languages'
                else orArray (ld ≫= languages) (languages baseData);
              scrapedAt := scrapedAt baseData |}
  end.

(** [enrichProfileWithDetailsHttp]: [html] is what [fetchHtmlWithGot]
    returned (the empty string when both attempts failed) and [page] what
    cheerio reads from it. *)
Definition enrichProfileWithDetailsHttp (html : string) (page : DetailPage)
    (baseData : Lawyer) : Lawyer :=
  if falsy html || CheerioBlocking.isBlockedHtml html then baseData
  else match merge page baseData with
       | Some merged => merged
       | None => baseData
       end.

End Enrich.

(** A detail page with nothing to read, and one whose only phone number
    sits in its JSON-LD block. *)
Module FixtureDetail.

Definition blank : Enrich.DetailPage :=
  Enrich.mkPage "" "" "" [] [] [] [] "" "" "" "" "" "" "" "" "" None (Some []).

Definition ldPhoneOnly : Enrich.DetailPage :=
  Enrich.mkPage "" "" "" [] [] [] [] "" "" "" "" "" "" "" "" "" None
    (Some [ {| name := "Ann Lee"; firmName := ""; location := ""; address := "";
               phone := "555-0199"; email := ""; website := ""; practiceAreas := "";
               description := ""; yearsLicensed := ""; biography := None;
               education := None; barAdmissions := None; languages := Some [];
               scrapedAt := "2024-01-01T00:00:00.000Z" |} ]).

Definition base : Lawyer :=
  {| name := "Ann Lee"; firmName := "Lee Law"; location := "Reno, NV";
     address := "1 Main St, Reno, NV"; phone := "555-0100"; email := "ann@lee.law";
     website := "https://www.justia.com/lawyers/nevada/ann-lee";
     practiceAreas := "Tax Law"; description := "Tax attorney"; yearsLicensed := "12";
     biography := None; education := None; barAdmissions := None;
     languages := Some ["English"]; scrapedAt := "2024-01-01T00:00:00.000Z" |}.

End FixtureDetail.

(** ** Input handling: [toSlug] and the start URL (src/main.js lines 35-44, 604-612) *)

Module Input.

Import Dom.

(** [[a-z0-9-]] *)
Definition isSlugChar (c : ascii) : bool :=
  let n := nat_of_ascii c in
  ((Nat.leb 97 n && Nat.leb n 122) || (Nat.leb 48 n && Nat.leb n 57) || Nat.eqb n 45)%bool.

Definition isDash (c : ascii) : bool := Ascii.eqb c "-".

(** [.replace(/\s+/g, '-')]: [inRun] tells that the previous character
    was whitespace. *)
Fixpoint dashSpaces (inRun : bool) (s : string) : string :=
  match s with
  | EmptyString => EmptyString
  | String c s' =>
      if isSpace c then (if inRun then dashSpaces true s' else String "-" (dashSpaces true s'))
      else String c (dashSpaces false s')
  end.

(** [.replace(/[^a-z0-9-]/g, '')] *)
Fixpoint keepSlugChars (s : string) : string :=
  match s with
  | EmptyString => EmptyString
  | String c s' => if isSlugChar c then String c (keepSlugChars s') else keepSlugChars s'
  end.

(** [.replace(/-+/g, '-')]: [afterDash] tells that the previous character
    was a dash. *)
Fixpoint collapseDashes (afterDash : bool) (s : string) : string :=
  match s with
  | EmptyString => EmptyString
  | String c s' =>
      if isDash c then (if afterDash then collapseDashes true s'
                        else String c (collapseDashes true s'))
      else String c (collapseDashes false s')
  end.

Definition stripLeadingDash (s : string) : string :=
  match s with
  | String c s' => if isDash c then s' else s
  | EmptyString => EmptyString
  end.

Fixpoint stripTrailingDash (s : string) : string :=
  match s with
  | EmptyString => EmptyString
  | String c EmptyString => if isDash c then EmptyString else s
  | String c s' => String c (stripTrailingDash s')
  end.

(** [.replace(/^-|-$/g, '')] *)
Definition stripDashes (s : string) : string := stripTrailingDash (stripLeadingDash s).

(** [toSlug(value)] for a string value ([undefined] reads as ['']). *)
Definition toSlug (value : string) : string :=
  stripDashes (collapseDashes false (keepSlugChars (dashSpaces false
    (toLowerCase (trim value))))).

(** What the start-URL block ends in. *)
Inductive StartUrl :=
| Start (searchUrl : string)
| InvalidInput.

(** Lines 604-612; [None] is a missing input field. *)
Definition searchUrl (inputSearchUrl inputPracticeArea inputLocation : option string)
  : StartUrl :=
  let given := default "" inputSearchUrl in
  if negb (falsy given) && negb (falsy (trim given)) then Start (trim given)
  else
    let practiceArea := toSlug (default "" inputPracticeArea) in
    let location := toSlug (default "" inputLocation) in
    if falsy practiceArea || falsy location then InvalidInput
    else Start (JUSTIA_BASE +:+ "/lawyers/" +:+ practiceArea +:+ "/" +:+ location).

(** Every character of [s] satisfies [p]. *)
Fixpoint allChars (p : ascii -> bool) (s : string) : bool :=
  match s with
  | EmptyString => true
  | String c s' => p c && allChars p s'
  end.

(** No dash right after a dash; with [afterDash] set, none in front. *)
Fixpoint noDoubleDash (afterDash : bool) (s : string) : bool :=
  match s with
  | EmptyString => true
  | String c s' =>
      if isDash c then negb afterDash && noDoubleDash true s'
      else noDoubleDash false s'
  end.

Fixpoint endsWithDash (s : string) : bool :=
  match s with
  | EmptyString => false
  | String c EmptyString => isDash c
  | String _ s' => endsWithDash s'
  end.

(** The shape of a slug: lower-case letters, digits and dashes, the dashes
    single and not at either end. *)
Definition wellFormedSlug (s : string) : bool :=
  allChars isSlugChar s && noDoubleDash true s && negb (endsWithDash s).

End Input.

(** ** "De-dupe by website" at the end of the HTML extractor
    (src/main.js lines 400-406, the same filter in every variant) *)

Module HtmlDedup.

Fixpoint lawyers (candidates : list Lawyer) (seen : gset string) : list Lawyer :=
  match candidates with
  | [] => []
  | r :: rest =>
      let key := website r in
      if falsy key || bool_decide (key ∈ seen) then lawyers rest seen
      else r :: lawyers rest ({[key]} ∪ seen)
  end.

End HtmlDedup.

(** The containers a walk can reach from [root]: the root itself, and
    every container referenced from a reachable one. *)
Inductive reachable (h : gmap Walk.loc Walk.container) (root : Walk.value)
  : Walk.loc -> Prop :=
| reach_root l : root = Walk.VRef l -> reachable h root l
| reach_step l l' :
    reachable h root l -> Walk.VRef l' ∈ Walk.values h l -> reachable h root l'.

(** A graph whose only lawyers array hangs below a nested object. *)
Module FixtureNested.

Import Walk.

Definition nested : gmap loc container :=
  list_to_map
    [ (1%positive, CObj [("props", VRef 2%positive); ("build", VStr "a1")]);
      (2%positive, CObj [("results", VRef 3%positive)]);
      (3%positive, CArr [VRef 4%positive]);
      (4%positive, CObj [("fullName", VStr "Ann Lee")]) ].

End FixtureNested.

(** The stored records have pairwise different identity keys, all of them
    in the ledger. *)
Definition ledger_covers (st : Cheerio.RunState) : Prop :=
  NoDup (map dedupKey (Cheerio.dataset st)) /\
  forall k, k ∈ map dedupKey (Cheerio.dataset st) -> k ∈ Cheerio.seenWebsites st.

(** Counting the fetches of a trace. *)
Definition countFetches (p : FetchEvent -> bool) (tr : list FetchEvent) : nat :=
  length (List.filter p tr).

Definition lightweightListing (e : FetchEvent) : bool :=
  match fetchMode e, fetchPurpose e with
  | Lightweight, Listing => true
  | _, _ => false
  end.

Definition renderedFetch (e : FetchEvent) : bool :=
  match fetchMode e with Rendered => true | Lightweight => false end.

Definition detailFetch (e : FetchEvent) : bool :=
  match fetchPurpose e with Detail => true | _ => false end.

(** ** JSON-LD: the items of a block, the entity types, and nesting *)

(** [Array.isArray(data) ? data : data['@graph'] || [data]], then the
    values the [for ... of] loop draws from it (src/main.js line 185). *)
Definition itemsOf (data : JsonLd.json) : JsonLd.result (list JsonLd.json) :=
  if JsonLd.isArray data then JsonLd.iterate data
  else JsonLd.bind (JsonLd.get data "@graph")
         (fun graph => JsonLd.iterate (JsonLd.or graph (JsonLd.JArr [data]))).

(** [type.includes(s)] for a [type] that has the method. *)
Definition hasType (type : JsonLd.json) (s : string) : bool :=
  match type with
  | JsonLd.JStr t => includes t s
  | JsonLd.JArr items => existsb (fun v => JsonLd.isStr v s) items
  | _ => false
  end.

Definition lawyerTypes : list string :=
  ["Attorney"; "Lawyer"; "Person"; "LegalService"; "Organization"].

(** No object in the value has an own property [toString]: such a
    value can be turned into a string. *)
Fixpoint printable (v : JsonLd.json) : bool :=
  match v with
  | JsonLd.JArr items => forallb printable items
  | JsonLd.JObj props =>
      negb (JsonLd.hasKey "toString" props) && forallb (fun p => printable (snd p)) props
  | _ => true
  end.

(** How deep arrays and objects are nested in a value. *)
Fixpoint jsonDepth (v : JsonLd.json) : nat :=
  match v with
  | JsonLd.JArr items => S (list_max (map jsonDepth items))
  | JsonLd.JObj props => S (list_max (map (fun p => jsonDepth (snd p)) props))
  | _ => 0
  end.


(** ** Facts about the string primitives *)

Section StringFacts.

Lemma startsWith_spec (s p : string) :
  startsWith s p = true <-> exists post, s = p +:+ post.
Proof.
  revert s; induction p as [|a p IH]; intros s; simpl.
  - split; [intros _; exists s; reflexivity | reflexivity].
  - destruct s as [|b s]; simpl.
    + split; [discriminate | intros [post H]; discriminate].
    + rewrite andb_true_iff, IH. split.
      * intros [Hab [post ->]]. apply Ascii.eqb_eq in Hab as ->. eauto.
      * intros [post H]. injection H as -> ->. split; [apply Ascii.eqb_refl | eauto].
Qed.

Lemma includes_spec (s sub : string) :
  includes s sub = true <-> contains s sub.
Proof.
  unfold contains. induction s as [|c s IH]; simpl.
  - rewrite orb_false_r, startsWith_spec. split.
    + intros [post H]. exists "", post. exact H.
    + intros [pre [post H]]. destruct pre; simpl in H; [eauto | discriminate].
  - rewrite orb_true_iff, startsWith_spec, IH. split.
    + intros [[post H] | [pre [post H]]].
      * exists "", post. exact H.
      * exists (String c pre), post. simpl. now rewrite H.
    + intros [pre [post H]]. destruct pre as [|c' pre]; simpl in H.
      * left. eauto.
      * right. injection H as _ ->. eauto.
Qed.

Lemma falsy_spec (s : string) : falsy s = true <-> s = "".
Proof. destruct s; simpl; split; congruence. Qed.

Lemma includes_empty (sub : string) :
  includes "" sub = true -> sub = "".
Proof. simpl. rewrite orb_false_r. destruct sub; [reflexivity | discriminate]. Qed.

Lemma slice0_nil (n : nat) : slice0 n "" = "".
Proof. now destruct n. Qed.

Lemma slice0_empty (n : nat) (s : string) :
  (0 < n)%nat -> slice0 n s = "" -> s = "".
Proof. destruct n; [lia|]. destruct s; [reflexivity | discriminate]. Qed.

End StringFacts.

(** ** Blocking detector: properties *)

Section BlockingFacts.

Lemma slice0_spaces_app (n : nat) (t : string) :
  slice0 n (spaces n +:+ t) = spaces n.
Proof.
  induction n as [|n IH]; simpl; [now destruct t | now rewrite IH].
Qed.

Lemma toLowerCase_spaces_app (n : nat) (t : string) :
  toLowerCase (spaces n +:+ t) = spaces n +:+ toLowerCase t.
Proof. induction n as [|n IH]; simpl; [reflexivity | now rewrite IH]. Qed.

Lemma includes_spaces_app (n : nat) (t : string) (c : ascii) (sub : string) :
  Ascii.eqb c " " = false ->
  includes (spaces n +:+ t) (String c sub) = includes t (String c sub).
Proof.
  intros Hc. induction n as [|n IH]; [reflexivity|].
  change (spaces (S n) +:+ t) with (String " " (spaces n +:+ t)).
  cbn [includes startsWith]. now rewrite Hc, IH.
Qed.

Lemma falsy_spaces_app (n : nat) (c : ascii) (t : string) :
  falsy (spaces n +:+ String c t) = false.
Proof. destruct n; reflexivity. Qed.

Lemma cheerio_isBlockedHtml_padded (n : nat) (c : ascii) (t : string) :
  CheerioBlocking.isBlockedHtml (spaces n +:+ String c t)
  = CheerioBlocking.isBlockedHtml (String c t).
Proof.
  unfold CheerioBlocking.isBlockedHtml.
  rewrite falsy_spaces_app, toLowerCase_spaces_app.
  cbn [falsy]. now rewrite !includes_spaces_app by reflexivity.
Qed.

Lemma contains_empty_inv (p : string) : contains "" p -> p = "".
Proof. intros H. apply includes_spec in H. now apply includes_empty. Qed.

End BlockingFacts.

(** C4 (as stated, on src/main.js): the detector of main.js is not bounded
    by any prefix length, and its caller does not treat status 429 as
    blocked. *)
Lemma c4_cheerio_detector_unbounded :
  (~ exists n, prefix_bounded n CheerioBlocking.isBlockedHtml) /\
  CheerioBlocking.blocked "<html>ok</html>" 429 = false.
Proof.
  split; [|reflexivity].
  intros [n H].
  specialize (H (spaces n +:+ "access denied") (spaces n +:+ "x")).
  rewrite !slice0_spaces_app, !cheerio_isBlockedHtml_padded in H.
  specialize (H eq_refl). vm_compute in H. discriminate.
Qed.

(** C4 (amended): in part_001 a fetch result is blocked exactly when the
    status is 403, 429 or 503 or the lowercased first 5000 characters of
    the body contain one of four phrases, and the verdict depends on that
    prefix only; in src/main.js it is blocked exactly when the status is
    403 or the whole lowercased body contains one of five phrases. *)
Theorem c4_blocking_detector :
  (forall body status,
      HttpFirstBlocking.blocked body status = true <->
      (status = 403 \/ status = 429 \/ status = 503) \/
      exists p, p ∈ HttpFirstBlocking.phrases /\
                contains (toLowerCase (slice0 5000 body)) p) /\
  prefix_bounded 5000 HttpFirstBlocking.isBlockedHtml /\
  (forall body status,
      CheerioBlocking.blocked body status = true <->
      status = 403 \/
      exists p, p ∈ CheerioBlocking.phrases /\ contains (toLowerCase body) p).
Proof.
  split; [|split].
  - intros body status. unfold HttpFirstBlocking.blocked, HttpFirstBlocking.isBlockedHtml.
    rewrite !orb_true_iff, !Z.eqb_eq.
    destruct (falsy body) eqn:Hf.
    + apply falsy_spec in Hf as ->. split.
      * intros [[[H|H]|H]|H]; try discriminate; auto.
      * intros [H | (p & Hp & Hc)]; [tauto|].
        apply contains_empty_inv in Hc as ->.
        unfold HttpFirstBlocking.phrases in Hp. exfalso.
        repeat (apply elem_of_cons in Hp as [Hp | Hp]; [discriminate|]).
        now apply elem_of_nil in Hp.
    + rewrite !orb_true_iff, !includes_spec. split.
      * intros [[[[[[H|H]|H]|H]|H]|H]|H]; auto;
          right; eexists; (split; [|exact H]);
          unfold HttpFirstBlocking.phrases; set_solver.
      * intros [H | (p & Hp & Hc)]; [tauto|].
        unfold HttpFirstBlocking.phrases in Hp.
        repeat (apply elem_of_cons in Hp as [-> | Hp]); [tauto..|].
        now apply elem_of_nil in Hp.
  - intros b1 b2 Heq. unfold HttpFirstBlocking.isBlockedHtml.
    destruct (falsy b1) eqn:H1, (falsy b2) eqn:H2.
    + reflexivity.
    + apply falsy_spec in H1 as ->. rewrite slice0_nil in Heq. symmetry in Heq.
      apply slice0_empty in Heq; [|lia]. subst. discriminate.
    + apply falsy_spec in H2 as ->. rewrite slice0_nil in Heq.
      apply slice0_empty in Heq; [|lia]. subst. discriminate.
    + now rewrite Heq.
  - intros body status. unfold CheerioBlocking.blocked, CheerioBlocking.isBlockedHtml.
    rewrite !orb_true_iff, !Z.eqb_eq.
    destruct (falsy body) eqn:Hf.
    + apply falsy_spec in Hf as ->. split.
      * intros [H|H]; [auto | discriminate].
      * intros [H | (p & Hp & Hc)]; [tauto|].
        apply contains_empty_inv in Hc as ->.
        unfold CheerioBlocking.phrases in Hp. exfalso.
        repeat (apply elem_of_cons in Hp as [Hp | Hp]; [discriminate|]).
        now apply elem_of_nil in Hp.
    + rewrite !orb_true_iff, !includes_spec. split.
      * intros [H|[[[[H|H]|H]|H]|H]]; auto;
          right; eexists; (split; [|exact H]);
          unfold CheerioBlocking.phrases; set_solver.
      * intros [H | (p & Hp & Hc)]; [tauto|].
        unfold CheerioBlocking.phrases in Hp.
        repeat (apply elem_of_cons in Hp as [-> | Hp]); [tauto..|].
        now apply elem_of_nil in Hp.
Qed.

(** A page with a challenge phrase in its first 5000 characters, a page
    with the phrase beyond them, and a plain 429. *)
Lemma c4_blocking_detector_witness :
  HttpFirstBlocking.blocked "<title>Just a moment...</title>" 200 = true /\
  HttpFirstBlocking.isBlockedHtml (spaces 5000 +:+ "cloudflare")
  = HttpFirstBlocking.isBlockedHtml (spaces 5000 +:+ "<p>hello</p>") /\
  HttpFirstBlocking.blocked "" 429 = true.
Proof.
  destruct c4_blocking_detector as (Hiff & Hpre & _).
  split; [|split].
  - apply Hiff. right. exists "just a moment". split.
    + unfold HttpFirstBlocking.phrases. constructor.
    + apply includes_spec. vm_compute. reflexivity.
  - apply Hpre. vm_compute. reflexivity.
  - apply Hiff. left. right. left. reflexivity.
Defined.

(** ** The dedup filter of src/main.js *)

Section FilterLoopFacts.

Variable maxLawyers : Z.

Lemma filterLoop_acc lawyers seen total unique :
  Cheerio.filterLoop maxLawyers lawyers seen total unique =
  let '(a, s, t) := Cheerio.filterLoop maxLawyers lawyers seen total [] in (unique ++ a, s, t).
Proof.
  revert seen total unique.
  induction lawyers as [|l rest IH]; intros seen total unique; simpl.
  - now rewrite app_nil_r.
  - case_bool_decide; [apply IH|].
    destruct (limitReached maxLawyers total); [now rewrite app_nil_r|].
    rewrite IH. rewrite (IH _ _ ([] ++ [l])).
    destruct (Cheerio.filterLoop maxLawyers rest _ _ []) as [[a s] t]. simpl.
    now rewrite <- app_assoc.
Qed.

Lemma filterLoop_spec lawyers seen total :
  let '(a, s, t) := Cheerio.filterLoop maxLawyers lawyers seen total [] in
  t = total + Z.of_nat (length a) /\
  s = list_to_set (map dedupKey a) ∪ seen /\
  NoDup (map dedupKey a) /\
  (forall l, l ∈ a -> l ∈ lawyers /\ dedupKey l ∉ seen) /\
  (0 < maxLawyers -> total <= maxLawyers -> t <= maxLawyers).
Proof.
  revert seen total.
  induction lawyers as [|l rest IH]; intros seen total; simpl.
  - repeat split; try set_solver; try constructor; simpl; lia.
  - case_bool_decide as Hin.
    + specialize (IH seen total).
      destruct (Cheerio.filterLoop maxLawyers rest seen total []) as [[a s] t].
      destruct IH as (Ht & Hs & Hnd & Hmem & Hle).
      repeat split; auto; apply Hmem in H; set_solver.
    + destruct (limitReached maxLawyers total) eqn:Hlim.
      * repeat split; try set_solver; try constructor; simpl; lia.
      * rewrite filterLoop_acc.
        specialize (IH ({[dedupKey l]} ∪ seen) (total + 1)).
        destruct (Cheerio.filterLoop maxLawyers rest _ _ []) as [[a s] t].
        destruct IH as (Ht & Hs & Hnd & Hmem & Hle).
        simpl. repeat split.
        -- rewrite Ht. lia.
        -- rewrite Hs. set_solver.
        -- constructor; [|exact Hnd].
           intros Hk. apply list_elem_of_fmap in Hk as (l' & Hk & Hl').
           apply Hmem in Hl' as [_ Hl']. set_solver.
        -- apply elem_of_cons in H as [-> | H]; [set_solver|].
           apply Hmem in H. set_solver.
        -- apply elem_of_cons in H as [-> | H]; [exact Hin|].
           apply Hmem in H. set_solver.
        -- intros Hpos Htot. apply Hle; [exact Hpos|].
           unfold limitReached in Hlim.
           apply andb_false_iff in Hlim as [Hlim|Hlim]; lia.
Qed.

(** Once the budget is reached the loop admits nothing more. *)
Lemma filterLoop_exhausted lawyers seen total unique :
  limitReached maxLawyers total = true ->
  Cheerio.filterLoop maxLawyers lawyers seen total unique = (unique, seen, total).
Proof.
  intros Hlim. induction lawyers as [|l rest IH]; simpl; [reflexivity|].
  case_bool_decide; [exact IH|]. now rewrite Hlim.
Qed.

End FilterLoopFacts.

(** ** The CheerioCrawler handler: extraction and the dedup filter *)

Section CheerioFacts.

Variable maxLawyers maxPages : Z.
Variable fetchFullProfiles : bool.
Variable extractLawyersFromJsonLdHtml : string -> string -> list Lawyer.
Variable extractLawyersFromNextData : string -> string -> list Lawyer.
Variable extractListingViaHtml : string -> string -> list Lawyer.
Variable findNextPageUrl : string -> string -> string.
Variable enrichProfileWithDetailsHttp : string -> Lawyer -> Lawyer.
Variable fetch : string -> Response.

Abbreviation extractAll :=
  (Cheerio.extractAll extractLawyersFromJsonLdHtml extractLawyersFromNextData
                      extractListingViaHtml).
Abbreviation filterLoop := (Cheerio.filterLoop maxLawyers).
Abbreviation requestHandler :=
  (Cheerio.requestHandler maxLawyers maxPages fetchFullProfiles
     extractLawyersFromJsonLdHtml extractLawyersFromNextData extractListingViaHtml
     findNextPageUrl enrichProfileWithDetailsHttp).
Abbreviation crawl :=
  (Cheerio.crawl maxLawyers maxPages fetchFullProfiles
     extractLawyersFromJsonLdHtml extractLawyersFromNextData extractListingViaHtml
     findNextPageUrl enrichProfileWithDetailsHttp fetch).

Lemma nonEmpty_app_if {A} (acc l : list A) :
  (if nonEmpty l then acc ++ l else acc) = acc ++ l.
Proof using Type. destruct l; simpl; [now rewrite app_nil_r | reflexivity]. Qed.

Lemma extractAll_concat (htmlSnapshot pageUrl : string) :
  extractAll htmlSnapshot pageUrl =
  if falsy htmlSnapshot then []
  else extractLawyersFromJsonLdHtml htmlSnapshot pageUrl
       ++ extractLawyersFromNextData htmlSnapshot pageUrl
       ++ extractListingViaHtml htmlSnapshot pageUrl.
Proof using Type.
  unfold Cheerio.extractAll. destruct (falsy htmlSnapshot); [reflexivity|].
  rewrite !nonEmpty_app_if. now rewrite app_nil_l, app_assoc.
Qed.

Lemma enrichAll_length unique :
  length (Cheerio.enrichAll fetchFullProfiles enrichProfileWithDetailsHttp unique)
  = length unique.
Proof using Type. unfold Cheerio.enrichAll. destruct fetchFullProfiles; [apply length_map | reflexivity]. Qed.

Lemma requestHandler_inv st request response :
  requestHandler st request response = Cheerio.Throw \/
  exists unique seen total,
    Cheerio.filterLoop maxLawyers (extractAll (body response) (url request))
      (Cheerio.seenWebsites st) (Cheerio.totalScraped st) [] = (unique, seen, total) /\
    requestHandler st request response =
    Cheerio.Return
      (Cheerio.mkState seen total (Cheerio.pagesProcessed st + 1)
         (Cheerio.dataset st
          ++ Cheerio.enrichAll fetchFullProfiles enrichProfileWithDetailsHttp unique))
      (nextRequest maxLawyers maxPages total (Cheerio.pagesProcessed st + 1)
         (findNextPageUrl (body response)) (url request)).
Proof using Type.
  unfold Cheerio.requestHandler.
  destruct (_ && _); [left; reflexivity | right].
  destruct (Cheerio.filterLoop _ _ _ _ _) as [[unique seen] total].
  exists unique, seen, total. split; reflexivity.
Qed.

Lemma requestHandler_budget st request response st' enq :
  within_budget maxLawyers st ->
  requestHandler st request response = Cheerio.Return st' enq ->
  within_budget maxLawyers st'.
Proof using Type.
  intros [Hcount Hle] Hret.
  destruct (requestHandler_inv st request response) as [Hthrow | (u & s & t & Hloop & Heq)];
    [congruence|].
  rewrite Heq in Hret. injection Hret as <- _.
  pose proof (filterLoop_spec maxLawyers (extractAll (body response) (url request))
                (Cheerio.seenWebsites st) (Cheerio.totalScraped st)) as Hspec.
  rewrite Hloop in Hspec. destruct Hspec as (Ht & _ & _ & _ & Hbound).
  split; simpl.
  - rewrite length_app, enrichAll_length. lia.
  - auto.
Qed.

Lemma requestHandler_stops st request response st' enq :
  requestHandler st request response = Cheerio.Return st' enq ->
  limitReached maxLawyers (Cheerio.totalScraped st') = true ->
  enq = None.
Proof using Type.
  intros Hret Hlim.
  destruct (requestHandler_inv st request response) as [Hthrow | (u & s & t & Hloop & Heq)];
    [congruence|].
  rewrite Heq in Hret. injection Hret as <- <-. simpl in Hlim.
  unfold nextRequest. now rewrite Hlim.
Qed.

Lemma crawl_budget fuel : forall st request handled queued trace,
  within_budget maxLawyers st ->
  within_budget maxLawyers (crawl fuel st request handled queued trace).1.
Proof using Type.
  induction fuel as [|fuel IH]; intros st request handled queued trace Hinv; simpl;
    [exact Hinv|].
  destruct (limitReached maxPages handled); [exact Hinv|].
  destruct (requestHandler st request (fetch (url request))) as [|st' [next|]] eqn:Hh.
  - destruct (retryCount request <? Cheerio.maxRequestRetries); [apply IH|]; exact Hinv.
  - apply requestHandler_budget in Hh; [|exact Hinv].
    case_bool_decide; [exact Hh | now apply IH].
  - now apply requestHandler_budget in Hh.
Qed.

(** A handler that adds no request ends the crawl with this page. *)
Lemma crawl_last_page fuel st request handled queued trace st' :
  limitReached maxPages handled = false ->
  requestHandler st request (fetch (url request)) = Cheerio.Return st' None ->
  crawl (S fuel) st request handled queued trace =
  (st', trace ++ [mkFetch Lightweight Listing (url request)
                    ((statusCode (fetch (url request)) =? 403)
                     || CheerioBlocking.isBlockedHtml (body (fetch (url request))))]).
Proof using Type. intros Hlim Hh. simpl. now rewrite Hlim, Hh. Qed.

Lemma crawl_lightweight fuel : forall st request handled queued trace,
  Forall (fun e => fetchMode e = Lightweight) trace ->
  Forall (fun e => fetchMode e = Lightweight)
         (crawl fuel st request handled queued trace).2.
Proof using Type.
  induction fuel as [|fuel IH]; intros st request handled queued trace Htr; simpl;
    [exact Htr|].
  destruct (limitReached maxPages handled); [exact Htr|].
  match goal with |- context [trace ++ [?ev]] =>
    assert (Forall (fun e0 => fetchMode e0 = Lightweight) (trace ++ [ev])) as Htr'
      by (apply Forall_app; split; [exact Htr | repeat constructor]) end.
  destruct (requestHandler st request (fetch (url request))) as [|st' [next|]].
  - destruct (retryCount request <? Cheerio.maxRequestRetries); [now apply IH | exact Htr'].
  - case_bool_decide; [exact Htr' | now apply IH].
  - exact Htr'.
Qed.

Lemma requestHandler_blocked_throws st request response :
  ((statusCode response =? 403) || CheerioBlocking.isBlockedHtml (body response)) = true ->
  retryCount request < 2 ->
  requestHandler st request response = Cheerio.Throw.
Proof using Type.
  intros Hb Hr. unfold Cheerio.requestHandler. rewrite Hb.
  replace (retryCount request <? 2) with true by (symmetry; apply Z.ltb_lt; lia).
  reflexivity.
Qed.

End CheerioFacts.

(** ** The composite identity key *)

Section CompositeKey.

Lemma noBar_cons (c : ascii) (s : string) :
  noBar (String c s) = true -> c <> "|"%char /\ noBar s = true.
Proof.
  unfold noBar. cbn [includes startsWith].
  rewrite !negb_true_iff, orb_false_iff, andb_true_r.
  intros [Hc Hs]. split; [|exact Hs].
  intros ->. discriminate.
Qed.

Lemma bar_split (n1 n2 r1 r2 : string) :
  noBar n1 = true -> noBar n2 = true ->
  n1 +:+ "|" +:+ r1 = n2 +:+ "|" +:+ r2 -> n1 = n2 /\ r1 = r2.
Proof.
  revert n2. induction n1 as [|c n1 IH]; intros [|c' n2] H1 H2 Heq;
    cbn [String.app String.append] in Heq.
  - injection Heq as Heq. auto.
  - injection Heq as Hc _. apply noBar_cons in H2 as [H2 _]. congruence.
  - injection Heq as Hc _. apply noBar_cons in H1 as [H1 _]. congruence.
  - injection Heq as -> Heq.
    apply noBar_cons in H1 as [_ H1]. apply noBar_cons in H2 as [_ H2].
    destruct (IH n2 H1 H2 Heq) as [-> ->]. auto.
Qed.

Lemma composite_inj (a b : Lawyer) :
  noBar (name a) = true -> noBar (location a) = true ->
  noBar (name b) = true -> noBar (location b) = true ->
  composite a = composite b ->
  name a = name b /\ location a = location b /\ firmName a = firmName b.
Proof.
  unfold composite. intros Hna Hla Hnb Hlb Heq.
  apply bar_split in Heq as [Hn Heq]; [|assumption..].
  apply bar_split in Heq as [Hl Hf]; [|assumption..].
  auto.
Qed.

Lemma dedupKey_cases (l : Lawyer) :
  dedupKey l = if falsy (website l) then composite l else website l.
Proof. reflexivity. Qed.

End CompositeKey.

(** ** Browser and HTTP-first cascades *)

Section CascadeFacts.

Variable Json : Type.
Variable safeJsonParse : string -> option Json.
Variable extractLawyersFromJsonLd : Json -> string -> list Lawyer.
Variable extractListingViaHtml : string -> string -> list Lawyer.

Lemma camoufoxCascade_first_nonempty jsonLdScripts html requestUrl :
  let ld := Browser.jsonLdStep Json safeJsonParse extractLawyersFromJsonLd jsonLdScripts requestUrl in
  Browser.camoufoxCascade Json safeJsonParse extractLawyersFromJsonLd extractListingViaHtml
    jsonLdScripts html requestUrl
  = if nonEmpty ld then ld else extractListingViaHtml html requestUrl.
Proof. unfold Browser.camoufoxCascade. cbv zeta. now destruct (nonEmpty _). Qed.

Lemma browserFirstCascade_first_nonempty embeddedJson jsonLdScripts html requestUrl :
  let ld := Browser.jsonLdStep Json safeJsonParse extractLawyersFromJsonLd jsonLdScripts requestUrl in
  Browser.browserFirstCascade Json safeJsonParse extractLawyersFromJsonLd extractListingViaHtml
    embeddedJson jsonLdScripts html requestUrl
  = if nonEmpty ld then ld
    else if nonEmpty embeddedJson then embeddedJson
    else extractListingViaHtml html requestUrl.
Proof.
  unfold Browser.browserFirstCascade. cbv zeta.
  destruct (nonEmpty (Browser.jsonLdStep _ _ _ _ _)) eqn:Hld; simpl; [now rewrite Hld|].
  now destruct (nonEmpty embeddedJson).
Qed.

End CascadeFacts.

Section HttpCascadeFacts.

Variable fetchHttp : string -> HttpFirst.HttpResult.
Variable Json : Type.
Variable safeJsonParse : string -> option Json.
Variable extractLawyersFromJsonObject : Json -> string -> list Lawyer.
Variable tryExtractApiUrlFromHtml : string -> string -> string.
Variable extractListingViaEmbeddedJson : string -> string -> list Lawyer.
Variable extractListingViaHtml : string -> string -> list Lawyer.

Abbreviation extractListingViaJsonApi :=
  (HttpFirst.extractListingViaJsonApi fetchHttp Json safeJsonParse
     extractLawyersFromJsonObject tryExtractApiUrlFromHtml).
Abbreviation cascade :=
  (HttpFirst.cascade fetchHttp Json safeJsonParse extractLawyersFromJsonObject
     tryExtractApiUrlFromHtml extractListingViaEmbeddedJson extractListingViaHtml).

Lemma cascade_first_nonempty st r :
  let api := (extractListingViaJsonApi st (HttpFirst.r_url r) (HttpFirst.r_body r)).1.2 in
  let emb := extractListingViaEmbeddedJson (HttpFirst.r_body r) (HttpFirst.r_url r) in
  (cascade st r).2 =
  if nonEmpty api then api
  else if nonEmpty emb then emb
  else extractListingViaHtml (HttpFirst.r_body r) (HttpFirst.r_url r).
Proof.
  unfold HttpFirst.cascade. cbv zeta.
  destruct (HttpFirst.extractListingViaJsonApi _ _ _ _ _ _ _ _) as [[st1 api] tried].
  simpl. destruct (nonEmpty api) eqn:Hapi; simpl.
  - now rewrite Hapi.
  - now destruct (nonEmpty (extractListingViaEmbeddedJson _ _)).
Qed.

End HttpCascadeFacts.

(** C1 (as stated, on src/main.js lines 703-724): on a page with a JSON-LD
    block and profile cards the handler keeps the records of both. *)
Lemma c1_cheerio_keeps_both :
  Cheerio.extractAll Fixture.extractLawyersFromJsonLdHtml Fixture.extractLawyersFromNextData
    Fixture.extractListingViaHtml "<html>both</html>" Fixture.pageBoth
  = [Fixture.ldRecord; Fixture.htmlRecord] /\
  Fixture.extractLawyersFromJsonLdHtml "<html>both</html>" Fixture.pageBoth
  = [Fixture.ldRecord] /\
  Cheerio.dataset (Fixture.cheerioRun 50 5 10 Fixture.pageBoth).1
  <> Fixture.extractLawyersFromJsonLdHtml "<html>both</html>" Fixture.pageBoth.
Proof. split; [|split]; [reflexivity | reflexivity | vm_compute; discriminate]. Qed.

(** C1 (amended): the HTTP loop of part_001 and the browser handlers try
    their extractors in a fixed order and keep the first non-empty result
    only; the CheerioCrawler handler of src/main.js runs every extractor
    and concatenates the results in the order JSON-LD, Next data, HTML. *)
Theorem c1_cascade_priority :
  (forall fetchHttp Json safeJsonParse extractLawyersFromJsonObject
          tryExtractApiUrlFromHtml extractListingViaEmbeddedJson extractListingViaHtml st r,
      let api := (HttpFirst.extractListingViaJsonApi fetchHttp Json safeJsonParse
                    extractLawyersFromJsonObject tryExtractApiUrlFromHtml st
                    (HttpFirst.r_url r) (HttpFirst.r_body r)).1.2 in
      let emb := extractListingViaEmbeddedJson (HttpFirst.r_body r) (HttpFirst.r_url r) in
      (HttpFirst.cascade fetchHttp Json safeJsonParse extractLawyersFromJsonObject
         tryExtractApiUrlFromHtml extractListingViaEmbeddedJson extractListingViaHtml st r).2
      = if nonEmpty api then api
        else if nonEmpty emb then emb
        else extractListingViaHtml (HttpFirst.r_body r) (HttpFirst.r_url r)) /\
  (forall Json safeJsonParse extractLawyersFromJsonLd extractListingViaHtml
          jsonLdScripts html requestUrl,
      let ld := Browser.jsonLdStep Json safeJsonParse extractLawyersFromJsonLd
                  jsonLdScripts requestUrl in
      Browser.camoufoxCascade Json safeJsonParse extractLawyersFromJsonLd extractListingViaHtml
        jsonLdScripts html requestUrl
      = if nonEmpty ld then ld else extractListingViaHtml html requestUrl) /\
  (forall Json safeJsonParse extractLawyersFromJsonLd extractListingViaHtml
          embeddedJson jsonLdScripts html requestUrl,
      let ld := Browser.jsonLdStep Json safeJsonParse extractLawyersFromJsonLd
                  jsonLdScripts requestUrl in
      Browser.browserFirstCascade Json safeJsonParse extractLawyersFromJsonLd
        extractListingViaHtml embeddedJson jsonLdScripts html requestUrl
      = if nonEmpty ld then ld
        else if nonEmpty embeddedJson then embeddedJson
        else extractListingViaHtml html requestUrl) /\
  (forall extractLawyersFromJsonLdHtml extractLawyersFromNextData extractListingViaHtml
          htmlSnapshot pageUrl,
      Cheerio.extractAll extractLawyersFromJsonLdHtml extractLawyersFromNextData
        extractListingViaHtml htmlSnapshot pageUrl
      = if falsy htmlSnapshot then []
        else extractLawyersFromJsonLdHtml htmlSnapshot pageUrl
             ++ extractLawyersFromNextData htmlSnapshot pageUrl
             ++ extractListingViaHtml htmlSnapshot pageUrl).
Proof.
  split; [|split; [|split]]; intros.
  - apply cascade_first_nonempty.
  - apply camoufoxCascade_first_nonempty.
  - apply browserFirstCascade_first_nonempty.
  - apply extractAll_concat.
Qed.

(** ** Deduplication ledger *)

Section LedgerFacts.

Variable maxLawyers : Z.

(** A candidate equal in key to the one just before it changes nothing. *)
Lemma filterLoop_same_key a b rest seen total unique :
  dedupKey a = dedupKey b ->
  Cheerio.filterLoop maxLawyers (a :: b :: rest) seen total unique
  = Cheerio.filterLoop maxLawyers (a :: rest) seen total unique.
Proof.
  intros Hk. cbn [Cheerio.filterLoop]. rewrite <- Hk.
  case_bool_decide as Ha.
  - reflexivity.
  - destruct (limitReached maxLawyers total); [reflexivity|].
    rewrite bool_decide_eq_true_2 by set_solver. reflexivity.
Qed.

Lemma filterLoop_two_fresh a b seen total :
  dedupKey a <> dedupKey b ->
  dedupKey a ∉ seen -> dedupKey b ∉ seen ->
  maxLawyers <= 0 \/ total + 2 <= maxLawyers ->
  Cheerio.filterLoop maxLawyers [a; b] seen total []
  = ([a; b], {[dedupKey b]} ∪ ({[dedupKey a]} ∪ seen), total + 1 + 1).
Proof.
  intros Hne Ha Hb Hbudget. cbn [Cheerio.filterLoop].
  rewrite bool_decide_eq_false_2 by exact Ha.
  replace (limitReached maxLawyers total) with false
    by (unfold limitReached; symmetry; apply andb_false_iff; lia).
  rewrite bool_decide_eq_false_2 by set_solver.
  replace (limitReached maxLawyers (total + 1)) with false
    by (unfold limitReached; symmetry; apply andb_false_iff; lia).
  reflexivity.
Qed.

Lemma uniqueLoop_websites remaining lawyers : forall seen unique,
  Forall (fun l => website l <> "") unique ->
  Forall (fun l => website l <> "")
         (HttpFirst.uniqueLoop maxLawyers remaining lawyers seen unique).1.
Proof.
  induction lawyers as [|l rest IH]; intros seen unique Hu; simpl; [exact Hu|].
  destruct (falsy (website l)) eqn:Hf; [now apply IH|].
  case_bool_decide; [now apply IH|].
  assert (Forall (fun l => website l <> "") (unique ++ [l])) as Hu'.
  { apply Forall_app. split; [exact Hu|]. constructor; [|constructor].
    intros Hw. rewrite Hw in Hf. discriminate. }
  destruct (_ && _); [exact Hu' | now apply IH].
Qed.

Lemma browser_filterLoop_websites lawyers : forall seen total unique,
  Forall (fun l => website l <> "") unique ->
  Forall (fun l => website l <> "")
         (Browser.filterLoop maxLawyers lawyers seen total unique).1.1.
Proof.
  induction lawyers as [|l rest IH]; intros seen total unique Hu; simpl; [exact Hu|].
  destruct (falsy (website l)) eqn:Hf; simpl; [now apply IH|].
  case_bool_decide; [now apply IH|].
  destruct (limitReached maxLawyers total); [exact Hu|].
  apply IH. apply Forall_app. split; [exact Hu|]. constructor; [|constructor].
  intros Hw. rewrite Hw in Hf. discriminate.
Qed.

End LedgerFacts.

(** C3 (as stated): in src/main.js two cards without a profile URL that
    differ in name and location can share the composite key, and the second
    is dropped; in part_001 cards without a profile URL are never stored,
    however they differ. *)
Lemma c3_empty_profile_url_not_both_stored :
  (name Fixture.anonymous1 <> name Fixture.anonymous2 /\
   website Fixture.anonymous1 = "" /\ website Fixture.anonymous2 = "" /\
   (Cheerio.filterLoop 0 [Fixture.anonymous1; Fixture.anonymous2] ∅ 0 []).1.1
   = [Fixture.anonymous1]) /\
  (location Fixture.anonymous3 <> location Fixture.anonymous4 /\
   website Fixture.anonymous3 = "" /\ website Fixture.anonymous4 = "" /\
   (HttpFirst.uniqueLoop 0 2 [Fixture.anonymous3; Fixture.anonymous4] ∅ []).1 = []).
Proof.
  repeat split; try reflexivity; try discriminate.
Qed.

(** C3 (amended): the identity key is the profile URL when non-empty and
    otherwise name|location|firmName.  In the handlers of src/main.js a
    candidate whose key is already in the ledger is not stored again, keys
    are never removed, and two candidates with empty profile URL and equal
    name, location and firm are duplicates; two such candidates whose name
    and location hold no "|" and which differ in one of the three fields
    are both stored while the record budget allows two more.  In part_001
    and part_002 a candidate with an empty profile URL is never stored. *)
Theorem c3_dedup_identity_key (maxLawyers : Z) :
  (forall l, dedupKey l = if falsy (website l) then composite l else website l) /\
  (forall lawyers seen total,
      let '(unique, seen', total') := Cheerio.filterLoop maxLawyers lawyers seen total [] in
      NoDup (map dedupKey unique) /\
      (forall l, l ∈ unique -> l ∈ lawyers /\ dedupKey l ∉ seen) /\
      seen' = list_to_set (map dedupKey unique) ∪ seen) /\
  (forall a b rest seen total,
      website a = "" -> website b = "" ->
      name a = name b -> location a = location b -> firmName a = firmName b ->
      Cheerio.filterLoop maxLawyers (a :: b :: rest) seen total []
      = Cheerio.filterLoop maxLawyers (a :: rest) seen total []) /\
  (forall a b seen total,
      website a = "" -> website b = "" ->
      noBar (name a) = true -> noBar (location a) = true ->
      noBar (name b) = true -> noBar (location b) = true ->
      name a <> name b \/ location a <> location b \/ firmName a <> firmName b ->
      dedupKey a ∉ seen -> dedupKey b ∉ seen ->
      maxLawyers <= 0 \/ total + 2 <= maxLawyers ->
      (Cheerio.filterLoop maxLawyers [a; b] seen total []).1.1 = [a; b]) /\
  (forall remaining lawyers seen,
      Forall (fun l => website l <> "")
             (HttpFirst.uniqueLoop maxLawyers remaining lawyers seen []).1) /\
  (forall lawyers seen total,
      Forall (fun l => website l <> "")
             (Browser.filterLoop maxLawyers lawyers seen total []).1.1).
Proof.
  split; [|split; [|split; [|split; [|split]]]].
  - apply dedupKey_cases.
  - intros lawyers seen total.
    pose proof (filterLoop_spec maxLawyers lawyers seen total) as H.
    destruct (Cheerio.filterLoop maxLawyers lawyers seen total []) as [[u s] t].
    destruct H as (_ & Hs & Hnd & Hmem & _). auto.
  - intros a b rest seen total Ha Hb Hn Hl Hf.
    apply filterLoop_same_key. rewrite !dedupKey_cases, Ha, Hb. simpl.
    unfold composite. now rewrite Hn, Hl, Hf.
  - intros a b seen total Ha Hb Hna Hla Hnb Hlb Hdiff Hsa Hsb Hbudget.
    rewrite filterLoop_two_fresh; auto.
    rewrite !dedupKey_cases, Ha, Hb. simpl. intros Heq.
    apply composite_inj in Heq as (Hn & Hl & Hf); auto. tauto.
  - intros. apply uniqueLoop_websites. constructor.
  - intros. apply browser_filterLoop_websites. constructor.
Qed.

(** Two cards without a profile URL: equal fields make the second a
    duplicate, a different location stores both. *)
Lemma c3_dedup_identity_key_witness :
  Cheerio.filterLoop 0 [Fixture.anonymous3; Fixture.anonymous3] ∅ 0 []
  = Cheerio.filterLoop 0 [Fixture.anonymous3] ∅ 0 [] /\
  (Cheerio.filterLoop 0 [Fixture.anonymous3; Fixture.anonymous4] ∅ 0 []).1.1
  = [Fixture.anonymous3; Fixture.anonymous4].
Proof.
  destruct (c3_dedup_identity_key 0) as (_ & _ & Hsame & Hdiff & _).
  split.
  - apply Hsame; reflexivity.
  - apply Hdiff; try reflexivity.
    + right. left. discriminate.
    + apply not_elem_of_empty.
    + apply not_elem_of_empty.
    + left. lia.
Defined.

(** ** Record budget and the next-page guard *)

Section NextRequestFacts.

Lemma nextRequest_some maxLawyers maxPages total pages find requestUrl next :
  nextRequest maxLawyers maxPages total pages find requestUrl = Some next ->
  next = find requestUrl /\ next <> "" /\ next <> requestUrl /\
  limitReached maxLawyers total = false /\ limitReached maxPages pages = false.
Proof.
  unfold nextRequest.
  destruct (limitReached maxLawyers total); [discriminate|].
  destruct (limitReached maxPages pages); [discriminate|].
  destruct (falsy (find requestUrl)) eqn:Hf; simpl; [discriminate|].
  destruct (String.eqb (find requestUrl) requestUrl) eqn:He; simpl; [discriminate|].
  intros [= <-]. repeat split.
  - intros Hn. rewrite Hn in Hf. discriminate.
  - now apply String.eqb_neq.
Qed.

Lemma nextRequest_self maxLawyers maxPages total pages find requestUrl :
  find requestUrl = requestUrl ->
  nextRequest maxLawyers maxPages total pages find requestUrl = None.
Proof.
  intros Hself. unfold nextRequest.
  destruct (limitReached maxLawyers total); [reflexivity|].
  destruct (limitReached maxPages pages); [reflexivity|].
  cbv zeta. rewrite Hself, String.eqb_refl. now rewrite andb_false_r.
Qed.

Lemma nextRequest_empty maxLawyers maxPages total pages find requestUrl :
  find requestUrl = "" ->
  nextRequest maxLawyers maxPages total pages find requestUrl = None.
Proof.
  intros Hnone. unfold nextRequest.
  destruct (limitReached maxLawyers total); [reflexivity|].
  destruct (limitReached maxPages pages); [reflexivity|].
  cbv zeta. now rewrite Hnone.
Qed.

End NextRequestFacts.

(** C5: with a positive budget [maxLawyers] a run of the CheerioCrawler
    program never stores more than [maxLawyers] records; once the count
    reaches the budget the filter loop takes no further candidate of the
    page, the handler adds no request, and the crawl ends with that page.
    On the three-page site with 25 candidates and a budget of 10, exactly
    10 records are stored, the run stops inside page 2 and page 3 is never
    fetched. *)
Theorem c5_budget_enforcement :
  (forall maxLawyers maxPages fetchFullProfiles extractLawyersFromJsonLdHtml
          extractLawyersFromNextData extractListingViaHtml findNextPageUrl
          enrichProfileWithDetailsHttp fetch,
      0 < maxLawyers ->
      (forall fuel searchUrl,
          Z.of_nat (length (Cheerio.dataset
            (Cheerio.run maxLawyers maxPages fetchFullProfiles
               extractLawyersFromJsonLdHtml extractLawyersFromNextData
               extractListingViaHtml findNextPageUrl enrichProfileWithDetailsHttp
               fetch fuel searchUrl).1)) <= maxLawyers) /\
      (forall lawyers seen unique,
          Cheerio.filterLoop maxLawyers lawyers seen maxLawyers unique
          = (unique, seen, maxLawyers)) /\
      (forall st request response st' enq,
          Cheerio.requestHandler maxLawyers maxPages fetchFullProfiles
            extractLawyersFromJsonLdHtml extractLawyersFromNextData
            extractListingViaHtml findNextPageUrl enrichProfileWithDetailsHttp
            st request response = Cheerio.Return st' enq ->
          Cheerio.totalScraped st' = maxLawyers ->
          enq = None) /\
      (forall fuel st request handled queued trace st',
          limitReached maxPages handled = false ->
          Cheerio.requestHandler maxLawyers maxPages fetchFullProfiles
            extractLawyersFromJsonLdHtml extractLawyersFromNextData
            extractListingViaHtml findNextPageUrl enrichProfileWithDetailsHttp
            st request (fetch (url request)) = Cheerio.Return st' None ->
          exists e,
            Cheerio.crawl maxLawyers maxPages fetchFullProfiles
              extractLawyersFromJsonLdHtml extractLawyersFromNextData
              extractListingViaHtml findNextPageUrl enrichProfileWithDetailsHttp
              fetch (S fuel) st request handled queued trace
            = (st', trace ++ [e]) /\ fetchUrl e = url request)) /\
  (length (Fixture.extractListingViaHtml (body (Fixture.fetch Fixture.page1)) Fixture.page1
           ++ Fixture.extractListingViaHtml (body (Fixture.fetch Fixture.page2)) Fixture.page2
           ++ Fixture.extractListingViaHtml (body (Fixture.fetch Fixture.page3)) Fixture.page3)
   = 25%nat /\
   forall fuel, (2 <= fuel)%nat ->
     Cheerio.dataset (Fixture.cheerioRun 10 0 fuel Fixture.page1).1
     = map Fixture.candidate (seq 0 10) /\
     map fetchUrl (Fixture.cheerioRun 10 0 fuel Fixture.page1).2
     = [Fixture.page1; Fixture.page2]).
Proof.
  split.
  - intros maxLawyers maxPages ffp ld nd html find enrich fetch Hpos.
    assert (limitReached maxLawyers maxLawyers = true) as Hlim.
    { unfold limitReached. apply andb_true_iff. split; lia. }
    split; [|split; [|split]].
    + intros fuel searchUrl. unfold Cheerio.run.
      pose proof (crawl_budget maxLawyers maxPages ffp ld nd html find enrich fetch fuel
                    Cheerio.initial (mkRequest searchUrl 0) 0 {[searchUrl]} []) as H.
      destruct H as [Hcount Hle]; [split; simpl; [reflexivity | lia]|].
      rewrite <- Hcount. auto.
    + intros. now apply filterLoop_exhausted.
    + intros st request response st' enq Hret Htot.
      eapply requestHandler_stops; [exact Hret|]. now rewrite Htot.
    + intros fuel st request handled queued trace st' Hp Hret.
      eexists. split; [now apply crawl_last_page|]. reflexivity.
  - split; [reflexivity|].
    intros fuel Hfuel. destruct fuel as [|[|fuel]]; [lia | lia |].
    split; vm_compute; reflexivity.
Qed.

(** The budget of the scenario: 10 records, reached on page 2. *)
Lemma c5_budget_enforcement_witness :
  Z.of_nat (length (Cheerio.dataset (Fixture.cheerioRun 10 0 5 Fixture.page1).1)) <= 10.
Proof.
  destruct c5_budget_enforcement as [Hgen _].
  apply (Hgen 10 0 false Fixture.extractLawyersFromJsonLdHtml
              Fixture.extractLawyersFromNextData Fixture.extractListingViaHtml
              Fixture.findNextPageUrl Fixture.enrich Fixture.fetch).
  lia.
Defined.

(** C10: a handler adds a request only for a non-empty next URL that
    differs from the URL just processed, and a page whose pagination
    resolves to itself ends the crawl. *)
Theorem c10_no_self_enqueue :
  (forall maxLawyers maxPages total pages find requestUrl next,
      nextRequest maxLawyers maxPages total pages find requestUrl = Some next ->
      next = find requestUrl /\ next <> "" /\ next <> requestUrl) /\
  (forall maxLawyers maxPages fetchFullProfiles extractLawyersFromJsonLdHtml
          extractLawyersFromNextData extractListingViaHtml findNextPageUrl
          enrichProfileWithDetailsHttp st request response st' next,
      Cheerio.requestHandler maxLawyers maxPages fetchFullProfiles
        extractLawyersFromJsonLdHtml extractLawyersFromNextData
        extractListingViaHtml findNextPageUrl enrichProfileWithDetailsHttp
        st request response = Cheerio.Return st' (Some next) ->
      next <> "" /\ next <> url request) /\
  (forall maxLawyers maxPages fetchFullProfiles extractLawyersFromJsonLdHtml
          extractLawyersFromNextData extractListingViaHtml findNextPageUrl
          enrichProfileWithDetailsHttp fetch fuel st request handled queued trace,
      findNextPageUrl (body (fetch (url request))) (url request) = url request ->
      limitReached maxPages handled = false ->
      Cheerio.requestHandler maxLawyers maxPages fetchFullProfiles
        extractLawyersFromJsonLdHtml extractLawyersFromNextData
        extractListingViaHtml findNextPageUrl enrichProfileWithDetailsHttp
        st request (fetch (url request)) <> Cheerio.Throw ->
      exists st' e,
        Cheerio.crawl maxLawyers maxPages fetchFullProfiles
          extractLawyersFromJsonLdHtml extractLawyersFromNextData
          extractListingViaHtml findNextPageUrl enrichProfileWithDetailsHttp
          fetch (S fuel) st request handled queued trace
        = (st', trace ++ [e]) /\
        fetchUrl e = url request /\
        Cheerio.pagesProcessed st' = Cheerio.pagesProcessed st + 1).
Proof.
  split; [|split].
  - intros until next. intros H. apply nextRequest_some in H. tauto.
  - intros until next. intros Hret.
    destruct (requestHandler_inv maxLawyers maxPages fetchFullProfiles
                extractLawyersFromJsonLdHtml extractLawyersFromNextData
                extractListingViaHtml findNextPageUrl enrichProfileWithDetailsHttp
                st request response) as [Hthrow | (u & s & t & _ & Heq)]; [congruence|].
    rewrite Heq in Hret. injection Hret as _ Hnext.
    apply nextRequest_some in Hnext. tauto.
  - intros until trace. intros Hself Hpages Hthrow.
    destruct (requestHandler_inv maxLawyers maxPages fetchFullProfiles
                extractLawyersFromJsonLdHtml extractLawyersFromNextData
                extractListingViaHtml findNextPageUrl enrichProfileWithDetailsHttp
                st request (fetch (url request))) as [Hth | (u & s & t & _ & Heq)];
      [contradiction|].
    rewrite nextRequest_self in Heq by exact Hself.
    eexists _, _. split; [apply crawl_last_page; [exact Hpages | exact Heq]|].
    split; reflexivity.
Qed.

(** The page whose "next" link is its own URL, under unlimited budgets. *)
Lemma c10_no_self_enqueue_witness :
  exists st' e,
    Fixture.cheerioRun 0 0 7 Fixture.pageSelf = (st', [] ++ [e]) /\
    fetchUrl e = Fixture.pageSelf /\
    Cheerio.pagesProcessed st' = 0 + 1.
Proof.
  destruct c10_no_self_enqueue as (_ & _ & H).
  apply (H 0 0 false Fixture.extractLawyersFromJsonLdHtml
           Fixture.extractLawyersFromNextData Fixture.extractListingViaHtml
           Fixture.findNextPageUrl Fixture.enrich Fixture.fetch 6%nat
           Cheerio.initial (mkRequest Fixture.pageSelf 0) 0 {[Fixture.pageSelf]} []).
  - reflexivity.
  - reflexivity.
  - vm_compute. discriminate.
Defined.

(** ** Escalation: the shape of the fetch trace *)

Section TraceShape.

Lemma unblocked_escalates (lw : list FetchEvent) :
  Forall unblockedLightweight lw -> escalates_one_way lw.
Proof.
  intros Hlw. split.
  - intros e He. now apply (Forall_lookup_1 _ _ _ _ Hlw) in He as [? _].
  - intros i e He _ Hb. apply (Forall_lookup_1 _ _ _ _ Hlw) in He as [_ He]. congruence.
Qed.

Lemma blocked_then_rendered_escalates (lw rd : list FetchEvent) (u : string) :
  Forall unblockedLightweight lw ->
  Forall renderedListing rd ->
  (forall e, head rd = Some e -> fetchUrl e = u) ->
  escalates_one_way (lw ++ mkFetch Lightweight Listing u true :: rd).
Proof.
  intros Hlw Hrd Hhead. split.
  - intros e He. destruct lw as [|e0 lw]; simpl in He.
    + now injection He as <-.
    + injection He as <-. apply Forall_cons in Hlw as [[? _] _]. assumption.
  - intros i e He _ Hb.
    apply lookup_app_Some in He as [He | [Hlen He]].
    { apply (Forall_lookup_1 _ _ _ _ Hlw) in He as [_ He]. congruence. }
    destruct (i - length lw)%nat as [|k] eqn:Hk; simpl in He.
    2: { apply (Forall_lookup_1 _ _ _ _ Hrd) in He as (_ & _ & He). congruence. }
    injection He as <-. simpl.
    assert (i = length lw) as -> by lia.
    split.
    + intros e' He'.
      rewrite lookup_app_r in He' by lia.
      replace (S (length lw) - length lw)%nat with 1%nat in He' by lia.
      simpl in He'. pose proof (Hhead e') as Hu. rewrite head_lookup in Hu.
      apply (Forall_lookup_1 _ _ _ _ Hrd) in He' as Hr.
      destruct Hr as (? & ? & _). auto.
    + intros j e' Hj He'.
      rewrite lookup_app_r in He' by lia.
      destruct (j - length lw)%nat as [|m] eqn:Hm; [lia|]. simpl in He'.
      now apply (Forall_lookup_1 _ _ _ _ Hrd) in He' as [? _].
Qed.

End TraceShape.

Section HttpFirstFacts.

Variable maxLawyers maxPages : Z.
Variable fetchFullProfiles : bool.
Variable fetchHttp : string -> HttpFirst.HttpResult.
Variable pageContent : string -> string.
Variable Json : Type.
Variable safeJsonParse : string -> option Json.
Variable extractLawyersFromJsonObject : Json -> string -> list Lawyer.
Variable tryExtractApiUrlFromHtml : string -> string -> string.
Variable extractListingViaEmbeddedJson : string -> string -> list Lawyer.
Variable extractListingViaHtml : string -> string -> list Lawyer.
Variable findNextPageUrl : string -> string -> string.
Variable detailEmail detailBiography : string -> string.
Variable detailEducation detailBarAdmissions detailLanguages : string -> list string.

Abbreviation jsonApi :=
  (HttpFirst.extractListingViaJsonApi fetchHttp Json safeJsonParse
     extractLawyersFromJsonObject tryExtractApiUrlFromHtml).
Abbreviation httpCascade :=
  (HttpFirst.cascade fetchHttp Json safeJsonParse extractLawyersFromJsonObject
     tryExtractApiUrlFromHtml extractListingViaEmbeddedJson extractListingViaHtml).
Abbreviation fetchProfileDetails :=
  (HttpFirst.fetchProfileDetails fetchHttp detailEmail detailBiography
     detailEducation detailBarAdmissions detailLanguages).
Abbreviation enrichLoop :=
  (HttpFirst.enrichLoop fetchHttp detailEmail detailBiography
     detailEducation detailBarAdmissions detailLanguages).
Abbreviation saveResults :=
  (HttpFirst.saveResults maxLawyers fetchFullProfiles fetchHttp detailEmail
     detailBiography detailEducation detailBarAdmissions detailLanguages).
Abbreviation fallbackHandler :=
  (HttpFirst.fallbackHandler pageContent extractListingViaEmbeddedJson
     extractListingViaHtml findNextPageUrl).
Abbreviation fallbackCrawl :=
  (HttpFirst.fallbackCrawl pageContent extractListingViaEmbeddedJson
     extractListingViaHtml findNextPageUrl).
Abbreviation runBrowserFallback :=
  (HttpFirst.runBrowserFallback pageContent extractListingViaEmbeddedJson
     extractListingViaHtml findNextPageUrl).
Abbreviation mainLoop :=
  (HttpFirst.mainLoop maxLawyers maxPages fetchFullProfiles fetchHttp pageContent
     Json safeJsonParse extractLawyersFromJsonObject tryExtractApiUrlFromHtml
     extractListingViaEmbeddedJson extractListingViaHtml findNextPageUrl
     detailEmail detailBiography detailEducation detailBarAdmissions detailLanguages).

Lemma httpOnly_refl st : httpOnly st st.
Proof. exists []. now rewrite app_nil_r. Qed.

Lemma httpOnly_trans st1 st2 st3 : httpOnly st1 st2 -> httpOnly st2 st3 -> httpOnly st1 st3.
Proof.
  intros (e1 & H1 & F1) (e2 & H2 & F2). exists (e1 ++ e2). split.
  - now rewrite H2, H1, app_assoc.
  - now apply Forall_app.
Qed.

Lemma httpOnly_same_trace st st' :
  HttpFirst.trace st' = HttpFirst.trace st -> httpOnly st st'.
Proof. intros H. exists []. now rewrite app_nil_r. Qed.

Lemma jsonApi_httpOnly st pageUrl html : httpOnly st (jsonApi st pageUrl html).1.1.
Proof.
  unfold HttpFirst.extractListingViaJsonApi.
  destruct (falsy _); [apply httpOnly_refl|].
  assert (httpOnly st (HttpFirst.logFetch
            (mkFetch Lightweight ApiProbe (tryExtractApiUrlFromHtml html pageUrl) false) st)).
  { eexists. split; [reflexivity|]. repeat constructor. }
  now destruct (safeJsonParse _).
Qed.

Lemma cascade_httpOnly st r : httpOnly st (httpCascade st r).1.
Proof.
  unfold HttpFirst.cascade.
  pose proof (jsonApi_httpOnly st (HttpFirst.r_url r) (HttpFirst.r_body r)) as H.
  destruct (HttpFirst.extractListingViaJsonApi _ _ _ _ _ _ _ _) as [[st1 api] tried].
  simpl in *. eapply httpOnly_trans; [exact H|]. now apply httpOnly_same_trace.
Qed.

Lemma fetchProfileDetails_httpOnly st profileUrl :
  httpOnly st (fetchProfileDetails st profileUrl).1.
Proof.
  unfold HttpFirst.fetchProfileDetails.
  assert (httpOnly st (HttpFirst.logFetch (mkFetch Lightweight Detail profileUrl false) st)).
  { eexists. split; [reflexivity|]. repeat constructor. }
  destruct (negb _); [assumption|]. now destruct (HttpFirstBlocking.isBlockedHtml _).
Qed.

Lemma enrichLoop_httpOnly unique : forall st enriched,
  httpOnly st (enrichLoop st unique enriched).1.
Proof.
  induction unique as [|base rest IH]; intros st enriched; simpl; [apply httpOnly_refl|].
  pose proof (fetchProfileDetails_httpOnly st (website base)) as H.
  destruct (HttpFirst.fetchProfileDetails _ _ _ _ _ _ _ _) as [st1 details].
  eapply httpOnly_trans; [exact H | apply IH].
Qed.

Lemma saveResults_httpOnly st lawyers : httpOnly st (saveResults st lawyers).
Proof.
  unfold HttpFirst.saveResults.
  destruct (nonEmpty lawyers); [|apply httpOnly_refl].
  destruct (HttpFirst.uniqueLoop _ _ _ _ _) as [unique seen].
  destruct (fetchFullProfiles && nonEmpty unique).
  - match goal with |- context [HttpFirst.enrichLoop ?a ?b ?c ?d ?e ?f ?s ?u ?n] =>
      pose proof (enrichLoop_httpOnly u s n) as H;
      destruct (HttpFirst.enrichLoop a b c d e f s u n) as [st1 saved] end.
    simpl in *. eapply httpOnly_trans; [|apply httpOnly_same_trace; reflexivity].
    eapply httpOnly_trans; [|exact H]. now apply httpOnly_same_trace.
  - now apply httpOnly_same_trace.
Qed.

Lemma fallbackHandler_trace maxLawyers' st seen requestUrl :
  HttpFirst.trace (fallbackHandler maxLawyers' st seen requestUrl).1.1
  = HttpFirst.trace st ++ [mkFetch Rendered Listing requestUrl false].
Proof.
  unfold HttpFirst.fallbackHandler. cbv zeta.
  destruct (fold_left _ _ _) as [filtered seen'].
  match goal with |- context [if nonEmpty ?s then _ else _] => destruct (nonEmpty s) end;
    destruct (_ && _); try destruct (negb _); reflexivity.
Qed.

Lemma fallbackCrawl_trace fuel maxLawyers' maxRequests :
  forall st seen requestUrl handled queued,
  exists rd,
    HttpFirst.trace (fallbackCrawl fuel maxLawyers' maxRequests st seen requestUrl
                       handled queued)
    = HttpFirst.trace st ++ rd /\
    Forall renderedListing rd /\
    (forall e, head rd = Some e -> fetchUrl e = requestUrl).
Proof.
  induction fuel as [|fuel IH]; intros st seen requestUrl handled queued; simpl.
  - exists []. rewrite app_nil_r. repeat split; [constructor | discriminate].
  - destruct (maxRequests <=? handled).
    { exists []. rewrite app_nil_r. repeat split; [constructor | discriminate]. }
    pose proof (fallbackHandler_trace maxLawyers' st seen requestUrl) as Hh.
    destruct (HttpFirst.fallbackHandler _ _ _ _ _ _ _ _) as [[st1 seen1] [next|]];
      simpl in Hh.
    + case_bool_decide.
      * exists [mkFetch Rendered Listing requestUrl false].
        repeat split; [exact Hh | repeat constructor | now intros e [= <-]].
      * destruct (IH st1 seen1 next (handled + 1) ({[next]} ∪ queued))
          as (rd & Ht & Hrd & _).
        exists (mkFetch Rendered Listing requestUrl false :: rd).
        repeat split.
        -- rewrite Ht, Hh. now rewrite <- app_assoc.
        -- constructor; [repeat constructor | exact Hrd].
        -- now intros e [= <-].
    + exists [mkFetch Rendered Listing requestUrl false].
      repeat split; [exact Hh | repeat constructor | now intros e [= <-]].
Qed.

(** With fuel left and a positive request budget the fallback fetches its
    start URL first. *)
Lemma fallbackCrawl_refetch fuel maxLawyers' maxRequests st seen requestUrl queued :
  0 < maxRequests ->
  exists rd,
    HttpFirst.trace (fallbackCrawl (S fuel) maxLawyers' maxRequests st seen requestUrl
                       0 queued)
    = HttpFirst.trace st ++ mkFetch Rendered Listing requestUrl false :: rd.
Proof.
  intros Hpos. simpl.
  replace (maxRequests <=? 0) with false by (symmetry; apply Z.leb_gt; lia).
  pose proof (fallbackHandler_trace maxLawyers' st seen requestUrl) as Hh.
  destruct (HttpFirst.fallbackHandler _ _ _ _ _ _ _ _) as [[st1 seen1] [next|]];
    simpl in Hh.
  - case_bool_decide; [exists []; exact Hh|].
    destruct (fallbackCrawl_trace fuel maxLawyers' maxRequests st1 seen1 next (0 + 1)
                ({[next]} ∪ queued)) as (rd & Ht & _).
    exists rd. rewrite Ht, Hh. now rewrite <- app_assoc.
  - exists []. exact Hh.
Qed.

Lemma mainLoop_trace fuel : forall st nextUrl,
  exists lw rest,
    HttpFirst.trace (mainLoop fuel st nextUrl) = HttpFirst.trace st ++ lw ++ rest /\
    Forall unblockedLightweight lw /\
    (rest = [] \/
     exists u rd, rest = mkFetch Lightweight Listing u true :: rd /\
                  Forall renderedListing rd /\
                  (forall e, head rd = Some e -> fetchUrl e = u)).
Proof.
  assert (forall st : HttpFirst.RunState,
             exists lw rest : list FetchEvent,
               HttpFirst.trace st = HttpFirst.trace st ++ lw ++ rest /\
               Forall unblockedLightweight lw /\
               (rest = [] \/
                exists u rd, rest = mkFetch Lightweight Listing u true :: rd /\
                             Forall renderedListing rd /\
                             (forall e, head rd = Some e -> fetchUrl e = u))) as Hstop.
  { intros st. exists [], []. rewrite app_nil_r. repeat split; [constructor | now left]. }
  induction fuel as [|fuel IH]; intros st nextUrl; simpl; [apply Hstop|].
  destruct (falsy nextUrl); [apply Hstop|].
  destruct (limitReached maxPages _); [apply Hstop|].
  destruct (limitReached maxLawyers _); [apply Hstop|].
  destruct (HttpFirstBlocking.blocked _ _) eqn:Hblocked.
  - unfold HttpFirst.runBrowserFallback.
    match goal with |- context [HttpFirst.fallbackCrawl ?a ?b ?c ?d ?f ?m ?r ?s ?sn ?u ?h ?q] =>
      destruct (fallbackCrawl_trace f m r s sn u h q) as (rd & Ht & Hrd & Hhead) end.
    exists [], (mkFetch Lightweight Listing nextUrl true :: rd).
    repeat split; [|constructor|].
    + rewrite Ht. simpl. now rewrite <- app_assoc.
    + right. exists nextUrl, rd. auto.
  - match goal with |- context [HttpFirst.cascade ?a ?b ?c ?d ?e ?f ?g ?s ?r] =>
      pose proof (cascade_httpOnly s r) as Hc;
      destruct (HttpFirst.cascade a b c d e f g s r) as [st1 lawyers] end.
    pose proof (saveResults_httpOnly st1 lawyers) as Hs.
    simpl in Hc. destruct Hc as (ev1 & Hc & F1). destruct Hs as (ev2 & Hs & F2).
    simpl in Hc.
    assert (Forall unblockedLightweight
              (mkFetch Lightweight Listing nextUrl false :: ev1 ++ ev2)) as Hpre.
    { constructor; [split; reflexivity | now apply Forall_app]. }
    assert (HttpFirst.trace (saveResults st1 lawyers)
            = HttpFirst.trace st ++ mkFetch Lightweight Listing nextUrl false :: ev1 ++ ev2)
      as Htr.
    { rewrite Hs, Hc. rewrite <- !app_assoc. reflexivity. }
    assert (exists lw rest,
               HttpFirst.trace (saveResults st1 lawyers)
               = HttpFirst.trace st ++ lw ++ rest /\
               Forall unblockedLightweight lw /\
               (rest = [] \/
                exists u rd, rest = mkFetch Lightweight Listing u true :: rd /\
                             Forall renderedListing rd /\
                             (forall e, head rd = Some e -> fetchUrl e = u))) as Hhere.
    { eexists _, []. rewrite app_nil_r. split; [exact Htr|]. split; [exact Hpre | now left]. }
    destruct (limitReached maxLawyers _); [exact Hhere|].
    destruct (falsy _); [exact Hhere|].
    match goal with |- context [HttpFirst.mainLoop _ _ _ _ _ _ _ _ _ _ _ _ _ _ _ _ _ fuel ?s ?u] =>
      destruct (IH s u) as (lw & rest & Ht & Hlw & Hrest) end.
    exists ((mkFetch Lightweight Listing nextUrl false :: ev1 ++ ev2) ++ lw), rest.
    split; [|split].
    + rewrite Ht, Htr. now rewrite <- !app_assoc.
    + now apply Forall_app.
    + exact Hrest.
Qed.

(** A blocked listing fetch is followed at once by a rendered fetch of the
    same URL, and by rendered fetches only. *)
Lemma mainLoop_refetch fuel st nextUrl :
  nextUrl <> "" ->
  limitReached maxPages (HttpFirst.pagesProcessed st) = false ->
  limitReached maxLawyers (HttpFirst.totalScraped st) = false ->
  HttpFirstBlocking.blocked (HttpFirst.r_body (fetchHttp nextUrl))
                            (HttpFirst.r_statusCode (fetchHttp nextUrl)) = true ->
  exists rd,
    HttpFirst.trace (mainLoop (S (S fuel)) st nextUrl)
    = HttpFirst.trace st
      ++ [mkFetch Lightweight Listing nextUrl true; mkFetch Rendered Listing nextUrl false]
      ++ rd /\
    Forall renderedListing rd.
Proof.
  intros Hne Hp Hl Hb.
  cbn [HttpFirst.mainLoop].
  destruct (falsy nextUrl) eqn:Hf; [apply falsy_spec in Hf; contradiction|].
  rewrite Hp, Hl, Hb. unfold HttpFirst.runBrowserFallback.
  match goal with |- context [HttpFirst.fallbackCrawl ?a ?b ?c ?d (S fuel) ?m ?r ?s ?sn ?u 0 ?q] =>
    destruct (fallbackCrawl_trace (S fuel) m r s sn u 0 q) as (rd0 & Ht0 & Hrd0 & _);
    destruct (fallbackCrawl_refetch fuel m r s sn u q) as (rd & Ht);
      [lia|]
  end.
  exists rd. rewrite Ht in Ht0. apply app_inv_head in Ht0. subst rd0.
  apply Forall_cons in Hrd0 as [_ Hrd0].
  split; [|exact Hrd0]. rewrite Ht. simpl. now rewrite <- app_assoc.
Qed.

(** A page without a next link is the last iteration of the loop. *)
Lemma mainLoop_last_page fuel st nextUrl :
  HttpFirstBlocking.blocked (HttpFirst.r_body (fetchHttp nextUrl))
                            (HttpFirst.r_statusCode (fetchHttp nextUrl)) = false ->
  findNextPageUrl (HttpFirst.r_body (fetchHttp nextUrl))
                  (HttpFirst.r_url (fetchHttp nextUrl)) = "" ->
  mainLoop (S fuel) st nextUrl = mainLoop 1 st nextUrl.
Proof.
  intros Hb Hnone. cbn [HttpFirst.mainLoop].
  destruct (falsy nextUrl); [reflexivity|].
  destruct (limitReached maxPages _); [reflexivity|].
  destruct (limitReached maxLawyers _); [reflexivity|].
  rewrite Hb.
  destruct (HttpFirst.cascade _ _ _ _ _ _ _ _ _) as [st1 lawyers].
  destruct (limitReached maxLawyers _); [reflexivity|].
  rewrite Hnone. reflexivity.
Qed.

End HttpFirstFacts.

(** C2 (as stated, on src/main.js lines 689-701): the CheerioCrawler
    program re-fetches a blocked listing page over the same lightweight
    transport. *)
Lemma c2_cheerio_never_renders :
  ~ escalates_one_way (Fixture.cheerioRun 50 5 10 Fixture.pageDenied).2.
Proof.
  remember (Fixture.cheerioRun 50 5 10 Fixture.pageDenied).2 as tr eqn:Htr.
  vm_compute in Htr. subst tr. intros [_ H].
  edestruct (H 0%nat) as [Hnext _]; [reflexivity..|].
  edestruct (Hnext _ eq_refl) as [Hmode _]. discriminate.
Qed.

(** C2 (amended): in part_001 the run starts in lightweight mode, the first
    listing fetch classified as blocked is followed at once by a rendered
    fetch of the same URL, and every later fetch is rendered.  In the
    CheerioCrawler program of src/main.js every fetch is lightweight: a
    blocked listing page makes the handler throw while [retryCount < 2], and
    the crawler retries it over the same transport. *)
Theorem c2_one_way_escalation :
  (forall maxLawyers maxPages fetchFullProfiles fetchHttp pageContent Json safeJsonParse
          extractLawyersFromJsonObject tryExtractApiUrlFromHtml
          extractListingViaEmbeddedJson extractListingViaHtml findNextPageUrl
          detailEmail detailBiography detailEducation detailBarAdmissions detailLanguages
          fuel searchUrl,
      escalates_one_way
        (HttpFirst.trace
           (HttpFirst.run maxLawyers maxPages fetchFullProfiles fetchHttp pageContent
              Json safeJsonParse extractLawyersFromJsonObject tryExtractApiUrlFromHtml
              extractListingViaEmbeddedJson extractListingViaHtml findNextPageUrl
              detailEmail detailBiography detailEducation detailBarAdmissions
              detailLanguages fuel searchUrl))) /\
  (forall maxLawyers maxPages fetchFullProfiles fetchHttp pageContent Json safeJsonParse
          extractLawyersFromJsonObject tryExtractApiUrlFromHtml
          extractListingViaEmbeddedJson extractListingViaHtml findNextPageUrl
          detailEmail detailBiography detailEducation detailBarAdmissions detailLanguages
          fuel st nextUrl,
      nextUrl <> "" ->
      limitReached maxPages (HttpFirst.pagesProcessed st) = false ->
      limitReached maxLawyers (HttpFirst.totalScraped st) = false ->
      HttpFirstBlocking.blocked (HttpFirst.r_body (fetchHttp nextUrl))
                                (HttpFirst.r_statusCode (fetchHttp nextUrl)) = true ->
      exists rd,
        HttpFirst.trace
          (HttpFirst.mainLoop maxLawyers maxPages fetchFullProfiles fetchHttp pageContent
             Json safeJsonParse extractLawyersFromJsonObject tryExtractApiUrlFromHtml
             extractListingViaEmbeddedJson extractListingViaHtml findNextPageUrl
             detailEmail detailBiography detailEducation detailBarAdmissions
             detailLanguages (S (S fuel)) st nextUrl)
        = HttpFirst.trace st
          ++ [mkFetch Lightweight Listing nextUrl true;
              mkFetch Rendered Listing nextUrl false]
          ++ rd /\
        Forall renderedListing rd) /\
  (forall maxLawyers maxPages fetchFullProfiles extractLawyersFromJsonLdHtml
          extractLawyersFromNextData extractListingViaHtml findNextPageUrl
          enrichProfileWithDetailsHttp fetch,
      (forall fuel searchUrl,
          Forall (fun e => fetchMode e = Lightweight)
                 (Cheerio.run maxLawyers maxPages fetchFullProfiles
                    extractLawyersFromJsonLdHtml extractLawyersFromNextData
                    extractListingViaHtml findNextPageUrl enrichProfileWithDetailsHttp
                    fetch fuel searchUrl).2) /\
      (forall st request response,
          CheerioBlocking.blocked (body response) (statusCode response) = true ->
          retryCount request < 2 ->
          Cheerio.requestHandler maxLawyers maxPages fetchFullProfiles
            extractLawyersFromJsonLdHtml extractLawyersFromNextData
            extractListingViaHtml findNextPageUrl enrichProfileWithDetailsHttp
            st request response = Cheerio.Throw)).
Proof.
  split; [|split].
  - intros. unfold HttpFirst.run.
    match goal with |- context [HttpFirst.mainLoop ?a ?b ?c ?d ?e ?f ?g ?h ?i ?j ?k ?l ?m ?n ?o ?p ?q ?fu ?s ?u] =>
      destruct (mainLoop_trace a b c d e f g h i j k l m n o p q fu s u)
        as (lw & rest & Ht & Hlw & Hrest) end.
    rewrite Ht. simpl.
    destruct Hrest as [-> | (u & rd & -> & Hrd & Hhead)].
    + rewrite app_nil_r. now apply unblocked_escalates.
    + now apply blocked_then_rendered_escalates.
  - intros. now apply mainLoop_refetch.
  - intros. split.
    + intros. unfold Cheerio.run. apply crawl_lightweight. constructor.
    + intros. now apply requestHandler_blocked_throws.
Qed.

(** Page 1 over HTTP, page 2 answered with 429: the run goes on in the
    browser, starting with page 2. *)
Lemma c2_one_way_escalation_witness :
  exists rd,
    HttpFirst.trace (FixtureHttp.run 50 5 4 Fixture.page2)
    = [] ++ [mkFetch Lightweight Listing Fixture.page2 true;
             mkFetch Rendered Listing Fixture.page2 false] ++ rd /\
    Forall renderedListing rd.
Proof.
  destruct c2_one_way_escalation as (_ & H & _).
  apply (H 50 5 false FixtureHttp.fetchHttp FixtureHttp.pageContent unit
           (fun _ => None) (fun _ _ => []) (fun _ _ => "") (fun _ _ => [])
           Fixture.extractListingViaHtml Fixture.findNextPageUrl
           (fun _ => "") (fun _ => "") (fun _ => []) (fun _ => []) (fun _ => [])
           2%nat HttpFirst.initial Fixture.page2).
  - discriminate.
  - reflexivity.
  - reflexivity.
  - reflexivity.
Defined.

(** ** Pagination resolver *)

(** *** Lists: the first member with a property *)

Section FirstWith.

Import PaginationSpec.

Context {A : Type}.

Lemma head_filter_first (f : A -> bool) (l : list A) (x : A) :
  head (List.filter f l) = Some x <-> firstWith (fun y => f y = true) l x.
Proof.
  induction l as [|a l IH]; simpl.
  - split; [discriminate|]. intros (before & after & Heq & _). now destruct before.
  - destruct (f a) eqn:Hfa; simpl.
    + split.
      * intros [= ->]. exists [], l. repeat split; [exact Hfa | constructor].
      * intros (before & after & Heq & Hx & Hbefore).
        destruct before as [|b before]; simpl in Heq.
        -- now injection Heq as ->.
        -- injection Heq as -> _. apply Forall_cons_1 in Hbefore as [Hb _].
           now contradiction Hb.
    + rewrite IH. split.
      * intros (before & after & -> & Hx & Hbefore).
        exists (a :: before), after. repeat split; [exact Hx|].
        constructor; [congruence | exact Hbefore].
      * intros (before & after & Heq & Hx & Hbefore).
        destruct before as [|b before]; simpl in Heq.
        -- injection Heq as -> _. congruence.
        -- injection Heq as -> ->. apply Forall_cons_1 in Hbefore as [_ Hbefore].
           exists before, after. repeat split; assumption.
Qed.

Lemma firstWith_iff (P Q : A -> Prop) (l : list A) (x : A) :
  (forall y, P y <-> Q y) -> firstWith P l x <-> firstWith Q l x.
Proof.
  intros HPQ. unfold firstWith. split; intros (before & after & Heq & Hx & Hbefore);
    exists before, after; (split; [exact Heq|]); (split; [now apply HPQ|]);
    (eapply Forall_impl; [exact Hbefore|]); intros y Hy Hq; apply Hy; now apply HPQ.
Qed.

Lemma filter_filter_and (f g : A -> bool) (l : list A) :
  List.filter g (List.filter f l) = List.filter (fun x => f x && g x) l.
Proof.
  induction l as [|a l IH]; simpl; [reflexivity|].
  destruct (f a); simpl; [destruct (g a); now rewrite IH | exact IH].
Qed.

Lemma filter_ext_bool (f g : A -> bool) (l : list A) :
  (forall x, f x = g x) -> List.filter f l = List.filter g l.
Proof. intros H. induction l as [|x l IH]; simpl; [reflexivity|]. now rewrite H, IH. Qed.

End FirstWith.

Lemma filter_map_snd {A B} (g : B -> bool) (l : list (A * B)) :
  List.filter g (map snd l) = map snd (List.filter (fun p => g p.2) l).
Proof.
  induction l as [|[a b] l IH]; simpl; [reflexivity|].
  destruct (g b); simpl; now rewrite IH.
Qed.

Lemma head_map_snd {A B} (l : list (A * B)) (b : B) :
  head (map snd l) = Some b <-> exists p, head l = Some p /\ p.2 = b.
Proof.
  destruct l as [|[a b'] l]; simpl.
  - split; [discriminate | intros (p & H & _); discriminate].
  - split; [intros [= <-]; now exists (a, b') | intros (p & [= <-] & <-); reflexivity].
Qed.

(** *** The document: elements and their ancestors *)

Section DomFacts.

Import Dom PaginationSpec.

(** Induction on a tree, the children of an element included. *)
Lemma node_induction (P : node -> Prop) :
  (forall s, P (Text s)) ->
  (forall tag attrs kids, Forall P kids -> P (Elem tag attrs kids)) ->
  forall n, P n.
Proof.
  intros HText HElem.
  fix IH 1. intros [s|tag attrs kids]; [apply HText|].
  apply HElem.
  exact ((fix all (ks : list node) : Forall P ks :=
            match ks with
            | [] => @List.Forall_nil node P
            | k :: ks' => @List.Forall_cons node P k ks' (IH k) (all ks')
            end) kids).
Qed.

Lemma flat_map_ext_Forall {A B} (f g : A -> list B) (l : list A) :
  Forall (fun x => f x = g x) l -> flat_map f l = flat_map g l.
Proof. induction 1 as [|x l Hx _ IH]; simpl; [reflexivity|]. now rewrite Hx, IH. Qed.

Lemma filter_flat_map {A B} (g : B -> bool) (f : A -> list B) (l : list A) :
  List.filter g (flat_map f l) = flat_map (fun x => List.filter g (f x)) l.
Proof.
  induction l as [|x l IH]; simpl; [reflexivity|]. now rewrite List.filter_app, IH.
Qed.

Lemma map_flat_map {A B C} (h : B -> C) (f : A -> list B) (l : list A) :
  map h (flat_map f l) = flat_map (fun x => map h (f x)) l.
Proof.
  induction l as [|x l IH]; simpl; [reflexivity|]. now rewrite map_app, IH.
Qed.

(** The elements inside a container are the placed elements one of whose
    ancestors is a container. *)
Lemma inside_placed (c : node -> bool) (n : node) : forall ancestors,
  inside c (existsb c ancestors) n
  = map snd (List.filter (fun p => existsb c p.1) (placed ancestors n)).
Proof.
  induction n as [s|tag attrs kids IH] using node_induction; intros ancestors;
    [reflexivity|].
  cbn [inside placed List.filter fst].
  assert (flat_map (inside c (existsb c ancestors || c (Elem tag attrs kids))) kids
          = map snd (List.filter (fun p => existsb c p.1)
                       (flat_map (placed (Elem tag attrs kids :: ancestors)) kids)))
    as Hkids.
  { rewrite filter_flat_map, map_flat_map. apply flat_map_ext_Forall.
    eapply Forall_impl; [exact IH|]. intros k Hk. cbn beta.
    rewrite <- Hk. cbn [existsb]. now rewrite orb_comm. }
  rewrite Hkids. now destruct (existsb c ancestors).
Qed.

Lemma find_placed (c m : node -> bool) (doc : list node) :
  find c m doc
  = map snd (List.filter (fun p => existsb c p.1 && m p.2) (placedElements doc)).
Proof.
  unfold find, placedElements.
  assert (flat_map (inside c false) doc
          = map snd (List.filter (fun p => existsb c p.1) (flat_map (placed []) doc)))
    as ->.
  { rewrite filter_flat_map, map_flat_map. apply flat_map_ext_Forall, Forall_forall.
    intros n _. apply (inside_placed c n []). }
  now rewrite filter_map_snd, filter_filter_and.
Qed.

(** An ancestor of a placed element is one of the given ancestors or an
    element of the tree. *)
Lemma placed_ancestor (n : node) : forall ancestors p a,
  p ∈ placed ancestors n -> a ∈ p.1 -> a ∈ ancestors \/ a ∈ elements n.
Proof.
  induction n as [s|tag attrs kids IH] using node_induction; intros ancestors p a Hp Ha;
    [now apply elem_of_nil in Hp|].
  cbn [placed elements] in *. apply elem_of_cons in Hp as [-> | Hp]; [now left|].
  apply list_elem_of_In, in_flat_map in Hp as (k & Hk & Hp).
  rewrite Forall_forall in IH.
  destruct (IH k (proj2 (list_elem_of_In _ _) Hk) (Elem tag attrs kids :: ancestors) p a)
    as [Hin | Hin]; [now apply list_elem_of_In | exact Ha | |].
  - apply elem_of_cons in Hin as [-> | Hin]; [right; left | now left].
  - right. right. apply list_elem_of_In, in_flat_map. exists k. split; [exact Hk|].
    now apply list_elem_of_In.
Qed.

Lemma find_container (c m : node -> bool) (doc : list node) :
  find c m doc <> [] -> select c doc <> [].
Proof.
  rewrite find_placed. intros Hne.
  destruct (List.filter _ (placedElements doc)) as [|p rest] eqn:Hf; [now contradiction Hne|].
  assert (In p (List.filter (fun p => existsb c p.1 && m p.2) (placedElements doc))) as Hp
    by (rewrite Hf; now left).
  apply List.filter_In in Hp as [Hp Hc]. apply andb_true_iff in Hc as [Hc _].
  apply existsb_exists in Hc as (a & Ha & Hca).
  unfold placedElements in Hp. apply in_flat_map in Hp as (n & Hn & Hp).
  destruct (placed_ancestor n [] p a) as [Hin | Hin];
    [now apply list_elem_of_In | now apply list_elem_of_In | now apply elem_of_nil in Hin|].
  intros Hsel.
  assert (In a (select c doc)) as Hina.
  { unfold select. apply List.filter_In. split; [|exact Hca].
    apply in_flat_map. exists n. split; [exact Hn | now apply list_elem_of_In]. }
  rewrite Hsel in Hina. contradiction.
Qed.

(** *** The selectors and the properties they stand for *)

Lemma isTag_spec tag n : isTag tag n = true <-> isElement tag n.
Proof.
  destruct n as [s|t attrs kids]; simpl.
  - split; [discriminate | intros (? & ? & ?); discriminate].
  - rewrite String.eqb_eq. split.
    + intros ->. now exists attrs, kids.
    + intros (a & k & [= -> _ _]). reflexivity.
Qed.

Lemma attrIs_spec name v n : attrIs name v n = true <-> attr name n = Some v.
Proof.
  unfold attrIs. destruct (attr name n) as [w|]; [|split; discriminate].
  rewrite String.eqb_eq. split; congruence.
Qed.

Lemma attrIncludes_spec name part n :
  attrIncludes name part n = true <-> exists v, attr name n = Some v /\ contains v part.
Proof.
  unfold attrIncludes. destruct (attr name n) as [w|].
  - rewrite includes_spec. split; [intros H; now exists w | intros (v & [= <-] & H); exact H].
  - split; [discriminate | intros (v & H & _); discriminate].
Qed.

Lemma hasClass_spec word n : hasClass word n = true <-> hasClassWord word n.
Proof.
  unfold hasClass, hasClassWord. destruct (attr "class" n) as [v|].
  - rewrite existsb_exists. split.
    + intros (x & Hx & Heq). apply String.eqb_eq in Heq as <-.
      exists v. split; [reflexivity | now apply list_elem_of_In].
    + intros (w & [= <-] & Hin). exists word.
      split; [now apply list_elem_of_In | apply String.eqb_refl].
  - split; [discriminate | intros (v & H & _); discriminate].
Qed.

Lemma relNextAnchor_spec n : Pagination.relNextAnchor n = true <-> relNextLink n.
Proof.
  unfold Pagination.relNextAnchor, relNextLink, attrIsNoCase, sameUpToCase.
  rewrite andb_true_iff, isTag_spec.
  destruct (attr "rel" n) as [rel|].
  - rewrite andb_true_iff, Nat.eqb_eq, String.eqb_eq. split.
    + intros (Ha & Hlen & Hlow). split; [exact Ha|]. exists rel. auto.
    + intros (Ha & r & [= <-] & Hlen & Hlow). auto.
  - split; [intros [_ H]; discriminate | intros (_ & r & H & _); discriminate].
Qed.

Lemma ariaNextAnchor_spec n : Pagination.ariaNextAnchor n = true <-> ariaNextLink n.
Proof.
  unfold Pagination.ariaNextAnchor, ariaNextLink.
  rewrite andb_true_iff, orb_true_iff, isTag_spec, !attrIncludes_spec. split.
  - intros (Ha & [(v & Hv & Hc) | (v & Hv & Hc)]); (split; [exact Ha|]); exists v; auto.
  - intros (Ha & v & Hv & [Hc | Hc]); (split; [exact Ha|]); [left | right]; now exists v.
Qed.

Lemma nextTokens_spec t :
  String.eqb t "next" || String.eqb t "next ›" || String.eqb t "›" || String.eqb t ">" = true
  <-> t ∈ nextTokens.
Proof.
  unfold nextTokens. rewrite !orb_true_iff, !String.eqb_eq, !elem_of_cons, elem_of_nil.
  tauto.
Qed.

Lemma nextTextAnchor_spec n :
  isTag "a" n && Pagination.nextTextAnchor n = true <-> nextTextLink n.
Proof.
  unfold Pagination.nextTextAnchor, nextTextLink, visibleText. cbv zeta.
  rewrite andb_true_iff, isTag_spec, orb_true_iff, nextTokens_spec, includes_spec.
  reflexivity.
Qed.

Lemma nextTextAnchor_httpFirst_spec n :
  isTag "a" n && PaginationHttpFirst.nextTextAnchor n = true <-> nextTokenLink n.
Proof.
  unfold PaginationHttpFirst.nextTextAnchor, nextTokenLink, visibleText. cbv zeta.
  rewrite andb_true_iff, isTag_spec, nextTokens_spec. reflexivity.
Qed.

Lemma paginationContainer_spec n :
  Pagination.paginationContainer n = true <-> paginationContainer n.
Proof.
  unfold Pagination.paginationContainer, paginationContainer.
  rewrite !orb_true_iff, andb_true_iff, !hasClass_spec, isTag_spec, attrIs_spec. tauto.
Qed.

Lemma currentMarker_spec n : Pagination.currentMarker n = true <-> currentMarker n.
Proof.
  unfold Pagination.currentMarker, currentMarker.
  rewrite !orb_true_iff, andb_true_iff, !hasClass_spec, isTag_spec, attrIs_spec. tauto.
Qed.

Lemma paginationContainer_httpFirst_spec n :
  PaginationHttpFirst.paginationContainer n = true <-> paginationClass n.
Proof. apply hasClass_spec. Qed.

Lemma currentMarker_httpFirst_spec n :
  PaginationHttpFirst.currentMarker n = true <-> currentMarkerHttpFirst n.
Proof.
  unfold PaginationHttpFirst.currentMarker, currentMarkerHttpFirst.
  rewrite !orb_true_iff, andb_true_iff, !hasClass_spec, isTag_spec, attrIs_spec. tauto.
Qed.

End DomFacts.

(** *** The resolver against the rules *)

Section ResolverFacts.

Import Dom PaginationSpec.

Variable nextText container marker : node -> bool.
Variable nextTextP containerP markerP : node -> Prop.

Hypothesis nextText_spec : forall n, isTag "a" n && nextText n = true <-> nextTextP n.
Hypothesis container_spec : forall n, container n = true <-> containerP n.
Hypothesis marker_spec : forall n, marker n = true <-> markerP n.

Abbreviation firstStep := (Pagination.firstStep nextText container marker).
Abbreviation stepPageNumber := (Pagination.stepPageNumber container marker).

Lemma truthy_some v href : Pagination.truthy v = Some href <-> v = Some href /\ href <> "".
Proof using Type.
  destruct v as [x|]; simpl; [|split; [discriminate | intros [? _]; discriminate]].
  destruct (falsy x) eqn:Hf.
  - apply falsy_spec in Hf as ->.
    split; [discriminate | intros [[= <-] H]; now contradiction H].
  - split.
    + intros [= ->]. split; [reflexivity|]. intros ->. discriminate.
    + now intros [[= ->] _].
Qed.

Lemma attrOfFirst_head name (sel : list node) :
  attrOfFirst name sel = head sel ≫= attr name.
Proof using Type. now destruct sel. Qed.

(** A step that reads the target of the first element a selector finds. *)
Lemma step_target (f : node -> bool) (P : node -> Prop) doc href :
  (forall n, f n = true <-> P n) ->
  Pagination.truthy (attrOfFirst "href" (select f doc)) = Some href <-> target P doc href.
Proof using Type.
  intros Hspec. unfold target, select.
  rewrite truthy_some, attrOfFirst_head. split.
  - intros [Hattr Hne].
    destruct (head (List.filter f (flat_map elements doc))) as [n|] eqn:Hhead;
      [|discriminate].
    exists n. split; [|split; [exact Hattr | exact Hne]].
    apply (firstWith_iff (fun y => f y = true) P); [exact Hspec|].
    now apply head_filter_first.
  - intros (n & Hfirst & Hattr & Hne). split; [|exact Hne].
    apply (firstWith_iff (fun y => f y = true) P) in Hfirst; [|exact Hspec].
    apply head_filter_first in Hfirst. now rewrite Hfirst.
Qed.

Lemma stepRelNext_spec doc href :
  Pagination.stepRelNext doc = Some href <-> ruleA doc href.
Proof using Type. apply step_target, relNextAnchor_spec. Qed.

Lemma stepNextText_spec doc href :
  Pagination.stepNextText nextText doc = Some href <-> ruleB nextTextP doc href.
Proof using nextText_spec.
  unfold Pagination.stepNextText, ruleB.
  unfold select at 1. rewrite filter_filter_and. apply (step_target _ nextTextP doc href).
  exact nextText_spec.
Qed.

Lemma stepAriaNext_spec doc href :
  Pagination.stepAriaNext doc = Some href <-> ruleC doc href.
Proof using Type. apply step_target, ariaNextAnchor_spec. Qed.

Lemma inContainer_spec (p : list node * node) :
  existsb container p.1 = true <-> inContainer containerP p.
Proof using container_spec.
  unfold inContainer. rewrite existsb_exists, Exists_exists. split.
  - intros (a & Ha & Hc). exists a. split; [now apply list_elem_of_In | now apply container_spec].
  - intros (a & Ha & Hc). exists a. split; [now apply list_elem_of_In | now apply container_spec].
Qed.

(** The first element that [find] gives, as a placed element. *)
Lemma head_find (m : node -> bool) (M : node -> Prop) doc n :
  (forall x, m x = true <-> M x) ->
  head (find container m doc) = Some n <->
  exists p, firstWith (fun p => inContainer containerP p /\ M p.2) (placedElements doc) p
            /\ p.2 = n.
Proof using container_spec.
  intros Hm. rewrite find_placed, head_map_snd.
  split; intros (p & Hp & Hn); exists p; (split; [|exact Hn]).
  - apply head_filter_first in Hp. revert Hp. apply firstWith_iff.
    intros q. rewrite andb_true_iff, inContainer_spec, Hm. reflexivity.
  - apply head_filter_first. revert Hp. apply firstWith_iff.
    intros q. rewrite andb_true_iff, inContainer_spec, Hm. reflexivity.
Qed.

Lemma stepPageNumber_spec doc href :
  stepPageNumber doc = Some href <-> ruleD containerP markerP doc href.
Proof using container_spec marker_spec.
  unfold Pagination.stepPageNumber, ruleD, visibleText.
  set (isNext N := fun el : node =>
         strictEquals (parseInt (trim (text el))) (plus1 N)).
  assert (forall N el, (isTag "a" el && isNext N el = true) <->
                       (isElement "a" el /\
                        strictEquals (parseInt (trim (text el))) (plus1 N) = true)) as Hnext.
  { intros N el. now rewrite andb_true_iff, isTag_spec. }
  assert (forall N, List.filter (isNext N) (find container (isTag "a") doc)
                    = find container (fun el => isTag "a" el && isNext N el) doc) as Hfilter.
  { intros N. unfold find. now rewrite filter_filter_and. }
  split.
  - intros Hstep.
    destruct (head (select container doc)) as [c|]; [|discriminate]. cbn in Hstep.
    destruct (head (find container marker doc)) as [current|] eqn:Hcur; [|discriminate].
    cbn in Hstep.
    destruct (parseInt (trim (text current))) as [| |N] eqn:Hparse; try discriminate.
    apply truthy_some in Hstep as [Hattr Hne].
    rewrite attrOfFirst_head in Hattr. fold (isNext N) in Hattr. rewrite Hfilter in Hattr.
    destruct (head (find container (fun el => isTag "a" el && isNext N el) doc))
      as [next|] eqn:Hnx; [|discriminate].
    apply (head_find marker markerP) in Hcur as (pc & Hpc & Hpc2); [|exact marker_spec].
    apply (head_find _ _ doc next (Hnext N)) in Hnx as (pn & Hpn & Hpn2).
    exists pc, N, pn. rewrite Hpc2, Hpn2. repeat split; assumption.
  - intros (pc & N & pn & Hpc & Hparse & Hpn & Hattr & Hne).
    assert (head (find container marker doc) = Some pc.2) as Hcur.
    { apply (head_find marker markerP); [exact marker_spec | now exists pc]. }
    assert (head (select container doc) <> None) as Hsel.
    { intros Hnone. apply (find_container container marker doc).
      - intros Hnil. rewrite Hnil in Hcur. discriminate.
      - destruct (select container doc); [reflexivity | discriminate]. }
    destruct (head (select container doc)) as [c|]; [|now contradiction Hsel]. cbn.
    rewrite Hcur. cbn. rewrite Hparse.
    apply truthy_some. split; [|exact Hne].
    rewrite attrOfFirst_head. fold (isNext N). rewrite Hfilter.
    assert (head (find container (fun el => isTag "a" el && isNext N el) doc) = Some pn.2)
      as ->.
    { apply (head_find _ _ doc pn.2 (Hnext N)). exists pn. split; [|reflexivity].
      revert Hpn. apply firstWith_iff. intros q. tauto. }
    exact Hattr.
Qed.

Lemma step_none {rule : list node -> string -> Prop} (step : list node -> option string) doc :
  (forall href, step doc = Some href <-> rule doc href) ->
  step doc = None <-> ~ matches rule doc.
Proof using Type.
  intros Hspec. unfold matches. split.
  - intros Hnone (href & Hr). apply Hspec in Hr. congruence.
  - intros Hno. destruct (step doc) as [href|] eqn:Hs; [|reflexivity].
    exfalso. apply Hno. exists href. now apply Hspec.
Qed.

Lemma firstStep_some doc href :
  firstStep doc = Some href <-> firstRule nextTextP containerP markerP doc href.
Proof using nextText_spec container_spec marker_spec.
  unfold Pagination.firstStep, firstRule.
  pose proof (step_none Pagination.stepRelNext doc (stepRelNext_spec doc)) as Ha.
  pose proof (step_none (Pagination.stepNextText nextText) doc (stepNextText_spec doc)) as Hb.
  pose proof (step_none Pagination.stepAriaNext doc (stepAriaNext_spec doc)) as Hc.
  rewrite <- stepRelNext_spec, <- stepNextText_spec, <- stepAriaNext_spec,
    <- stepPageNumber_spec, <- Ha, <- Hb, <- Hc.
  destruct (Pagination.stepRelNext doc) as [a|].
  { split; [intros [= ->]; now left|].
    intros [H | [[H _] | [[H _] | [H _]]]]; [exact H | discriminate..]. }
  destruct (Pagination.stepNextText nextText doc) as [b|].
  { split; [intros [= ->]; right; left; now split|].
    intros [H | [[_ H] | [(_ & H & _) | (_ & H & _)]]]; [discriminate | exact H | discriminate..]. }
  destruct (Pagination.stepAriaNext doc) as [c|].
  { split; [intros [= ->]; right; right; left; now repeat split|].
    intros [H | [[_ H] | [(_ & _ & H) | (_ & _ & H & _)]]];
      [discriminate | discriminate | exact H | discriminate]. }
  split; [intros H; right; right; right; now repeat split|].
  intros [H | [[_ H] | [(_ & _ & H) | (_ & _ & _ & H)]]];
    [discriminate | discriminate | discriminate | exact H].
Qed.

Lemma firstStep_none doc :
  firstStep doc = None <-> noRule nextTextP containerP markerP doc.
Proof using nextText_spec container_spec marker_spec.
  unfold Pagination.firstStep, noRule.
  rewrite <- (step_none Pagination.stepRelNext doc (stepRelNext_spec doc)),
    <- (step_none (Pagination.stepNextText nextText) doc (stepNextText_spec doc)),
    <- (step_none Pagination.stepAriaNext doc (stepAriaNext_spec doc)),
    <- (step_none stepPageNumber doc (stepPageNumber_spec doc)).
  destruct (Pagination.stepRelNext doc);
    [split; [discriminate | intros [H _]; discriminate]|].
  destruct (Pagination.stepNextText nextText doc);
    [split; [discriminate | intros (_ & H & _); discriminate]|].
  destruct (Pagination.stepAriaNext doc);
    [split; [discriminate | intros (_ & _ & H & _); discriminate]|].
  split; [intros H; now repeat split | now intros (_ & _ & _ & H)].
Qed.

Variable newURL : string -> string -> option string.

Abbreviation resolve := (Pagination.resolve newURL nextText container marker).

Lemma resolve_firstStep doc pageUrl :
  resolve doc pageUrl =
  match firstStep doc with
  | Some href => absoluteUrl newURL href pageUrl
  | None => ""
  end.
Proof using Type.
  unfold Pagination.resolve, Pagination.firstStep, Pagination.stepRelNext,
    Pagination.stepNextText, Pagination.stepAriaNext, Pagination.stepPageNumber.
  cbv zeta.
  destruct (Pagination.truthy (attrOfFirst "href" (select Pagination.relNextAnchor doc)));
    [reflexivity|].
  destruct (Pagination.truthy (attrOfFirst "href" (List.filter nextText _)));
    [reflexivity|].
  destruct (Pagination.truthy (attrOfFirst "href" (select Pagination.ariaNextAnchor doc)));
    [reflexivity|].
  destruct (select container doc) as [|c cs]; [reflexivity|]. simpl.
  destruct (find container marker doc) as [|current rest]; [reflexivity|]. simpl.
  destruct (parseInt (trim (text current))) as [| |N]; reflexivity.
Qed.

(** The resolver returns what the rules ask for, and nothing else. *)
Lemma resolve_spec doc pageUrl url :
  resolve doc pageUrl = url <->
  resolves nextTextP containerP markerP newURL doc pageUrl url.
Proof using nextText_spec container_spec marker_spec.
  rewrite resolve_firstStep. unfold resolves.
  destruct (firstStep doc) as [href|] eqn:Hstep.
  - apply firstStep_some in Hstep. split.
    + intros <-. left. now exists href.
    + intros [(h & Hh & ->) | [Hnone _]].
      * apply firstStep_some in Hstep, Hh. congruence.
      * apply firstStep_none in Hnone. apply firstStep_some in Hstep. congruence.
  - apply firstStep_none in Hstep. split.
    + intros <-. now right.
    + intros [(h & Hh & ->) | [_ ->]]; [|reflexivity].
      apply firstStep_some in Hh. apply firstStep_none in Hstep. congruence.
Qed.

Lemma resolve_noRule doc pageUrl :
  noRule nextTextP containerP markerP doc -> resolve doc pageUrl = "".
Proof using nextText_spec container_spec marker_spec.
  intros Hnone. apply resolve_spec. now right.
Qed.

End ResolverFacts.

(** *** Numbers below 2^53 *)

Lemma toNumber_safe z : - 2 ^ 53 < z < 2 ^ 53 -> Dom.toNumber z = Dom.Finite z.
Proof.
  intros Hz. unfold Dom.toNumber, Dom.roundToDouble.
  replace (Z.abs z <? 2 ^ 53) with true by (symmetry; apply Z.ltb_lt; lia).
  f_equal. lia.
Qed.

Lemma findNextPageUrl_spec newURL doc pageUrl url :
  Pagination.findNextPageUrl newURL doc pageUrl = url <->
  PaginationSpec.resolves PaginationSpec.nextTextLink PaginationSpec.paginationContainer
    PaginationSpec.currentMarker newURL doc pageUrl url.
Proof.
  apply resolve_spec;
    [apply nextTextAnchor_spec | apply paginationContainer_spec | apply currentMarker_spec].
Qed.

Lemma findNextPageUrl_httpFirst_spec newURL doc pageUrl url :
  PaginationHttpFirst.findNextPageUrl newURL doc pageUrl = url <->
  PaginationSpec.resolves PaginationSpec.nextTokenLink PaginationSpec.paginationClass
    PaginationSpec.currentMarkerHttpFirst newURL doc pageUrl url.
Proof.
  apply resolve_spec;
    [apply nextTextAnchor_httpFirst_spec | apply paginationContainer_httpFirst_spec
    | apply currentMarker_httpFirst_spec].
Qed.

(** The executable form of "no rule has a target", for a given page. *)
Lemma noRule_decide doc :
  Pagination.firstStep Pagination.nextTextAnchor Pagination.paginationContainer
    Pagination.currentMarker doc = None ->
  PaginationSpec.noRule PaginationSpec.nextTextLink PaginationSpec.paginationContainer
    PaginationSpec.currentMarker doc.
Proof.
  apply firstStep_none;
    [apply nextTextAnchor_spec | apply paginationContainer_spec | apply currentMarker_spec].
Qed.

Lemma noRule_httpFirst_decide doc :
  Pagination.firstStep PaginationHttpFirst.nextTextAnchor
    PaginationHttpFirst.paginationContainer PaginationHttpFirst.currentMarker doc = None ->
  PaginationSpec.noRule PaginationSpec.nextTokenLink PaginationSpec.paginationClass
    PaginationSpec.currentMarkerHttpFirst doc.
Proof.
  apply firstStep_none;
    [apply nextTextAnchor_httpFirst_spec | apply paginationContainer_httpFirst_spec
    | apply currentMarker_httpFirst_spec].
Qed.

(** C7: [findNextPageUrl] returns exactly what the four rules ask for, in
    their order: the absolute form of the target of (a) the first anchor
    whose [rel] is "next" up to case, else (b) the first anchor whose
    trimmed, lower-cased text is a "next" token (or holds "next page"),
    else (c) the first anchor whose [aria-label] holds "Next" or "next",
    else (d) the first anchor inside a pagination container whose text
    parses to the number of the first current-page marker plus one; a rule
    whose first element has no target is passed over, and with no rule
    left the result is the empty string.  part_001 has the same rules with
    fewer tokens, containers and markers.  "Plus one" is the addition of
    JavaScript numbers, the successor below 2^53.  A page on which no rule
    has a target ends the crawl of src/main.js and the loop of part_001
    with that page, the handler returning normally. *)
Theorem c7_pagination_resolver :
  (forall newURL doc pageUrl url,
      Pagination.findNextPageUrl newURL doc pageUrl = url <->
      PaginationSpec.resolves PaginationSpec.nextTextLink
        PaginationSpec.paginationContainer PaginationSpec.currentMarker
        newURL doc pageUrl url) /\
  (forall newURL doc pageUrl url,
      PaginationHttpFirst.findNextPageUrl newURL doc pageUrl = url <->
      PaginationSpec.resolves PaginationSpec.nextTokenLink
        PaginationSpec.paginationClass PaginationSpec.currentMarkerHttpFirst
        newURL doc pageUrl url) /\
  (forall z, - 2 ^ 53 < z < 2 ^ 53 -> Dom.toNumber z = Dom.Finite z) /\
  (forall N, - 2 ^ 53 < N + 1 < 2 ^ 53 -> Dom.plus1 N = Dom.Finite (N + 1)) /\
  (forall newURL (load : string -> list Dom.node) maxLawyers maxPages fetchFullProfiles
          extractLawyersFromJsonLdHtml extractLawyersFromNextData extractListingViaHtml
          enrichProfileWithDetailsHttp fetch fuel st request handled queued trace,
      let findNextPageUrl := fun html => Pagination.findNextPageUrl newURL (load html) in
      PaginationSpec.noRule PaginationSpec.nextTextLink PaginationSpec.paginationContainer
        PaginationSpec.currentMarker (load (body (fetch (url request)))) ->
      limitReached maxPages handled = false ->
      Cheerio.requestHandler maxLawyers maxPages fetchFullProfiles
        extractLawyersFromJsonLdHtml extractLawyersFromNextData
        extractListingViaHtml findNextPageUrl enrichProfileWithDetailsHttp
        st request (fetch (url request)) <> Cheerio.Throw ->
      exists st' e,
        Cheerio.requestHandler maxLawyers maxPages fetchFullProfiles
          extractLawyersFromJsonLdHtml extractLawyersFromNextData
          extractListingViaHtml findNextPageUrl enrichProfileWithDetailsHttp
          st request (fetch (url request)) = Cheerio.Return st' None /\
        Cheerio.crawl maxLawyers maxPages fetchFullProfiles
          extractLawyersFromJsonLdHtml extractLawyersFromNextData
          extractListingViaHtml findNextPageUrl enrichProfileWithDetailsHttp
          fetch (S fuel) st request handled queued trace
        = (st', trace ++ [e])) /\
  (forall newURL (load : string -> list Dom.node) maxLawyers maxPages fetchFullProfiles
          fetchHttp pageContent Json safeJsonParse extractLawyersFromJsonObject
          tryExtractApiUrlFromHtml extractListingViaEmbeddedJson extractListingViaHtml
          detailEmail detailBiography detailEducation detailBarAdmissions detailLanguages
          fuel st nextUrl,
      let findNextPageUrl :=
        fun html => PaginationHttpFirst.findNextPageUrl newURL (load html) in
      HttpFirstBlocking.blocked (HttpFirst.r_body (fetchHttp nextUrl))
                                (HttpFirst.r_statusCode (fetchHttp nextUrl)) = false ->
      PaginationSpec.noRule PaginationSpec.nextTokenLink PaginationSpec.paginationClass
        PaginationSpec.currentMarkerHttpFirst (load (HttpFirst.r_body (fetchHttp nextUrl))) ->
      HttpFirst.mainLoop maxLawyers maxPages fetchFullProfiles fetchHttp pageContent
        Json safeJsonParse extractLawyersFromJsonObject tryExtractApiUrlFromHtml
        extractListingViaEmbeddedJson extractListingViaHtml findNextPageUrl
        detailEmail detailBiography detailEducation detailBarAdmissions detailLanguages
        (S fuel) st nextUrl
      = HttpFirst.mainLoop maxLawyers maxPages fetchFullProfiles fetchHttp pageContent
          Json safeJsonParse extractLawyersFromJsonObject tryExtractApiUrlFromHtml
          extractListingViaEmbeddedJson extractListingViaHtml findNextPageUrl
          detailEmail detailBiography detailEducation detailBarAdmissions detailLanguages
          1 st nextUrl).
Proof.
  split; [|split; [|split; [|split; [|split]]]].
  - apply findNextPageUrl_spec.
  - apply findNextPageUrl_httpFirst_spec.
  - apply toNumber_safe.
  - intros N HN. apply toNumber_safe. exact HN.
  - intros until trace. intros find Hnone Hpages Hthrow.
    assert (find (body (fetch (url request))) (url request) = "") as Hempty.
    { apply findNextPageUrl_spec. right. split; [exact Hnone | reflexivity]. }
    destruct (requestHandler_inv maxLawyers maxPages fetchFullProfiles
                extractLawyersFromJsonLdHtml extractLawyersFromNextData
                extractListingViaHtml find enrichProfileWithDetailsHttp
                st request (fetch (url request))) as [Hth | (u & s & t & _ & Heq)];
      [contradiction|].
    rewrite nextRequest_empty in Heq by exact Hempty.
    eexists _, _. split; [exact Heq|].
    apply crawl_last_page; [exact Hpages | exact Heq].
  - intros until nextUrl. intros find Hb Hnone.
    apply mainLoop_last_page; [exact Hb|].
    apply findNextPageUrl_httpFirst_spec. right. split; [exact Hnone | reflexivity].
Qed.

(** One page for each rule, one with [rel] in capitals, one with page
    numbers at 2^53, one without any link to a next page, on which the
    crawl ends; and the bar that part_002 reads and part_001 does not. *)
Lemma c7_pagination_resolver_witness :
  (PaginationSpec.resolves PaginationSpec.nextTextLink PaginationSpec.paginationContainer
     PaginationSpec.currentMarker FixtureDom.newURL FixtureDom.docRelNext Fixture.pageSelf
     "https://www.justia.com/lawyers/tax-law/ohio?page=2" /\
   PaginationSpec.resolves PaginationSpec.nextTextLink PaginationSpec.paginationContainer
     PaginationSpec.currentMarker FixtureDom.newURL FixtureDom.docRelUpper Fixture.pageSelf
     "https://www.justia.com/lawyers/tax-law/ohio?page=2" /\
   PaginationSpec.resolves PaginationSpec.nextTextLink PaginationSpec.paginationContainer
     PaginationSpec.currentMarker FixtureDom.newURL FixtureDom.docNextText Fixture.pageSelf
     "https://www.justia.com/lawyers/tax-law/ohio?page=3" /\
   PaginationSpec.resolves PaginationSpec.nextTextLink PaginationSpec.paginationContainer
     PaginationSpec.currentMarker FixtureDom.newURL FixtureDom.docAria Fixture.pageSelf
     "https://www.justia.com/lawyers/tax-law/ohio?page=4" /\
   PaginationSpec.resolves PaginationSpec.nextTextLink PaginationSpec.paginationContainer
     PaginationSpec.currentMarker FixtureDom.newURL FixtureDom.docNumbers Fixture.pageSelf
     "https://www.justia.com/lawyers/tax-law/ohio?page=3" /\
   PaginationSpec.resolves PaginationSpec.nextTextLink PaginationSpec.paginationContainer
     PaginationSpec.currentMarker FixtureDom.newURL FixtureDom.docHuge Fixture.pageSelf
     "https://www.justia.com/lawyers/tax-law/ohio?page=big" /\
   PaginationSpec.resolves PaginationSpec.nextTextLink PaginationSpec.paginationContainer
     PaginationSpec.currentMarker FixtureDom.newURL FixtureDom.docPlain Fixture.pageSelf "") /\
  (PaginationSpec.resolves PaginationSpec.nextTextLink PaginationSpec.paginationContainer
     PaginationSpec.currentMarker FixtureDom.newURL FixtureDom.docPager Fixture.pageSelf
     "https://www.justia.com/lawyers/tax-law/ohio?page=8" /\
   PaginationSpec.resolves PaginationSpec.nextTokenLink PaginationSpec.paginationClass
     PaginationSpec.currentMarkerHttpFirst FixtureDom.newURL FixtureDom.docPager
     Fixture.pageSelf "" /\
   PaginationSpec.resolves PaginationSpec.nextTokenLink PaginationSpec.paginationClass
     PaginationSpec.currentMarkerHttpFirst FixtureDom.newURL FixtureDom.docNextText
     Fixture.pageSelf "") /\
  Dom.plus1 7 = Dom.Finite 8 /\
  exists st' e,
    Cheerio.requestHandler 0 0 false Fixture.extractLawyersFromJsonLdHtml
      Fixture.extractLawyersFromNextData Fixture.extractListingViaHtml
      (fun html => Pagination.findNextPageUrl FixtureDom.newURL
                     ((fun _ => FixtureDom.docPlain) html))
      Fixture.enrich Cheerio.initial (mkRequest Fixture.page3 0)
      (Fixture.fetch (url (mkRequest Fixture.page3 0)))
    = Cheerio.Return st' None /\
    Cheerio.crawl 0 0 false Fixture.extractLawyersFromJsonLdHtml
      Fixture.extractLawyersFromNextData Fixture.extractListingViaHtml
      (fun html => Pagination.findNextPageUrl FixtureDom.newURL
                     ((fun _ => FixtureDom.docPlain) html))
      Fixture.enrich Fixture.fetch 3 Cheerio.initial (mkRequest Fixture.page3 0)
      0 ∅ []
    = (st', [] ++ [e]).
Proof.
  destruct c7_pagination_resolver as (Hmain & Hhttp & _ & Hplus & Hcrawl & _).
  split; [|split; [|split]].
  - repeat split; apply Hmain; reflexivity.
  - repeat split; [apply Hmain | apply Hhttp | apply Hhttp]; reflexivity.
  - apply Hplus. lia.
  - apply (Hcrawl FixtureDom.newURL (fun _ => FixtureDom.docPlain) 0 0 false
             Fixture.extractLawyersFromJsonLdHtml Fixture.extractLawyersFromNextData
             Fixture.extractListingViaHtml Fixture.enrich Fixture.fetch 2%nat
             Cheerio.initial (mkRequest Fixture.page3 0) 0 ∅ []).
    + apply noRule_decide. reflexivity.
    + reflexivity.
    + vm_compute. discriminate.
Defined.

(** ** Calls that may throw *)

Lemma traverse_fuel {A B} (f : A -> JsonLd.result B) (xs : list A) :
  Forall (fun x => f x <> JsonLd.OutOfFuel) xs ->
  JsonLd.traverse f xs <> JsonLd.OutOfFuel.
Proof.
  induction 1 as [|x xs Hx _ IH]; simpl; [discriminate|].
  destruct (f x); simpl; [|discriminate | now contradiction Hx].
  destruct (JsonLd.traverse f xs); simpl;
    [discriminate | discriminate | now contradiction IH].
Qed.

Lemma traverse_ok {A B} (f : A -> JsonLd.result B) (xs : list A) :
  Forall (fun x => exists y, f x = JsonLd.Ok y) xs ->
  exists ys, JsonLd.traverse f xs = JsonLd.Ok ys.
Proof.
  induction 1 as [|x xs [y Hy] _ [ys IH]]; simpl; [now exists []|].
  rewrite Hy, IH. simpl. now exists (y :: ys).
Qed.

Lemma traverse_inv {A B} (f : A -> JsonLd.result B) (xs : list A) : forall ys,
  JsonLd.traverse f xs = JsonLd.Ok ys -> Forall2 (fun x y => f x = JsonLd.Ok y) xs ys.
Proof.
  induction xs as [|x xs IH]; simpl; intros ys.
  - intros [= <-]. constructor.
  - destruct (f x) as [y| |] eqn:Hy; simpl; try discriminate.
    destruct (JsonLd.traverse f xs) as [ys'| |]; simpl; try discriminate.
    intros [= <-]. constructor; [exact Hy | now apply IH].
Qed.

Lemma bind_ok {A B} (r : JsonLd.result A) (k : A -> JsonLd.result B) (b : B) :
  JsonLd.bind r k = JsonLd.Ok b <-> exists a, r = JsonLd.Ok a /\ k a = JsonLd.Ok b.
Proof.
  destruct r as [a| |]; simpl.
  - split; [intros H; now exists a | now intros (a' & [= <-] & H)].
  - split; [discriminate | now intros (a' & [=] & _)].
  - split; [discriminate | now intros (a' & [=] & _)].
Qed.

Lemma bind_fuel {A B} (r : JsonLd.result A) (k : A -> JsonLd.result B) :
  r <> JsonLd.OutOfFuel -> (forall a, k a <> JsonLd.OutOfFuel) ->
  JsonLd.bind r k <> JsonLd.OutOfFuel.
Proof.
  intros Hr Hk. destruct r as [a| |]; simpl; [apply Hk | discriminate | now contradiction Hr].
Qed.

(** ** The work-list walk of part_001 and part_002 *)

Section WalkFacts.

Import Walk.

Variable h : gmap loc container.
Variable newURL : value -> string -> option string.
Variable toString : value -> option string.
Variable joinComma : list value -> option string.
Variable now : string.
Variable profiles : bool.

Abbreviation wloop := (Walk.loop h newURL joinComma now profiles).
Abbreviation wrecordOf := (Walk.recordOf h newURL joinComma now).
Abbreviation wrecordsAt := (Walk.recordsAt h newURL joinComma now profiles).

Lemma sum_list_with_mono {A} (f g : A -> nat) (l : list A) :
  (forall x, (f x <= g x)%nat) -> (sum_list_with f l <= sum_list_with g l)%nat.
Proof.
  intros Hfg. induction l as [|x l IH]; simpl; [lia|]. specialize (Hfg x). lia.
Qed.

Lemma unvisitedValues_mono (l : loc) (visited : gset loc) :
  (unvisitedValues h ({[l]} ∪ visited) <= unvisitedValues h visited)%nat.
Proof.
  unfold unvisitedValues. apply sum_list_with_mono. intros [l' c].
  repeat case_bool_decide; try lia. set_solver.
Qed.

Lemma unvisitedValues_visit (l : loc) (c : container) (visited : gset loc) :
  h !! l = Some c -> l ∉ visited ->
  (unvisitedValues h ({[l]} ∪ visited) + length (valuesOf c)
   <= unvisitedValues h visited)%nat.
Proof.
  intros Hl Hnew. unfold unvisitedValues.
  apply elem_of_map_to_list in Hl.
  apply list_elem_of_split in Hl as (l1 & l2 & ->).
  rewrite !sum_list_with_app. simpl.
  rewrite bool_decide_eq_true_2 by set_solver.
  rewrite (bool_decide_eq_false_2 (l ∈ visited)) by exact Hnew.
  pose proof (sum_list_with_mono
    (fun '(l0, c0) => if bool_decide (l0 ∈ {[l]} ∪ visited) then 0%nat
                      else length (valuesOf c0))
    (fun '(l0, c0) => if bool_decide (l0 ∈ visited) then 0%nat
                      else length (valuesOf c0))) as Hmono.
  assert (forall x : loc * container,
             ((let '(l0, c0) := x in
               if bool_decide (l0 ∈ {[l]} ∪ visited) then 0 else length (valuesOf c0))
              <= (let '(l0, c0) := x in
                  if bool_decide (l0 ∈ visited) then 0 else length (valuesOf c0)))%nat)
    as Hpt.
  { intros [l' c']. repeat case_bool_decide; try lia. set_solver. }
  pose proof (Hmono l1 Hpt). pose proof (Hmono l2 Hpt). lia.
Qed.

Lemma pushed_length (l : loc) :
  (length (pushed h l) <= length (values h l))%nat.
Proof.
  unfold pushed. rewrite length_rev. apply List.filter_length_le.
Qed.

(** *** Nothing at a node runs out of fuel: it returns or it throws *)

Lemma orThrow_fuel {A} (o : option A) : orThrow o <> OutOfFuel.
Proof. destruct o; discriminate. Qed.

Lemma recordOf_fuel item pageUrl : wrecordOf item pageUrl <> OutOfFuel.
Proof using Type.
  unfold recordOf. cbv zeta. destruct (_ && _); [discriminate|].
  apply bind_fuel; [|discriminate].
  destruct (asArray h _); [|discriminate].
  apply bind_fuel; [apply orThrow_fuel | discriminate].
Qed.

Lemma recordsOf_fuel items pageUrl :
  recordsOf h newURL joinComma now items pageUrl <> OutOfFuel.
Proof using Type.
  unfold recordsOf. apply bind_fuel; [|discriminate].
  apply traverse_fuel, Forall_forall. intros item _. apply recordOf_fuel.
Qed.

Lemma recordsAt_fuel node pageUrl : wrecordsAt node pageUrl <> OutOfFuel.
Proof using Type.
  unfold recordsAt. apply bind_fuel; [|discriminate].
  apply traverse_fuel, Forall_forall. intros arr _.
  destruct (asArray h arr); [apply recordsOf_fuel | discriminate].
Qed.

Lemma loop_terminates fuel pageUrl : forall stack visited results order,
  (length stack + unvisitedValues h visited <= fuel)%nat ->
  wloop fuel pageUrl stack visited results order <> OutOfFuel.
Proof using Type.
  induction fuel as [|fuel IH]; intros stack visited results order Hfuel.
  - destruct stack; [discriminate | simpl in Hfuel; lia].
  - destruct stack as [|node stack]; [discriminate|].
    simpl in Hfuel. cbn [Walk.loop].
    destruct node; try (apply IH; lia).
    case_bool_decide as Hin; [apply IH; lia|].
    apply bind_fuel; [apply recordsAt_fuel|]. intros found.
    apply IH. rewrite length_app.
    pose proof (pushed_length l). unfold values in *.
    destruct (h !! l) as [c|] eqn:Hl.
    + pose proof (unvisitedValues_visit l c visited Hl Hin). lia.
    + pose proof (unvisitedValues_mono l visited). simpl in *. lia.
Qed.

Lemma entryKey_fuel r : entryKey toString r <> OutOfFuel.
Proof using Type.
  unfold entryKey. destruct (falsy (website r)); [|discriminate].
  repeat (apply bind_fuel; [apply orThrow_fuel | intros ?]). discriminate.
Qed.

Lemma dedup_fuel results : forall seen, dedup toString results seen <> OutOfFuel.
Proof using Type.
  induction results as [|r rest IH]; intros seen; simpl; [discriminate|].
  apply bind_fuel; [apply entryKey_fuel|]. intros key.
  case_bool_decide; [apply IH|]. apply bind_fuel; [apply IH | discriminate].
Qed.

(** *** When no conversion throws, every step returns *)

Section Printable.

Hypothesis toString_total : forall v, is_Some (toString v).
Hypothesis joinComma_total : forall items, is_Some (joinComma items).

Lemma recordOf_returns item pageUrl : exists r, wrecordOf item pageUrl = Ok r.
Proof using joinComma_total.
  unfold recordOf. cbv zeta. destruct (_ && _); [now eexists|].
  destruct (asArray h _) as [xs|]; simpl; [|now eexists].
  destruct (joinComma_total xs) as [s ->]. simpl. now eexists.
Qed.

Lemma recordsAt_returns node pageUrl : exists rs, wrecordsAt node pageUrl = Ok rs.
Proof using joinComma_total.
  unfold recordsAt.
  destruct (traverse_ok
              (fun arr => match asArray h arr with
                          | Some items => recordsOf h newURL joinComma now items pageUrl
                          | None => Ok []
                          end)
              (arraysToCheck h profiles node)) as [found ->].
  - apply Forall_forall. intros arr _.
    destruct (asArray h arr) as [items|]; [|now eexists].
    unfold recordsOf.
    destruct (traverse_ok (fun item => wrecordOf item pageUrl) items) as [rs ->].
    + apply Forall_forall. intros item _. apply recordOf_returns.
    + simpl. now eexists.
  - simpl. now eexists.
Qed.

Lemma loop_returns fuel pageUrl : forall stack visited results order,
  (length stack + unvisitedValues h visited <= fuel)%nat ->
  exists out, wloop fuel pageUrl stack visited results order = Ok out.
Proof using joinComma_total.
  induction fuel as [|fuel IH]; intros stack visited results order Hfuel.
  - destruct stack; [now eexists | simpl in Hfuel; lia].
  - destruct stack as [|node stack]; [now eexists|].
    simpl in Hfuel. cbn [Walk.loop].
    destruct node; try (apply IH; lia).
    case_bool_decide as Hin; [apply IH; lia|].
    destruct (recordsAt_returns (VRef l) pageUrl) as [found ->]. simpl.
    apply IH. rewrite length_app.
    pose proof (pushed_length l). unfold values in *.
    destruct (h !! l) as [c|] eqn:Hl.
    + pose proof (unvisitedValues_visit l c visited Hl Hin). lia.
    + pose proof (unvisitedValues_mono l visited). simpl in *. lia.
Qed.

Lemma entryKey_returns r : exists k, entryKey toString r = Ok k.
Proof using toString_total.
  unfold entryKey. destruct (falsy (website r)); [|now eexists].
  destruct (toString_total (name r)) as [n ->].
  destruct (toString_total (location r)) as [l ->].
  destruct (toString_total (firmName r)) as [f ->]. simpl. now eexists.
Qed.

Lemma dedup_returns results : forall seen, exists out, dedup toString results seen = Ok out.
Proof using toString_total.
  induction results as [|r rest IH]; intros seen; simpl; [now eexists|].
  destruct (entryKey_returns r) as [k ->]. simpl.
  case_bool_decide; [apply IH|].
  destruct (IH ({[k]} ∪ seen)) as [kept ->]. simpl. now eexists.
Qed.

End Printable.

Lemma loop_order fuel pageUrl : forall stack visited results order r o,
  (forall x, x ∈ order -> x ∈ visited) -> NoDup order ->
  wloop fuel pageUrl stack visited results order = Ok (r, o) ->
  NoDup o.
Proof using Type.
  induction fuel as [|fuel IH]; intros stack visited results order r o Hsub Hnd;
    destruct stack as [|node stack]; cbn [Walk.loop]; try discriminate;
    try (intros [= _ <-]; exact Hnd).
  destruct node; try (apply IH; assumption).
  case_bool_decide as Hin; [apply IH; assumption|].
  intros (found & _ & Hloop)%bind_ok. revert Hloop.
  apply IH.
  - intros x Hx. apply elem_of_app in Hx as [Hx | Hx]; [apply Hsub in Hx|]; set_solver.
  - apply NoDup_app. split; [exact Hnd|]. split.
    + intros x Hx Hx'. apply Hsub in Hx. set_solver.
    + apply NoDup_singleton.
Qed.

Lemma recordOf_none item pageUrl :
  wrecordOf item pageUrl = Ok None <->
  truthy (rawName h item) = false /\
  Walk.absoluteUrl newURL (rawProfileUrl h item) pageUrl = "".
Proof using Type.
  unfold recordOf. cbv zeta.
  assert (forall (r : result value) (k : value -> entry),
             (let! practiceAreas := r in Ok (Some (k practiceAreas)))
             <> Ok None) as Hpush.
  { intros [v| |] k; simpl; discriminate. }
  destruct (truthy (rawName h item)); simpl.
  - split; [intros H; now apply Hpush in H | intros [? _]; discriminate].
  - destruct (falsy (Walk.absoluteUrl newURL (rawProfileUrl h item) pageUrl)) eqn:Hf.
    + apply falsy_spec in Hf.
      split; [intros _; split; [reflexivity | exact Hf] | reflexivity].
    + split; [intros H; now apply Hpush in H|].
      intros [_ Hu]. rewrite Hu in Hf. discriminate.
Qed.

(** An element that is a string has the method [link] for a profile URL,
    and no name; one that is [null], a number or a boolean has neither. *)
Lemma rawProfileUrl_string s : rawProfileUrl h (VStr s) = VFun "link".
Proof using Type. reflexivity. Qed.

Lemma rawName_string s : rawName h (VStr s) = VStr "".
Proof using Type. reflexivity. Qed.

Lemma recordOf_string s pageUrl u :
  newURL (VFun "link") (pageUrl |? JUSTIA_BASE) = Some u -> u <> "" ->
  exists r, wrecordOf (VStr s) pageUrl = Ok (Some r) /\
            name r = VStr "Unknown Name" /\ website r = u.
Proof using Type.
  intros Hu Hne. unfold recordOf. cbv zeta.
  rewrite rawProfileUrl_string, rawName_string.
  unfold Walk.absoluteUrl. cbn [truthy negb]. rewrite Hu.
  assert (falsy u = false) as ->.
  { destruct (falsy u) eqn:Hf; [apply falsy_spec in Hf; contradiction | reflexivity]. }
  simpl. eexists. split; [reflexivity|]. split; reflexivity.
Qed.

Lemma recordOf_primitive item pageUrl :
  match item with VRef _ | VStr _ | VFun _ => False | _ => True end ->
  wrecordOf item pageUrl = Ok None.
Proof using Type.
  intros Hitem. apply recordOf_none. destruct item; try contradiction; now split.
Qed.

End WalkFacts.

(** ** The recursive walk of src/main.js *)

Section RecursiveWalkFacts.

Import Walk.

Variable h : gmap loc container.
Variable candidate : value -> Candidate.

Abbreviation rwalk := (Walk.walk h candidate).

(** An object that holds itself under a key that does not look like a
    lawyer: the recursion never returns. *)
Lemma walk_self_reference (l : loc) fuel : forall st,
  h !! l = Some (CObj [("self", VRef l)]) ->
  rwalk fuel (VRef l) st = OutOfFuel.
Proof.
  induction fuel as [|fuel IH]; intros st Hl; [reflexivity|].
  cbn [Walk.walk]. rewrite Hl.
  assert (looksLikeLawyer h (VRef l) [("self", VRef l)] = false) as ->.
  { unfold looksLikeLawyer, getOpt. rewrite Hl. reflexivity. }
  cbn [map snd]. cbn [JsonLd.bind]. now rewrite IH.
Qed.

Lemma pushCandidate_fuel node st : pushCandidate candidate node st <> OutOfFuel.
Proof.
  unfold pushCandidate. destruct (candidate node); try discriminate.
  case_bool_decide; discriminate.
Qed.

(** On a graph without cycles ([rank] decreases along every reference) the
    recursion ends once the depth bound exceeds the rank of the root. *)
Lemma walk_acyclic (rank : loc -> nat) :
  (forall l c l', h !! l = Some c -> VRef l' ∈ valuesOf c -> (rank l' < rank l)%nat) ->
  forall fuel node st,
    (match node with VRef l => (rank l + 1 < fuel)%nat | _ => (0 < fuel)%nat end) ->
    rwalk fuel node st <> OutOfFuel.
Proof.
  intros Hrank. induction fuel as [|fuel IH]; intros node st Hfuel.
  - destruct node; lia.
  - cbn [Walk.walk].
    assert (forall vals st0,
               (forall l', VRef l' ∈ vals -> (rank l' + 1 < fuel)%nat) ->
               (vals <> [] -> (0 < fuel)%nat) ->
               (fix each (vals : list value) (st : list entry * gset string) :=
                  match vals with
                  | [] => Ok st
                  | v :: rest => let! st' := rwalk fuel v st in each rest st'
                  end) vals st0 <> OutOfFuel) as Heach.
    { induction vals as [|v rest IHv]; intros st0 Hrefs Hpos; [discriminate|].
      apply bind_fuel.
      - apply IH. destruct v; try (apply Hpos; discriminate). apply Hrefs. left.
      - intros st'. apply IHv.
        + intros l' Hl'. apply Hrefs. now right.
        + intros _. apply Hpos. discriminate. }
    destruct node; try discriminate.
    destruct (h !! l) as [c|] eqn:Hl; [|discriminate].
    assert (forall l', VRef l' ∈ valuesOf c -> (rank l' + 1 < fuel)%nat) as Hrefs.
    { intros l' Hl'. pose proof (Hrank l c l' Hl Hl'). lia. }
    destruct c as [items|props].
    + apply Heach; [exact Hrefs | intros _; lia].
    + apply bind_fuel.
      * destruct (looksLikeLawyer _ _ _); [apply pushCandidate_fuel | discriminate].
      * intros st'. apply Heach; [exact Hrefs | intros _; lia].
Qed.

End RecursiveWalkFacts.

(** *** The conversions of the fixture on its cyclic graph *)

Lemma fixture_heap_lookup (l : Walk.loc) :
  FixtureGraph.heap !! l = None \/
  exists c, FixtureGraph.heap !! l = Some c /\
            (l = 1 \/ l = 2 \/ l = 3 \/ l = 4)%positive.
Proof.
  destruct l as [[[l|l|]|[l|l|]|]|[[l|l|]|[l|l|]|]|];
    first [left; reflexivity | right; eexists; split; [reflexivity|]; tauto].
Qed.

Lemma fixture_toString_total (v : Walk.value) :
  is_Some (FixtureGraph.toString FixtureGraph.heap v).
Proof.
  destruct v as [| |b|n|s|l|name]; try (eexists; reflexivity).
  unfold FixtureGraph.toString.
  destruct (fixture_heap_lookup l) as [Hl | (c & Hl & [-> | [-> | [-> | ->]]])].
  - cbn [FixtureGraph.toStringIn]. rewrite Hl. eexists; reflexivity.
  - eexists. vm_compute. reflexivity.
  - eexists. vm_compute. reflexivity.
  - eexists. vm_compute. reflexivity.
  - eexists. vm_compute. reflexivity.
Qed.

Lemma fixture_joinComma_total (items : list Walk.value) :
  is_Some (FixtureGraph.joinComma FixtureGraph.heap items).
Proof.
  unfold FixtureGraph.joinComma.
  assert (is_Some (mapM (fun item => match item with
                                     | Walk.VUndefined | Walk.VNull => Some ""
                                     | _ => FixtureGraph.toString FixtureGraph.heap item
                                     end) items)) as [strs ->].
  { apply mapM_is_Some, Forall_forall. intros item _.
    destruct item; try (eexists; reflexivity); apply fixture_toString_total. }
  eexists; reflexivity.
Qed.

(** *** The work-list walk on the graphs of the fixture *)

(** [{"results": ["abc"]}]: the string has the method [link], so one
    record without a name of its own comes out, in both variants. *)
Example fixture_string_element (profiles : bool) :
  exists r,
    Walk.extractLawyersFromJsonObject FixtureGraph.strings
      (FixtureGraph.newURL FixtureGraph.strings) (FixtureGraph.toString FixtureGraph.strings)
      (FixtureGraph.joinComma FixtureGraph.strings) FixtureLd.now profiles
      (Walk.VRef 1%positive) Fixture.page1 = JsonLd.Ok [r] /\
    Walk.name r = Walk.VStr "Unknown Name".
Proof. destruct profiles; eexists; split; vm_compute; reflexivity. Qed.

(** [{"profiles": [...]}]: only part_002 looks at [node.profiles]. *)
Example fixture_profiles :
  Walk.extractLawyersFromJsonObject FixtureGraph.profiles
    (FixtureGraph.newURL FixtureGraph.profiles) (FixtureGraph.toString FixtureGraph.profiles)
    (FixtureGraph.joinComma FixtureGraph.profiles) FixtureLd.now false
    (Walk.VRef 1%positive) Fixture.page1 = JsonLd.Ok [] /\
  exists r,
    Walk.extractLawyersFromJsonObject FixtureGraph.profiles
      (FixtureGraph.newURL FixtureGraph.profiles) (FixtureGraph.toString FixtureGraph.profiles)
      (FixtureGraph.joinComma FixtureGraph.profiles) FixtureLd.now true
      (Walk.VRef 1%positive) Fixture.page1 = JsonLd.Ok [r] /\
    Walk.name r = Walk.VStr "Ann Lee" /\
    Walk.website r = "https://www.justia.com/lawyers/nevada/ann-lee".
Proof.
  split; [vm_compute; reflexivity|].
  eexists. split; [vm_compute; reflexivity|]. split; reflexivity.
Qed.

(** A name that cannot be turned into a string makes the key of the
    de-duplication throw; practice areas that cannot be joined make the
    loop throw. *)
Example fixture_conversion_throws (profiles : bool) :
  Walk.extractLawyersFromJsonObject FixtureGraph.unprintable
    (FixtureGraph.newURL FixtureGraph.unprintable)
    (FixtureGraph.toString FixtureGraph.unprintable)
    (FixtureGraph.joinComma FixtureGraph.unprintable) FixtureLd.now profiles
    (Walk.VRef 1%positive) Fixture.page1 = JsonLd.TypeError /\
  Walk.extractLawyersFromJsonObject FixtureGraph.unjoinable
    (FixtureGraph.newURL FixtureGraph.unjoinable)
    (FixtureGraph.toString FixtureGraph.unjoinable)
    (FixtureGraph.joinComma FixtureGraph.unjoinable) FixtureLd.now profiles
    (Walk.VRef 1%positive) Fixture.page1 = JsonLd.TypeError.
Proof. destruct profiles; split; vm_compute; reflexivity. Qed.




(** ** JSON-LD extractor: where it throws *)

Section JsonLdFacts.

Import JsonLd.

Variable newURL : json -> string -> option string.
Variable now : string.

(** An object whose [@type] is truthy and neither a string nor an array
    makes [type.includes] fail. *)
Lemma entity_type_error item pageUrl results :
  match or (getOpt item "@type") (JStr "") with
  | JStr _ | JArr _ => False
  | _ => True
  end ->
  entity newURL now item pageUrl results = TypeError.
Proof.
  unfold entity. cbv zeta.
  destruct (or (getOpt item "@type") (JStr "")); simpl; tauto.
Qed.

Lemma extract_non_string_type fuel props pageUrl :
  lookup "@graph" props = JUndefined ->
  match lookup "@type" props with
  | JNum n => n <> 0
  | JBool b => b = true
  | JObj _ => True
  | _ => False
  end ->
  extractLawyersFromJsonLd newURL now (S fuel) (JObj props) pageUrl = TypeError.
Proof.
  intros Hgraph Htype. cbn [extractLawyersFromJsonLd isArray get getOpt bind].
  rewrite Hgraph. cbn [or truthy iterate bind itemsLoop negb orb typeofObject getOpt].
  destruct (lookup "@type" props) eqn:Ht; try contradiction.
  - subst b. cbn [isStr andb]. rewrite entity_type_error; [reflexivity|].
    cbn [getOpt]. rewrite Ht. exact I.
  - cbn [isStr andb]. rewrite entity_type_error; [reflexivity|].
    cbn [getOpt]. rewrite Ht. unfold or. cbn [truthy].
    destruct (n =? 0) eqn:Hn; [apply Z.eqb_eq in Hn; contradiction | exact I].
  - cbn [isStr andb]. rewrite entity_type_error; [reflexivity|].
    cbn [getOpt]. rewrite Ht. exact I.
Qed.

End JsonLdFacts.

(** C8 (failing input): a JSON-LD block whose [@type] is a number, a
    [null] element of an item list, and an [@graph] that is an object each
    end [extractLawyersFromJsonLd] in a [TypeError], which
    [extractLawyersFromJsonLdHtml] passes on; only text that [JSON.parse]
    rejects is absorbed by [safeJsonParse]. *)
Theorem c8_jsonld_extractor_throws :
  (forall newURL now fuel props pageUrl,
      JsonLd.lookup "@graph" props = JsonLd.JUndefined ->
      match JsonLd.lookup "@type" props with
      | JsonLd.JNum n => n <> 0
      | JsonLd.JBool b => b = true
      | JsonLd.JObj _ => True
      | _ => False
      end ->
      JsonLd.extractLawyersFromJsonLd newURL now (S fuel) (JsonLd.JObj props) pageUrl
      = JsonLd.TypeError) /\
  (forall newURL now fuel pageUrl,
      JsonLd.extractLawyersFromJsonLd newURL now (S fuel) FixtureLd.nullListItem pageUrl
      = JsonLd.TypeError /\
      JsonLd.extractLawyersFromJsonLd newURL now (S fuel) FixtureLd.objectGraph pageUrl
      = JsonLd.TypeError) /\
  (forall newURL now fuel pageUrl found,
      JsonLd.extractLawyersFromJsonLdHtml newURL now FixtureLd.JSONparse (S fuel)
        ["{not json"; "{'@type':5,'name':'Ann Lee'}"] pageUrl found
      = JsonLd.TypeError) /\
  (forall newURL now JSONparse fuel text rest pageUrl found,
      JSONparse text = None ->
      JsonLd.safeJsonParse JSONparse text = JsonLd.JNull /\
      JsonLd.extractLawyersFromJsonLdHtml newURL now JSONparse fuel (text :: rest)
        pageUrl found
      = JsonLd.extractLawyersFromJsonLdHtml newURL now JSONparse fuel rest pageUrl found).
Proof.
  split; [|split; [|split]].
  - intros. now apply extract_non_string_type.
  - intros. split; reflexivity.
  - intros. reflexivity.
  - intros newURL now JSONparse fuel text rest pageUrl found Hparse.
    assert (JsonLd.safeJsonParse JSONparse text = JsonLd.JNull) as Hnull
      by (unfold JsonLd.safeJsonParse; now rewrite Hparse).
    split; [exact Hnull|].
    cbn [JsonLd.extractLawyersFromJsonLdHtml]. now rewrite Hnull.
Qed.

(** The block [{"@type": 5, "name": "Ann Lee"}]. *)
Lemma c8_jsonld_extractor_throws_witness :
  JsonLd.extractLawyersFromJsonLd FixtureLd.newURL FixtureLd.now 1
    FixtureLd.numericType Fixture.page1 = JsonLd.TypeError /\
  JsonLd.extractLawyersFromJsonLdHtml FixtureLd.newURL FixtureLd.now FixtureLd.JSONparse 1
    ["{not json"] Fixture.page1 [] = JsonLd.Ok [].
Proof.
  destruct c8_jsonld_extractor_throws as (Htype & _ & _ & Hparse).
  split.
  - apply (Htype FixtureLd.newURL FixtureLd.now 0%nat
                 [("@type", JsonLd.JNum 5); ("name", JsonLd.JStr "Ann Lee")]).
    + reflexivity.
    + simpl. discriminate.
  - destruct (Hparse FixtureLd.newURL FixtureLd.now FixtureLd.JSONparse 1%nat
                     "{not json" [] Fixture.page1 []) as [_ ->]; reflexivity.
Defined.

(** ** Enrichment: what the merge keeps *)

Section EnrichFacts.

Lemma or_else_right (a b : string) : b <> "" -> a |? b <> "".
Proof. unfold or_else. destruct a; simpl; [auto | discriminate]. Qed.

Lemma or_else_left (a b : string) : a <> "" -> a |? b <> "".
Proof. unfold or_else. destruct a; simpl; [congruence | discriminate]. Qed.

Lemma or_else_empty_l (b : string) : "" |? b = b.
Proof. reflexivity. Qed.

Lemma or_else_nonempty_l (a b : string) : a <> "" -> a |? b = a.
Proof. destruct a; [congruence | reflexivity]. Qed.

Lemma orNullable_keeps (a b : option string) s :
  b = Some s -> s <> "" ->
  exists s', Enrich.orNullable a b = Some s' /\ s' <> "".
Proof.
  intros -> Hs. destruct a as [x|]; simpl; [|eauto].
  destruct x; simpl; [eauto|]. eexists; split; [reflexivity | discriminate].
Qed.

Lemma enrich_unreachable html page baseData :
  falsy html || CheerioBlocking.isBlockedHtml html = true ->
  Enrich.enrichProfileWithDetailsHttp html page baseData = baseData.
Proof. intros H. unfold Enrich.enrichProfileWithDetailsHttp. now rewrite H. Qed.

Lemma enrich_exception html page baseData :
  Enrich.ldLawyers page = None ->
  Enrich.enrichProfileWithDetailsHttp html page baseData = baseData.
Proof.
  intros H. unfold Enrich.enrichProfileWithDetailsHttp, Enrich.merge.
  rewrite H. now destruct (_ || _).
Qed.

(** Either the base record comes back, or the merged one does. *)
Lemma enrich_cases html page baseData :
  Enrich.enrichProfileWithDetailsHttp html page baseData = baseData \/
  exists merged,
    Enrich.merge page baseData = Some merged /\
    Enrich.enrichProfileWithDetailsHttp html page baseData = merged.
Proof.
  unfold Enrich.enrichProfileWithDetailsHttp.
  destruct (_ || _); [now left|].
  destruct (Enrich.merge page baseData) as [m|]; [right; eauto | now left].
Qed.

Lemma merge_keeps_strings page baseData merged :
  Enrich.merge page baseData = Some merged ->
  name merged = name baseData /\
  website merged = website baseData /\
  (phone baseData <> "" -> phone merged <> "") /\
  (email baseData <> "" -> email merged <> "") /\
  (firmName baseData <> "" -> firmName merged <> "") /\
  (address baseData <> "" -> address merged <> "") /\
  (location baseData <> "" -> location merged <> "") /\
  (practiceAreas baseData <> "" -> practiceAreas merged <> "") /\
  (description baseData <> "" -> description merged <> "").
Proof.
  unfold Enrich.merge. cbv zeta.
  destruct (Enrich.ldLawyers page) as [lds|]; [|discriminate].
  intros [= <-]. cbn [name website phone email firmName address location
                      practiceAreas description].
  repeat split; intros H; repeat (apply or_else_right); exact H.
Qed.

Lemma merge_keeps_biography page baseData merged s :
  Enrich.merge page baseData = Some merged ->
  biography baseData = Some s -> s <> "" ->
  exists s', biography merged = Some s' /\ s' <> "".
Proof.
  unfold Enrich.merge. cbv zeta.
  destruct (Enrich.ldLawyers page) as [lds|]; [|discriminate].
  intros [= <-] Hb Hs. cbn [biography].
  destruct (orNullable_keeps (head lds ≫= biography) _ s Hb Hs) as (s1 & H1 & Hs1).
  eapply orNullable_keeps; eauto.
Qed.

(** The lists of the base record survive unless the page or its JSON-LD
    supplies a list. *)
Lemma merge_keeps_lists page baseData merged :
  Enrich.merge page baseData = Some merged ->
  (forall lds ld, Enrich.ldLawyers page = Some lds -> head lds = Some ld ->
                  education ld = None /\ barAdmissions ld = None /\ languages ld = None) ->
  (forall xs, education baseData = Some xs -> xs <> [] ->
              exists ys, education merged = Some ys /\ ys <> []) /\
  (forall xs, barAdmissions baseData = Some xs -> xs <> [] ->
              exists ys, barAdmissions merged = Some ys /\ ys <> []) /\
  (forall xs, languages baseData = Some xs -> xs <> [] ->
              exists ys, languages merged = Some ys /\ ys <> []).
Proof.
  unfold Enrich.merge. cbv zeta.
  destruct (Enrich.ldLawyers page) as [lds|]; [|discriminate].
  intros [= <-] Hld. cbn [education barAdmissions languages].
  assert (head lds ≫= education = None /\ head lds ≫= barAdmissions = None
          /\ head lds ≫= languages = None) as (He & Hb & Hl).
  { destruct (head lds) as [ld|] eqn:Hh; [|auto]. now apply (Hld lds ld). }
  rewrite He, Hb, Hl.
  repeat split; intros xs Hx Hne;
    match goal with |- context [nonEmpty ?l] => destruct l eqn:Hd end; simpl;
    eauto; eexists; split; try reflexivity; discriminate.
Qed.

End EnrichFacts.

(** C6 (failing input): the base record has phone "555-0100", the detail
    page shows no phone of its own and its JSON-LD block gives "555-0199":
    the merged phone is the base value, not the JSON-LD one, because the
    page-level [phone] already falls back to [baseData.phone]; and an empty
    JSON-LD language list replaces the languages of the base record.  What
    holds: a blocked, empty or throwing detail page returns the base record
    unchanged, and no non-empty string field of the base record becomes
    empty. *)
Theorem c6_enrichment_merge :
  (phone (Enrich.enrichProfileWithDetailsHttp "<html>profile</html>"
            FixtureDetail.ldPhoneOnly FixtureDetail.base) = "555-0100" /\
   languages (Enrich.enrichProfileWithDetailsHttp "<html>profile</html>"
                FixtureDetail.ldPhoneOnly FixtureDetail.base) = Some []) /\
  (forall html page baseData,
      html = "" \/ CheerioBlocking.isBlockedHtml html = true \/
      Enrich.ldLawyers page = None ->
      Enrich.enrichProfileWithDetailsHttp html page baseData = baseData) /\
  (forall html page baseData,
      let merged := Enrich.enrichProfileWithDetailsHttp html page baseData in
      name merged = name baseData /\
      website merged = website baseData /\
      (phone baseData <> "" -> phone merged <> "") /\
      (email baseData <> "" -> email merged <> "") /\
      (firmName baseData <> "" -> firmName merged <> "") /\
      (address baseData <> "" -> address merged <> "") /\
      (location baseData <> "" -> location merged <> "") /\
      (practiceAreas baseData <> "" -> practiceAreas merged <> "") /\
      (description baseData <> "" -> description merged <> "")) /\
  (forall html page baseData,
      Enrich.telText page = "" -> Enrich.telHref page = "" ->
      Enrich.telephoneText page = "" -> phone baseData <> "" ->
      phone (Enrich.enrichProfileWithDetailsHttp html page baseData) = phone baseData).
Proof.
  split; [|split; [|split]].
  - split; reflexivity.
  - intros html page baseData [-> | [Hb | Hex]].
    + reflexivity.
    + apply enrich_unreachable. rewrite Hb. apply orb_true_r.
    + now apply enrich_exception.
  - intros html page baseData merged. subst merged.
    destruct (enrich_cases html page baseData) as [-> | (m & Hm & ->)].
    + repeat split; auto.
    + now apply merge_keeps_strings with (page := page).
  - intros html page baseData H1 H2 H3 Hbase.
    destruct (enrich_cases html page baseData) as [-> | (m & Hm & ->)]; [reflexivity|].
    unfold Enrich.merge in Hm. cbv zeta in Hm.
    destruct (Enrich.ldLawyers page) as [lds|]; [|discriminate].
    injection Hm as <-. cbn [phone]. rewrite H1, H2, H3.
    rewrite !or_else_empty_l.
    rewrite (or_else_nonempty_l (phone baseData)) by exact Hbase.
    now rewrite (or_else_nonempty_l (phone baseData)) by exact Hbase.
Qed.

(** The base record of the fixture against a blocked page and against a
    page that shows nothing. *)
Lemma c6_enrichment_merge_witness :
  Enrich.enrichProfileWithDetailsHttp "<title>Access Denied</title>" FixtureDetail.blank
    FixtureDetail.base = FixtureDetail.base /\
  phone (Enrich.enrichProfileWithDetailsHttp "<html>profile</html>" FixtureDetail.blank
           FixtureDetail.base) = phone FixtureDetail.base.
Proof.
  destruct c6_enrichment_merge as (_ & Hbase & _ & Hphone).
  split.
  - apply Hbase. right. left. reflexivity.
  - apply Hphone; try reflexivity. discriminate.
Defined.

(** ** [toSlug] *)

Section SlugFacts.

Import Dom Input.

Lemma allChars_collapse p b s :
  allChars p s = true -> allChars p (collapseDashes b s) = true.
Proof.
  revert b. induction s as [|c s IH]; intros b; simpl; [reflexivity|].
  intros [Hc Hs]%andb_true_iff.
  destruct (isDash c); [destruct b|]; simpl; rewrite ?Hc; simpl; apply IH; exact Hs.
Qed.

Lemma allChars_keep s : allChars isSlugChar (keepSlugChars s) = true.
Proof.
  induction s as [|c s IH]; simpl; [reflexivity|].
  destruct (isSlugChar c) eqn:Hc; simpl; [now rewrite Hc|exact IH].
Qed.

Lemma allChars_stripLeading p s :
  allChars p s = true -> allChars p (stripLeadingDash s) = true.
Proof.
  destruct s as [|c s]; simpl; [reflexivity|].
  intros [Hc Hs]%andb_true_iff. destruct (isDash c); simpl; [exact Hs|].
  now rewrite Hc.
Qed.

Lemma allChars_stripTrailing p s :
  allChars p s = true -> allChars p (stripTrailingDash s) = true.
Proof.
  induction s as [|c s IH]; [reflexivity|].
  intros H. pose proof H as [Hc Hs]%andb_true_iff.
  destruct s as [|c' s'].
  - simpl. destruct (isDash c); [reflexivity | exact H].
  - change (stripTrailingDash (String c (String c' s')))
      with (String c (stripTrailingDash (String c' s'))).
    cbn [allChars]. rewrite Hc. now apply IH.
Qed.

Lemma noDoubleDash_collapse b s : noDoubleDash b (collapseDashes b s) = true.
Proof.
  revert b. induction s as [|c s IH]; intros b; simpl; [reflexivity|].
  destruct (isDash c) eqn:Hc; [destruct b|]; simpl; rewrite ?Hc; simpl; auto.
Qed.

Lemma noDoubleDash_stripLeading s :
  noDoubleDash false s = true -> noDoubleDash true (stripLeadingDash s) = true.
Proof.
  destruct s as [|c s]; simpl; [reflexivity|].
  destruct (isDash c) eqn:Hc; simpl; [auto|]. now rewrite Hc.
Qed.

Lemma stripTrailing_cons c c' s :
  stripTrailingDash (String c (String c' s)) = String c (stripTrailingDash (String c' s)).
Proof. reflexivity. Qed.

Lemma noDoubleDash_weaken s : noDoubleDash true s = true -> noDoubleDash false s = true.
Proof. destruct s as [|c s]; simpl; [reflexivity|]. destruct (isDash c); [discriminate | auto]. Qed.

Lemma noDoubleDash_stripTrailing s : forall b,
  noDoubleDash b s = true -> noDoubleDash b (stripTrailingDash s) = true.
Proof.
  induction s as [|c s IH]; intros b H; [reflexivity|].
  destruct s as [|c' s'].
  - simpl. destruct (isDash c) eqn:Hc; [reflexivity | exact H].
  - rewrite stripTrailing_cons. cbn [noDoubleDash] in *.
    destruct (isDash c).
    + apply andb_true_iff in H as [Hb H]. rewrite Hb. simpl. now apply IH.
    + now apply IH.
Qed.

Lemma endsWithDash_stripTrailing s : forall b,
  noDoubleDash b s = true -> endsWithDash (stripTrailingDash s) = false.
Proof.
  induction s as [|c s IH]; intros b H; [reflexivity|].
  destruct s as [|c' s'].
  - simpl. destruct (isDash c) eqn:Hc; [reflexivity|]. simpl. exact Hc.
  - rewrite stripTrailing_cons. cbn [noDoubleDash] in H.
    assert (exists b', noDoubleDash b' (String c' s') = true) as [b' H'].
    { destruct (isDash c); [apply andb_true_iff in H as [_ H]|]; eauto. }
    specialize (IH b' H').
    destruct (stripTrailingDash (String c' s')) as [|d r] eqn:Hr; [|exact IH].
    (* the rest was a single dash: [c] must not be one *)
    destruct s' as [|c'' s'']; [|rewrite stripTrailing_cons in Hr; discriminate].
    simpl in Hr. destruct (isDash c') eqn:Hc'; [|discriminate].
    simpl. destruct (isDash c) eqn:Hc; [|reflexivity].
    apply andb_true_iff in H as [_ H]. simpl in H. discriminate.
Qed.

Lemma toSlug_wellFormed (value : string) : wellFormedSlug (toSlug value) = true.
Proof.
  unfold wellFormedSlug, toSlug, stripDashes.
  set (u := collapseDashes false _).
  assert (allChars isSlugChar u = true) as Ha
    by (apply allChars_collapse, allChars_keep).
  assert (noDoubleDash false u = true) as Hd by apply noDoubleDash_collapse.
  rewrite allChars_stripTrailing by now apply allChars_stripLeading.
  rewrite noDoubleDash_stripTrailing by now apply noDoubleDash_stripLeading.
  rewrite (endsWithDash_stripTrailing _ true) by now apply noDoubleDash_stripLeading.
  reflexivity.
Qed.

Lemma slugChar_facts c :
  isSlugChar c = true -> isSpace c = false /\ lowerCodeUnit c = c.
Proof.
  destruct c as [[] [] [] [] [] [] [] []]; vm_compute; intros H;
    first [discriminate | split; reflexivity].
Qed.

Lemma trimStart_slug s : allChars isSlugChar s = true -> trimStart s = s.
Proof.
  destruct s as [|c s]; simpl; [reflexivity|].
  intros [Hc _]%andb_true_iff. apply slugChar_facts in Hc as [-> _]. reflexivity.
Qed.

Lemma trimEnd_slug s : allChars isSlugChar s = true -> trimEnd s = s.
Proof.
  induction s as [|c s IH]; simpl; [reflexivity|].
  intros [Hc Hs]%andb_true_iff. apply slugChar_facts in Hc as [-> _].
  simpl. now rewrite IH.
Qed.

Lemma toLowerCase_slug s : allChars isSlugChar s = true -> toLowerCase s = s.
Proof.
  induction s as [|c s IH]; simpl; [reflexivity|].
  intros [Hc Hs]%andb_true_iff. apply slugChar_facts in Hc as [_ ->]. now rewrite IH.
Qed.

Lemma dashSpaces_slug s : allChars isSlugChar s = true -> dashSpaces false s = s.
Proof.
  induction s as [|c s IH]; simpl; [reflexivity|].
  intros [Hc Hs]%andb_true_iff. apply slugChar_facts in Hc as [-> _]. now rewrite IH.
Qed.

Lemma keepSlugChars_slug s : allChars isSlugChar s = true -> keepSlugChars s = s.
Proof.
  induction s as [|c s IH]; simpl; [reflexivity|].
  intros [Hc Hs]%andb_true_iff. rewrite Hc. now rewrite IH.
Qed.

Lemma collapseDashes_single s : forall b,
  noDoubleDash b s = true -> collapseDashes b s = s.
Proof.
  induction s as [|c s IH]; intros b; simpl; [reflexivity|].
  destruct (isDash c).
  - intros [Hb Hs]%andb_true_iff. destruct b; [discriminate|]. now rewrite IH.
  - intros Hs. now rewrite IH.
Qed.

Lemma stripLeadingDash_none s : noDoubleDash true s = true -> stripLeadingDash s = s.
Proof. destruct s as [|c s]; simpl; [reflexivity|]. destruct (isDash c); [discriminate | reflexivity]. Qed.

Lemma stripTrailingDash_none s : endsWithDash s = false -> stripTrailingDash s = s.
Proof.
  induction s as [|c s IH]; [reflexivity|].
  destruct s as [|c' s'].
  - simpl. now intros ->.
  - rewrite stripTrailing_cons. intros H. now rewrite IH.
Qed.

(** A well-formed slug is a fixed point. *)
Lemma toSlug_fixed (s : string) : wellFormedSlug s = true -> toSlug s = s.
Proof.
  unfold wellFormedSlug. intros [[Ha Hd]%andb_true_iff He%negb_true_iff]%andb_true_iff.
  unfold toSlug, stripDashes, trim.
  rewrite trimStart_slug, trimEnd_slug, toLowerCase_slug, dashSpaces_slug,
    keepSlugChars_slug by assumption.
  rewrite collapseDashes_single by now apply noDoubleDash_weaken.
  rewrite stripLeadingDash_none by assumption.
  now apply stripTrailingDash_none.
Qed.

End SlugFacts.

(** X1: whatever the input, [toSlug] gives lower-case letters, digits and
    single inner dashes only, and slugging a slug changes nothing. *)
Theorem x1_toSlug_shape_idempotent :
  forall value,
    Input.wellFormedSlug (Input.toSlug value) = true /\
    Input.toSlug (Input.toSlug value) = Input.toSlug value.
Proof.
  intros value. split; [apply toSlug_wellFormed|].
  apply toSlug_fixed, toSlug_wellFormed.
Qed.

(** X2: with a blank [searchUrl] the start URL is the site origin followed
    by [/lawyers/], the practice-area slug, a slash and the location slug,
    both slugs non-empty and well formed; the input is invalid exactly when
    one of the two slugs is empty.  A non-blank [searchUrl] is used
    trimmed, whatever the other fields hold. *)
Theorem x2_searchUrl :
  (forall given practiceArea location,
      Dom.trim given <> "" ->
      Input.searchUrl (Some given) practiceArea location = Input.Start (Dom.trim given)) /\
  (forall given practiceArea location,
      default "" given = "" \/ Dom.trim (default "" given) = "" ->
      (Input.searchUrl given practiceArea location = Input.InvalidInput <->
       Input.toSlug (default "" practiceArea) = "" \/
       Input.toSlug (default "" location) = "") /\
      (forall u, Input.searchUrl given practiceArea location = Input.Start u ->
                 exists pa loc,
                   u = JUSTIA_BASE +:+ "/lawyers/" +:+ pa +:+ "/" +:+ loc /\
                   pa <> "" /\ loc <> "" /\
                   Input.wellFormedSlug pa = true /\ Input.wellFormedSlug loc = true)).
Proof.
  split.
  - intros given pa loc Ht. unfold Input.searchUrl. simpl.
    destruct (falsy (Dom.trim given)) eqn:Hf; [apply falsy_spec in Hf; contradiction|].
    destruct (falsy given) eqn:Hg; [|reflexivity].
    apply falsy_spec in Hg. subst given. simpl in Ht. contradiction.
  - intros given pa loc Hblank. unfold Input.searchUrl. cbv zeta.
    assert (negb (falsy (default "" given)) && negb (falsy (Dom.trim (default "" given)))
            = false) as ->.
    { destruct Hblank as [-> | ->]; [reflexivity|]. simpl. apply andb_false_r. }
    destruct (falsy (Input.toSlug (default "" pa))) eqn:Hpa;
      destruct (falsy (Input.toSlug (default "" loc))) eqn:Hloc; simpl;
      rewrite ?falsy_spec in *.
    + split; [tauto | discriminate].
    + split; [tauto | discriminate].
    + split; [tauto | discriminate].
    + split.
      * split; [discriminate|]. intros [H | H]; rewrite H in *; discriminate.
      * intros u [= <-]. eexists _, _. split; [reflexivity|].
        repeat split; try apply toSlug_wellFormed.
        -- intros H. rewrite H in Hpa. discriminate.
        -- intros H. rewrite H in Hloc. discriminate.
Qed.

(** ["  Criminal Law "] in ["New  York!"], and no input at all. *)
Lemma x2_searchUrl_witness :
  Input.searchUrl None (Some "  Criminal Law ") (Some "New  York!")
  = Input.Start "https://www.justia.com/lawyers/criminal-law/new-york" /\
  Input.searchUrl None None (Some "texas") = Input.InvalidInput.
Proof.
  destruct x2_searchUrl as [_ H].
  destruct (H None (Some "  Criminal Law ") (Some "New  York!")) as [_ Hstart];
    [now left|].
  destruct (H None None (Some "texas")) as [Hinv _]; [now left|].
  split; [reflexivity|]. apply Hinv. left. reflexivity.
Defined.

(** ** The detectors look at the lower-case form of their sample *)

Section CaseFacts.

Lemma falsy_toLowerCase s : falsy (toLowerCase s) = falsy s.
Proof. now destruct s. Qed.

Lemma falsy_slice0 n s : falsy (slice0 (S n) s) = falsy s.
Proof. now destruct s. Qed.

(** The verdict of part_001 is a function of the lower-cased sample. *)
Lemma httpFirst_isBlockedHtml_sample html :
  HttpFirstBlocking.isBlockedHtml html
  = let sample := toLowerCase (slice0 5000 html) in
    negb (falsy sample)
    && (includes sample "just a moment" || includes sample "checking your browser"
        || includes sample "cf-browser-verification" || includes sample "cloudflare").
Proof.
  unfold HttpFirstBlocking.isBlockedHtml. cbv zeta.
  rewrite falsy_toLowerCase, (falsy_slice0 4999 html).
  now destruct (falsy html).
Qed.

(** The verdict of src/main.js is a function of the lower-cased body. *)
Lemma cheerio_isBlockedHtml_lower html :
  CheerioBlocking.isBlockedHtml html
  = let lower := toLowerCase html in
    negb (falsy lower)
    && (includes lower "just a moment" || includes lower "verify you are human"
        || includes lower "cf-browser-verification" || includes lower "access denied"
        || includes lower "security of your connection").
Proof.
  unfold CheerioBlocking.isBlockedHtml. cbv zeta.
  rewrite falsy_toLowerCase. now destruct (falsy html).
Qed.

End CaseFacts.



(** ** The website filter of the HTML extractor *)

Section HtmlDedupFacts.

Lemma htmlDedup_spec candidates : forall seen,
  NoDup (map website (HtmlDedup.lawyers candidates seen)) /\
  (forall r, r ∈ HtmlDedup.lawyers candidates seen ->
             r ∈ candidates /\ website r <> "" /\ website r ∉ seen) /\
  (forall r, r ∈ candidates -> website r <> "" -> website r ∉ seen ->
             website r ∈ map website (HtmlDedup.lawyers candidates seen)) /\
  HtmlDedup.lawyers candidates seen `sublist_of` candidates.
Proof.
  induction candidates as [|c rest IH]; intros seen; simpl.
  - split; [apply NoDup_nil_2|]. split; [intros r Hr; now apply elem_of_nil in Hr|].
    split; [intros r Hr; now apply elem_of_nil in Hr | constructor].
  - destruct (falsy (website c)) eqn:Hf; simpl.
    + destruct (IH seen) as (Hnd & Hin & Hcov & Hsub).
      apply falsy_spec in Hf.
      repeat split; try assumption.
      * apply Hin in H. set_solver.
      * apply Hin in H. tauto.
      * apply Hin in H. tauto.
      * intros r Hr Hne Hs. apply elem_of_cons in Hr as [-> | Hr]; [congruence|].
        now apply Hcov.
      * now apply sublist_cons.
    + case_bool_decide as Hseen.
      * destruct (IH seen) as (Hnd & Hin & Hcov & Hsub).
        repeat split; try assumption.
        -- apply Hin in H. set_solver.
        -- apply Hin in H. tauto.
        -- apply Hin in H. tauto.
        -- intros r Hr Hne Hs. apply elem_of_cons in Hr as [-> | Hr]; [contradiction|].
           now apply Hcov.
        -- now apply sublist_cons.
      * destruct (IH ({[website c]} ∪ seen)) as (Hnd & Hin & Hcov & Hsub).
        repeat split.
        -- simpl. constructor; [|exact Hnd].
           intros Hk. apply list_elem_of_fmap in Hk as (r & Hk & Hr).
           apply Hin in Hr as (_ & _ & Hr). set_solver.
        -- apply elem_of_cons in H as [-> | H]; [set_solver|].
           apply Hin in H. set_solver.
        -- apply elem_of_cons in H as [-> | H].
           ++ intros E. rewrite E in Hf. discriminate.
           ++ apply Hin in H. tauto.
        -- apply elem_of_cons in H as [-> | H]; [exact Hseen|].
           apply Hin in H. set_solver.
        -- intros r Hr Hne Hs. simpl.
           destruct (decide (website r = website c)) as [-> | Hdiff]; [set_solver|].
           apply elem_of_cons in Hr as [-> | Hr]; [contradiction|].
           apply elem_of_cons. right. apply Hcov; [assumption..|]. set_solver.
        -- now apply sublist_skip.
Qed.

End HtmlDedupFacts.

(** X4: the website filter that ends the HTML extractor keeps the
    candidates in order, drops those without a profile URL, keeps one
    candidate per profile URL, and loses no profile URL. *)
Theorem x4_html_dedup_by_website :
  forall candidates,
    let lawyers := HtmlDedup.lawyers candidates ∅ in
    NoDup (map website lawyers) /\
    lawyers `sublist_of` candidates /\
    (forall r, r ∈ lawyers -> website r <> "") /\
    (forall r, r ∈ candidates -> website r <> "" -> website r ∈ map website lawyers).
Proof.
  intros candidates lawyers. subst lawyers.
  destruct (htmlDedup_spec candidates ∅) as (Hnd & Hin & Hcov & Hsub).
  repeat split; try assumption.
  - intros r Hr. apply Hin in Hr. tauto.
  - intros r Hr Hne. apply Hcov; [assumption..|]. apply not_elem_of_empty.
Qed.

(** Two cards of the same profile around a card without URL. *)
Lemma x4_html_dedup_by_website_witness :
  website (Fixture.candidate 1)
  ∈ map website (HtmlDedup.lawyers
                   [Fixture.candidate 0; Fixture.anonymous3; Fixture.candidate 0;
                    Fixture.candidate 1] ∅).
Proof.
  destruct (x4_html_dedup_by_website
              [Fixture.candidate 0; Fixture.anonymous3; Fixture.candidate 0;
               Fixture.candidate 1]) as (_ & _ & _ & Hcov).
  apply Hcov; [|discriminate].
  do 3 apply list_elem_of_further. apply list_elem_of_here.
Defined.

(** ** The work-list walk: what it finds *)

Lemma Forall2_elem_of_l {A B} (R : A -> B -> Prop) (xs : list A) (ys : list B) x :
  Forall2 R xs ys -> x ∈ xs -> exists y, y ∈ ys /\ R x y.
Proof.
  induction 1 as [|x' y' xs ys Hxy _ IH]; intros Hx; [now apply elem_of_nil in Hx|].
  apply elem_of_cons in Hx as [-> | Hx].
  - exists y'. split; [left | exact Hxy].
  - destruct (IH Hx) as (y & Hy & HR). exists y. split; [now right | exact HR].
Qed.

Lemma Forall2_elem_of_r {A B} (R : A -> B -> Prop) (xs : list A) (ys : list B) y :
  Forall2 R xs ys -> y ∈ ys -> exists x, x ∈ xs /\ R x y.
Proof.
  induction 1 as [|x' y' xs ys Hxy _ IH]; intros Hy; [now apply elem_of_nil in Hy|].
  apply elem_of_cons in Hy as [-> | Hy].
  - exists x'. split; [left | exact Hxy].
  - destruct (IH Hy) as (x & Hx & HR). exists x. split; [now right | exact HR].
Qed.

Section WalkResults.

Import Walk.

Variable h : gmap loc container.
Variable newURL : value -> string -> option string.
Variable toString : value -> option string.
Variable joinComma : list value -> option string.
Variable now : string.
Variable profiles : bool.

Abbreviation wloop' := (Walk.loop h newURL joinComma now profiles).
Abbreviation found_at := (Walk.recordsAt h newURL joinComma now profiles).
Abbreviation key := (Walk.entryKey toString).

(** What the filter keeps: the keys of the records kept are the keys of
    the records given that are not in [seen], each once. *)
Lemma dedup_spec results : forall seen out,
  dedup toString results seen = Ok out ->
  exists rkeys keys,
    JsonLd.traverse key results = Ok rkeys /\
    JsonLd.traverse key out = Ok keys /\
    NoDup keys /\
    (forall k, k ∈ keys -> k ∉ seen) /\
    (forall r, r ∈ out -> r ∈ results) /\
    (forall k, k ∈ rkeys -> k ∉ seen -> k ∈ keys).
Proof using Type.
  induction results as [|c rest IH]; intros seen out; simpl.
  - intros [= <-]. exists [], []. simpl.
    split; [reflexivity|]. split; [reflexivity|]. split; [apply NoDup_nil_2|].
    split; [intros k Hk; now apply elem_of_nil in Hk|].
    split; [intros r Hr; exact Hr | intros k Hk; now apply elem_of_nil in Hk].
  - destruct (key c) as [kc| |] eqn:Hkc; simpl; try discriminate.
    case_bool_decide as Hseen.
    + intros Hout. apply IH in Hout as (rkeys & keys & -> & Hk & Hnd & Hnew & Hin & Hcov).
      exists (kc :: rkeys), keys. simpl.
      split; [reflexivity|]. split; [exact Hk|]. split; [exact Hnd|].
      split; [exact Hnew|]. split; [intros r Hr; right; now apply Hin|].
      intros k [-> | Hk']%elem_of_cons Hns; [contradiction | now apply Hcov].
    + intros (kept & Hkept & [= <-])%bind_ok.
      apply IH in Hkept as (rkeys & keys & -> & Hk & Hnd & Hnew & Hin & Hcov).
      exists (kc :: rkeys), (kc :: keys). simpl. rewrite Hkc, Hk. simpl.
      split; [reflexivity|]. split; [reflexivity|]. split; [|split; [|split]].
      * constructor; [|exact Hnd].
        intros Hin'. apply Hnew in Hin'. apply Hin'.
        apply elem_of_union_l, elem_of_singleton. reflexivity.
      * intros k [-> | Hk']%elem_of_cons; [exact Hseen|].
        intros Hs. apply (Hnew k Hk'). now apply elem_of_union_r.
      * intros r [-> | Hr]%elem_of_cons; [left | right; now apply Hin].
      * intros k Hk' Hns.
        destruct (decide (k = kc)) as [-> | Hdiff]; [left|].
        apply elem_of_cons in Hk' as [-> | Hk']; [contradiction|].
        right. apply Hcov; [exact Hk'|].
        intros [Hs | Hs]%elem_of_union; [|contradiction].
        apply elem_of_singleton in Hs. contradiction.
Qed.

Lemma recordOf_named item pageUrl r :
  recordOf h newURL joinComma now item pageUrl = Ok (Some r) -> truthy (name r) = true.
Proof using Type.
  unfold recordOf. cbv zeta. destruct (_ && _); [discriminate|].
  intros (practiceAreas & _ & [= <-])%bind_ok. cbn [name]. unfold or at 1.
  destruct (truthy (rawName h item)) eqn:Hn; [exact Hn | reflexivity].
Qed.

Lemma recordsOf_named items pageUrl rs :
  recordsOf h newURL joinComma now items pageUrl = Ok rs ->
  Forall (fun r => truthy (name r) = true) rs.
Proof using Type.
  unfold recordsOf. intros (found & Hfound & [= <-])%bind_ok.
  apply traverse_inv in Hfound. apply Forall_forall. intros r Hr.
  apply list_elem_of_omap in Hr as (o & Ho & Hr). simpl in Hr. subst o.
  destruct (Forall2_elem_of_r _ _ _ _ Hfound Ho) as (item & _ & Hitem).
  eapply recordOf_named, Hitem.
Qed.

Lemma recordsAt_named node pageUrl rs :
  found_at node pageUrl = Ok rs -> Forall (fun r => truthy (name r) = true) rs.
Proof using Type.
  unfold recordsAt. intros (found & Hfound & [= <-])%bind_ok.
  apply traverse_inv in Hfound. apply Forall_forall. intros r Hr.
  apply list_elem_of_In, in_concat in Hr as (rs & Hrs & Hr).
  apply list_elem_of_In in Hrs. apply list_elem_of_In in Hr.
  destruct (Forall2_elem_of_r _ _ _ _ Hfound Hrs) as (arr & _ & Harr).
  destruct (asArray h arr) as [items|].
  - apply recordsOf_named in Harr. revert r Hr. now apply Forall_forall.
  - injection Harr as <-. now apply elem_of_nil in Hr.
Qed.

(** What one run of the loop adds: the containers it processes are new,
    everything on the stack and everything they reference gets processed,
    and the records found at each of them are among the results. *)
Lemma loop_complete fuel pageUrl : forall stack visited results order r o,
  wloop' fuel pageUrl stack visited results order = Ok (r, o) ->
  exists o' rs',
    o = order ++ o' /\ r = results ++ rs' /\
    (forall l, VRef l ∈ stack -> l ∈ visited \/ l ∈ o') /\
    (forall l, l ∈ o' ->
       (forall l', VRef l' ∈ values h l -> l' ∈ visited \/ l' ∈ o') /\
       (exists found, found_at (VRef l) pageUrl = Ok found /\
                      forall x, x ∈ found -> x ∈ rs')) /\
    Forall (fun x => truthy (name x) = true) rs'.
Proof using Type.
  induction fuel as [|fuel IH]; intros stack visited results order r o;
    destruct stack as [|node stack]; cbn [Walk.loop]; try discriminate.
  - intros [= <- <-]. exists [], []. rewrite !app_nil_r.
    split; [reflexivity|]. split; [reflexivity|].
    split; [intros l Hl; now apply elem_of_nil in Hl|].
    split; [intros l Hl; now apply elem_of_nil in Hl | apply Forall_nil_2].
  - intros [= <- <-]. exists [], []. rewrite !app_nil_r.
    split; [reflexivity|]. split; [reflexivity|].
    split; [intros l Hl; now apply elem_of_nil in Hl|].
    split; [intros l Hl; now apply elem_of_nil in Hl | apply Forall_nil_2].
  - assert (forall l, VRef l ∈ node :: stack -> node <> VRef l -> VRef l ∈ stack) as Htail.
    { intros l [-> | Hl]%elem_of_cons Hne; [contradiction | exact Hl]. }
    destruct node as [| | b | n | s | l0 | f];
      try (intros Hloop; apply IH in Hloop as (o' & rs' & -> & -> & Hst & Hcl & Hnm);
           exists o', rs'; split; [reflexivity|]; split; [reflexivity|];
           split; [|split; [exact Hcl | exact Hnm]];
           intros l Hl; apply Hst, Htail; [exact Hl | discriminate]).
    case_bool_decide as Hin.
    + intros Hloop. apply IH in Hloop as (o' & rs' & -> & -> & Hst & Hcl & Hnm).
      exists o', rs'. split; [reflexivity|]. split; [reflexivity|].
      split; [|split; [exact Hcl | exact Hnm]].
      intros l Hl. destruct (decide (l = l0)) as [-> | Hne]; [now left|].
      apply Hst, Htail; [exact Hl | congruence].
    + intros (found & Hfound & Hloop)%bind_ok.
      apply IH in Hloop as (o' & rs' & -> & -> & Hst & Hcl & Hnm).
      exists (l0 :: o'), (found ++ rs').
      rewrite <- !app_assoc. split; [reflexivity|]. split; [reflexivity|].
      assert (forall l, l ∈ {[l0]} ∪ visited \/ l ∈ o' -> l ∈ visited \/ l ∈ l0 :: o')
        as Hconv.
      { intros l [[Hl | Hl]%elem_of_union | Hl].
        - apply elem_of_singleton in Hl as ->. right. left.
        - now left.
        - right. now right. }
      split; [|split].
      * intros l Hl. destruct (decide (l = l0)) as [-> | Hne]; [right; left|].
        apply Hconv, Hst, elem_of_app. right. apply Htail; [exact Hl | congruence].
      * intros l [-> | Hl]%elem_of_cons.
        -- split.
           ++ intros l' Hl'. apply Hconv, Hst, elem_of_app. left.
              unfold pushed. apply list_elem_of_In. apply (proj1 (in_rev _ _)).
              apply filter_In. split; [now apply list_elem_of_In | reflexivity].
           ++ exists found. split; [exact Hfound|].
              intros x Hx. apply elem_of_app. now left.
        -- destruct (Hcl l Hl) as [Hkids (found' & Hfound' & Hrecs)]. split.
           ++ intros l' Hl'. now apply Hconv, Hkids.
           ++ exists found'. split; [exact Hfound'|].
              intros x Hx. apply elem_of_app. right. now apply Hrecs.
      * apply Forall_app. split; [eapply recordsAt_named, Hfound | exact Hnm].
Qed.

End WalkResults.


(** X6: no container that can be reached from the root is skipped: the
    records of the lawyers arrays of every reachable container have been
    found, and the identity key of each is the key of a returned record. *)
Theorem x6_walk_reaches_every_container :
  forall h newURL toString joinComma now profiles root pageUrl out l,
    Walk.extractLawyersFromJsonObject h newURL toString joinComma now profiles
      root pageUrl = JsonLd.Ok out ->
    reachable h root l ->
    exists found,
      Walk.recordsAt h newURL joinComma now profiles (Walk.VRef l) pageUrl
      = JsonLd.Ok found /\
      forall r, r ∈ found ->
        exists k r', Walk.entryKey toString r = JsonLd.Ok k /\
                     r' ∈ out /\ Walk.entryKey toString r' = JsonLd.Ok k.
Proof.
  intros h newURL toString joinComma now profiles root pageUrl out l.
  unfold Walk.extractLawyersFromJsonObject.
  intros ([results order] & Hloop & Hout)%bind_ok Hreach. cbn in Hout.
  apply loop_complete in Hloop as (o' & rs' & _ & Hres & Hst & Hcl & _).
  simpl in Hres. subst rs'.
  assert (forall l2, reachable h root l2 -> l2 ∈ o') as Hall.
  { clear l Hreach. intros l2 Hreach.
    induction Hreach as [l0 -> | l0 l1 _ IH Hkid].
    - destruct (Hst l0) as [Hv | Ho]; [left | now apply not_elem_of_empty in Hv | exact Ho].
    - destruct (Hcl l0 IH) as [Hkids _].
      destruct (Hkids l1 Hkid) as [Hv | Ho];
        [now apply not_elem_of_empty in Hv | exact Ho]. }
  pose proof (Hall l Hreach) as Hl.
  destruct (Hcl l Hl) as [_ (found & Hfound & Hrecs)].
  exists found. split; [exact Hfound|]. intros r Hr.
  apply dedup_spec in Hout as (rkeys & keys & Hrkeys & Hkeys & _ & _ & _ & Hcov).
  apply traverse_inv in Hrkeys. apply traverse_inv in Hkeys.
  destruct (Forall2_elem_of_l _ _ _ _ Hrkeys (Hrecs r Hr)) as (k & Hk & Hkr).
  destruct (Forall2_elem_of_r _ _ _ _ Hkeys (Hcov k Hk (not_elem_of_empty k)))
    as (r' & Hr' & Hkr').
  exists k, r'. split; [exact Hkr|]. split; [exact Hr' | exact Hkr'].
Qed.


(** The array sits two references below the root of the nested fixture. *)
Lemma x6_walk_reaches_every_container_witness :
  exists found,
    Walk.recordsAt FixtureNested.nested (FixtureGraph.newURL FixtureNested.nested)
      (FixtureGraph.joinComma FixtureNested.nested) FixtureLd.now false
      (Walk.VRef 2%positive) Fixture.page1 = JsonLd.Ok found /\
    forall r, r ∈ found ->
      exists k r',
        Walk.entryKey (FixtureGraph.toString FixtureNested.nested) r = JsonLd.Ok k /\
        r' ∈ [{| Walk.name := Walk.VStr "Ann Lee"; Walk.firmName := Walk.VStr "";
                 Walk.location := Walk.VStr ""; Walk.address := Walk.VStr "";
                 Walk.phone := Walk.VStr ""; Walk.email := Walk.VStr "";
                 Walk.website := "";
                 Walk.practiceAreas := Walk.VStr ""; Walk.description := Walk.VStr "";
                 Walk.yearsLicensed := Walk.VStr ""; Walk.biography := Walk.VNull;
                 Walk.education := Walk.VNull; Walk.barAdmissions := Walk.VNull;
                 Walk.languages := Walk.VNull; Walk.scrapedAt := FixtureLd.now |}] /\
        Walk.entryKey (FixtureGraph.toString FixtureNested.nested) r' = JsonLd.Ok k.
Proof.
  apply (x6_walk_reaches_every_container FixtureNested.nested
           (FixtureGraph.newURL FixtureNested.nested)
           (FixtureGraph.toString FixtureNested.nested)
           (FixtureGraph.joinComma FixtureNested.nested) FixtureLd.now false
           (Walk.VRef 1%positive) Fixture.page1).
  - vm_compute. reflexivity.
  - apply reach_step with (l := 1%positive); [now apply reach_root|].
    vm_compute. repeat constructor.
Defined.

(** ** The CheerioCrawler run: distinct records and the page budget *)

Section CheerioRunFacts.

Variable maxLawyers maxPages : Z.
Variable fetchFullProfiles : bool.
Variable extractLawyersFromJsonLdHtml : string -> string -> list Lawyer.
Variable extractLawyersFromNextData : string -> string -> list Lawyer.
Variable extractListingViaHtml : string -> string -> list Lawyer.
Variable findNextPageUrl : string -> string -> string.
Variable enrichProfileWithDetailsHttp : string -> Lawyer -> Lawyer.
Variable fetch : string -> Response.

Hypothesis enrich_keeps_website :
  forall profileUrl baseData,
    website (enrichProfileWithDetailsHttp profileUrl baseData) = website baseData.

Abbreviation handler :=
  (Cheerio.requestHandler maxLawyers maxPages fetchFullProfiles
     extractLawyersFromJsonLdHtml extractLawyersFromNextData extractListingViaHtml
     findNextPageUrl enrichProfileWithDetailsHttp).
Abbreviation crawl' :=
  (Cheerio.crawl maxLawyers maxPages fetchFullProfiles
     extractLawyersFromJsonLdHtml extractLawyersFromNextData extractListingViaHtml
     findNextPageUrl enrichProfileWithDetailsHttp fetch).

Lemma dedupKey_website l : website l <> "" -> dedupKey l = website l.
Proof. unfold dedupKey. destruct (website l); [congruence | reflexivity]. Qed.

Lemma enrichAll_keys unique :
  map dedupKey (Cheerio.enrichAll fetchFullProfiles enrichProfileWithDetailsHttp unique)
  = map dedupKey unique.
Proof using enrich_keeps_website.
  unfold Cheerio.enrichAll. destruct fetchFullProfiles; [|reflexivity].
  induction unique as [|b rest IH]; simpl; [reflexivity|]. rewrite IH. f_equal.
  destruct (falsy (website b)) eqn:Hf; [reflexivity|].
  assert (website b <> "") as Hne by (intros E; rewrite E in Hf; discriminate).
  rewrite !dedupKey_website; rewrite ?enrich_keeps_website; auto.
Qed.

Lemma handler_ledger st request response st' enq :
  ledger_covers st ->
  handler st request response = Cheerio.Return st' enq ->
  ledger_covers st'.
Proof using enrich_keeps_website.
  intros [Hnd Hin] Hret.
  destruct (requestHandler_inv maxLawyers maxPages fetchFullProfiles
              extractLawyersFromJsonLdHtml extractLawyersFromNextData
              extractListingViaHtml findNextPageUrl enrichProfileWithDetailsHttp
              st request response) as [Hthrow | (u & s & t & Hloop & Heq)];
    [congruence|].
  rewrite Heq in Hret. injection Hret as <- _.
  match type of Hloop with Cheerio.filterLoop _ ?ls _ _ _ = _ =>
    pose proof (filterLoop_spec maxLawyers ls (Cheerio.seenWebsites st)
                  (Cheerio.totalScraped st)) as Hspec end.
  rewrite Hloop in Hspec. destruct Hspec as (_ & Hs & Hndu & Hmem & _).
  unfold ledger_covers. cbn [Cheerio.dataset Cheerio.seenWebsites].
  rewrite map_app, enrichAll_keys. split.
  - apply NoDup_app. split; [exact Hnd|]. split; [|exact Hndu].
    intros k Hk Hk'. apply Hin in Hk.
    apply list_elem_of_fmap in Hk' as (l & -> & Hl).
    apply Hmem in Hl as [_ Hl]. contradiction.
  - intros k [Hk | Hk]%elem_of_app; rewrite Hs.
    + apply elem_of_union_r. now apply Hin.
    + apply elem_of_union_l, elem_of_list_to_set. exact Hk.
Qed.

Lemma crawl_ledger fuel : forall st request handled queued trace,
  ledger_covers st ->
  ledger_covers (crawl' fuel st request handled queued trace).1.
Proof using enrich_keeps_website.
  induction fuel as [|fuel IH]; intros st request handled queued trace Hinv; simpl;
    [exact Hinv|].
  destruct (limitReached maxPages handled); [exact Hinv|].
  destruct (handler st request (fetch (url request))) as [|st' [next|]] eqn:Hh.
  - destruct (retryCount request <? Cheerio.maxRequestRetries); [apply IH|]; exact Hinv.
  - apply handler_ledger in Hh; [|exact Hinv].
    case_bool_decide; [exact Hh | now apply IH].
  - now apply handler_ledger in Hh.
Qed.

Lemma crawl_pages fuel : forall st request handled queued trace,
  0 < maxPages ->
  Cheerio.pagesProcessed st = handled -> handled <= maxPages ->
  Cheerio.pagesProcessed (crawl' fuel st request handled queued trace).1 <= maxPages.
Proof using Type.
  induction fuel as [|fuel IH]; intros st request handled queued trace Hpos Hp Hle; simpl;
    [lia|].
  destruct (limitReached maxPages handled) eqn:Hlim; [simpl; lia|].
  assert (handled < maxPages) as Hlt.
  { unfold limitReached in Hlim. apply andb_false_iff in Hlim as [H|H]; lia. }
  destruct (requestHandler_inv maxLawyers maxPages fetchFullProfiles
              extractLawyersFromJsonLdHtml extractLawyersFromNextData
              extractListingViaHtml findNextPageUrl enrichProfileWithDetailsHttp
              st request (fetch (url request))) as [Hthrow | (u & s & t & _ & Heq)].
  - rewrite Hthrow.
    destruct (retryCount request <? Cheerio.maxRequestRetries); [apply IH; lia | simpl; lia].
  - rewrite Heq. destruct (nextRequest _ _ _ _ _ _) as [next|]; [|simpl; lia].
    case_bool_decide; [simpl; lia|]. apply IH; simpl; lia.
Qed.

End CheerioRunFacts.

(** The detail-page enrichment never changes the profile URL of a record. *)
Lemma enrichProfileWithDetailsHttp_website html page baseData :
  website (Enrich.enrichProfileWithDetailsHttp html page baseData) = website baseData.
Proof.
  destruct (enrich_cases html page baseData) as [-> | (m & Hm & ->)]; [reflexivity|].
  now apply merge_keeps_strings in Hm as (_ & Hw & _).
Qed.

(** X7: over a whole run of the CheerioCrawler program, whatever the pages
    hold, no two stored records share an identity key, provided the
    enrichment leaves the profile URL of a record alone, as
    [enrichProfileWithDetailsHttp] does. *)
Theorem x7_cheerio_run_distinct_records :
  forall maxLawyers maxPages fetchFullProfiles extractLawyersFromJsonLdHtml
         extractLawyersFromNextData extractListingViaHtml findNextPageUrl
         enrichProfileWithDetailsHttp fetch fuel searchUrl,
    (forall profileUrl baseData,
        website (enrichProfileWithDetailsHttp profileUrl baseData) = website baseData) ->
    NoDup (map dedupKey
             (Cheerio.dataset
                (Cheerio.run maxLawyers maxPages fetchFullProfiles
                   extractLawyersFromJsonLdHtml extractLawyersFromNextData
                   extractListingViaHtml findNextPageUrl enrichProfileWithDetailsHttp
                   fetch fuel searchUrl).1)).
Proof.
  intros until searchUrl. intros Henrich. unfold Cheerio.run.
  apply (crawl_ledger maxLawyers maxPages fetchFullProfiles
           extractLawyersFromJsonLdHtml extractLawyersFromNextData
           extractListingViaHtml findNextPageUrl enrichProfileWithDetailsHttp fetch
           Henrich).
  split; simpl; [apply NoDup_nil_2 | intros k Hk; now apply elem_of_nil in Hk].
Qed.

(** The three-page site with enrichment switched on, each detail page
    read as the blank page of the fixture. *)
Lemma x7_cheerio_run_distinct_records_witness :
  NoDup (map dedupKey
           (Cheerio.dataset
              (Cheerio.run 0 0 true Fixture.extractLawyersFromJsonLdHtml
                 Fixture.extractLawyersFromNextData Fixture.extractListingViaHtml
                 Fixture.findNextPageUrl
                 (fun _ => Enrich.enrichProfileWithDetailsHttp "<html>profile</html>"
                             FixtureDetail.blank)
                 Fixture.fetch 5 Fixture.page1).1)).
Proof.
  apply x7_cheerio_run_distinct_records.
  intros profileUrl baseData. apply enrichProfileWithDetailsHttp_website.
Defined.

(** X8: with a positive [maxPages] the CheerioCrawler run processes at
    most [maxPages] listing pages. *)
Theorem x8_cheerio_page_budget :
  forall maxLawyers maxPages fetchFullProfiles extractLawyersFromJsonLdHtml
         extractLawyersFromNextData extractListingViaHtml findNextPageUrl
         enrichProfileWithDetailsHttp fetch fuel searchUrl,
    0 < maxPages ->
    Cheerio.pagesProcessed
      (Cheerio.run maxLawyers maxPages fetchFullProfiles
         extractLawyersFromJsonLdHtml extractLawyersFromNextData
         extractListingViaHtml findNextPageUrl enrichProfileWithDetailsHttp
         fetch fuel searchUrl).1 <= maxPages.
Proof.
  intros until searchUrl. intros Hpos. unfold Cheerio.run.
  apply crawl_pages; simpl; lia.
Qed.

(** Two pages allowed on the three-page site. *)
Lemma x8_cheerio_page_budget_witness :
  Cheerio.pagesProcessed (Fixture.cheerioRun 0 2 9 Fixture.page1).1 <= 2.
Proof.
  apply (x8_cheerio_page_budget 0 2 false Fixture.extractLawyersFromJsonLdHtml
           Fixture.extractLawyersFromNextData Fixture.extractListingViaHtml
           Fixture.findNextPageUrl Fixture.enrich Fixture.fetch 9%nat Fixture.page1).
  lia.
Defined.

(** ** The HTTP-first run: budgets of records, pages and detail fetches *)

Section HttpRunFacts.

Variable maxLawyers maxPages : Z.
Variable fetchFullProfiles : bool.
Variable fetchHttp : string -> HttpFirst.HttpResult.
Variable pageContent : string -> string.
Variable Json : Type.
Variable safeJsonParse : string -> option Json.
Variable extractLawyersFromJsonObject : Json -> string -> list Lawyer.
Variable tryExtractApiUrlFromHtml : string -> string -> string.
Variable extractListingViaEmbeddedJson : string -> string -> list Lawyer.
Variable extractListingViaHtml : string -> string -> list Lawyer.
Variable findNextPageUrl : string -> string -> string.
Variable detailEmail detailBiography : string -> string.
Variable detailEducation detailBarAdmissions detailLanguages : string -> list string.

Abbreviation httpCascade :=
  (HttpFirst.cascade fetchHttp Json safeJsonParse extractLawyersFromJsonObject
     tryExtractApiUrlFromHtml extractListingViaEmbeddedJson extractListingViaHtml).
Abbreviation fetchProfileDetails :=
  (HttpFirst.fetchProfileDetails fetchHttp detailEmail detailBiography
     detailEducation detailBarAdmissions detailLanguages).
Abbreviation enrichLoop :=
  (HttpFirst.enrichLoop fetchHttp detailEmail detailBiography
     detailEducation detailBarAdmissions detailLanguages).
Abbreviation saveResults :=
  (HttpFirst.saveResults maxLawyers fetchFullProfiles fetchHttp detailEmail
     detailBiography detailEducation detailBarAdmissions detailLanguages).
Abbreviation fallbackHandler :=
  (HttpFirst.fallbackHandler pageContent extractListingViaEmbeddedJson
     extractListingViaHtml findNextPageUrl).
Abbreviation fallbackCrawl :=
  (HttpFirst.fallbackCrawl pageContent extractListingViaEmbeddedJson
     extractListingViaHtml findNextPageUrl).
Abbreviation runBrowserFallback :=
  (HttpFirst.runBrowserFallback pageContent extractListingViaEmbeddedJson
     extractListingViaHtml findNextPageUrl).
Abbreviation mainLoop :=
  (HttpFirst.mainLoop maxLawyers maxPages fetchFullProfiles fetchHttp pageContent
     Json safeJsonParse extractLawyersFromJsonObject tryExtractApiUrlFromHtml
     extractListingViaEmbeddedJson extractListingViaHtml findNextPageUrl
     detailEmail detailBiography detailEducation detailBarAdmissions detailLanguages).

(** The state after [pagesProcessed += 1] and the fetch of [nextUrl]. *)
Abbreviation advance st nextUrl blocked :=
  (HttpFirst.mkState (HttpFirst.seenWebsites st) (HttpFirst.pagesProcessed st + 1)
     (HttpFirst.totalScraped st) (HttpFirst.extractionMethod st)
     (if (blocked : bool) then HttpFirst.consecutiveBlocked st + 1 else 0)
     (HttpFirst.dataset st)
     (HttpFirst.trace st ++ [mkFetch Lightweight Listing nextUrl blocked])).

Lemma countFetches_app p tr1 tr2 :
  countFetches p (tr1 ++ tr2) = (countFetches p tr1 + countFetches p tr2)%nat.
Proof. unfold countFetches. now rewrite List.filter_app, length_app. Qed.

Lemma countFetches_none p tr :
  Forall (fun e => p e = false) tr -> countFetches p tr = 0%nat.
Proof.
  unfold countFetches. induction 1 as [|e tr He _ IH]; simpl; [reflexivity|].
  now rewrite He.
Qed.

Lemma countFetches_all p tr :
  Forall (fun e => p e = true) tr -> countFetches p tr = length tr.
Proof.
  unfold countFetches. induction 1 as [|e tr He _ IH]; simpl; [reflexivity|].
  rewrite He. simpl. now rewrite IH.
Qed.

(** The cascade touches nothing but the method label and the trace, which
    gains at most the probe of the JSON endpoint. *)
Lemma cascade_fields st r :
  let st' := (httpCascade st r).1 in
  HttpFirst.pagesProcessed st' = HttpFirst.pagesProcessed st /\
  HttpFirst.totalScraped st' = HttpFirst.totalScraped st /\
  HttpFirst.dataset st' = HttpFirst.dataset st /\
  exists ev, HttpFirst.trace st' = HttpFirst.trace st ++ ev /\
             Forall (fun e => fetchMode e = Lightweight /\ fetchPurpose e = ApiProbe) ev.
Proof using Type.
  unfold HttpFirst.cascade, HttpFirst.extractListingViaJsonApi.
  destruct (falsy _); [|destruct (safeJsonParse _)]; simpl; repeat split;
    first [ exists []; rewrite app_nil_r; split; [reflexivity | constructor]
          | eexists; split; [reflexivity | repeat constructor] ].
Qed.

Lemma uniqueLoop_length remaining lawyers : forall seen unique,
  0 < maxLawyers ->
  Z.of_nat (length unique) < remaining ->
  Z.of_nat (length (HttpFirst.uniqueLoop maxLawyers remaining lawyers seen unique).1)
  <= remaining.
Proof using Type.
  induction lawyers as [|l rest IH]; intros seen unique Hpos Hlen; simpl; [lia|].
  destruct (falsy (website l)); [now apply IH|].
  case_bool_decide; [now apply IH|].
  replace (0 <? maxLawyers) with true by (symmetry; apply Z.ltb_lt; lia). simpl.
  destruct (remaining <=? _) eqn:Hstop.
  - simpl. rewrite length_app. simpl. lia.
  - apply IH; [exact Hpos|]. apply Z.leb_gt in Hstop. exact Hstop.
Qed.

Lemma fetchProfileDetails_state st profileUrl :
  (fetchProfileDetails st profileUrl).1
  = HttpFirst.logFetch (mkFetch Lightweight Detail profileUrl false) st.
Proof using Type.
  unfold HttpFirst.fetchProfileDetails.
  destruct (negb _); [reflexivity|]. now destruct (HttpFirstBlocking.isBlockedHtml _).
Qed.

(** One detail fetch per record, and nothing else. *)
Lemma enrichLoop_spec unique : forall st enriched,
  let st' := (enrichLoop st unique enriched).1 in
  let out := (enrichLoop st unique enriched).2 in
  length out = (length enriched + length unique)%nat /\
  HttpFirst.pagesProcessed st' = HttpFirst.pagesProcessed st /\
  HttpFirst.totalScraped st' = HttpFirst.totalScraped st /\
  HttpFirst.dataset st' = HttpFirst.dataset st /\
  HttpFirst.trace st'
  = HttpFirst.trace st ++ map (fun b => mkFetch Lightweight Detail (website b) false) unique.
Proof using Type.
  induction unique as [|base rest IH]; intros st enriched; simpl.
  - rewrite app_nil_r. repeat split; lia.
  - pose proof (fetchProfileDetails_state st (website base)) as Hst.
    destruct (HttpFirst.fetchProfileDetails _ _ _ _ _ _ _ _) as [st1 details].
    simpl in Hst. subst st1.
    specialize (IH (HttpFirst.logFetch (mkFetch Lightweight Detail (website base) false) st)
                   (enriched ++ [HttpFirst.mergeDetails base details])).
    simpl in IH. destruct IH as (Hlen & Hp & Ht & Hd & Htr).
    repeat split; try assumption.
    + rewrite Hlen, length_app. simpl. lia.
    + rewrite Htr. now rewrite <- app_assoc.
Qed.

Lemma saveResults_spec st lawyers :
  exists saved ev,
    HttpFirst.dataset (saveResults st lawyers) = HttpFirst.dataset st ++ saved /\
    HttpFirst.totalScraped (saveResults st lawyers)
    = HttpFirst.totalScraped st + Z.of_nat (length saved) /\
    HttpFirst.pagesProcessed (saveResults st lawyers) = HttpFirst.pagesProcessed st /\
    (0 < maxLawyers -> HttpFirst.totalScraped st < maxLawyers ->
     HttpFirst.totalScraped st + Z.of_nat (length saved) <= maxLawyers) /\
    HttpFirst.trace (saveResults st lawyers) = HttpFirst.trace st ++ ev /\
    Forall (fun e => fetchMode e = Lightweight /\ fetchPurpose e = Detail) ev /\
    length ev = (if fetchFullProfiles then length saved else 0%nat).
Proof using Type.
  unfold HttpFirst.saveResults. destruct (nonEmpty lawyers).
  2:{ exists [], []. rewrite !app_nil_r. simpl.
      repeat split; try lia; try constructor. now destruct fetchFullProfiles. }
  match goal with |- context [HttpFirst.uniqueLoop _ ?rem _ _ _] =>
    pose proof (fun Hpos Hlt => uniqueLoop_length rem lawyers (HttpFirst.seenWebsites st) []
                                  Hpos Hlt) as Hbound;
    destruct (HttpFirst.uniqueLoop maxLawyers rem lawyers (HttpFirst.seenWebsites st) [])
      as [unique seen] eqn:Hu end.
  simpl in Hbound.
  assert (0 < maxLawyers -> HttpFirst.totalScraped st < maxLawyers ->
          HttpFirst.totalScraped st + Z.of_nat (length unique) <= maxLawyers) as Hfit.
  { intros Hpos Hlt. revert Hbound.
    replace (0 <? maxLawyers) with true by (symmetry; apply Z.ltb_lt; lia).
    intros Hbound. specialize (Hbound Hpos). lia. }
  clear Hbound.
  destruct (fetchFullProfiles && nonEmpty unique) eqn:Hffp.
  - apply andb_true_iff in Hffp as [-> _].
    match goal with |- context [HttpFirst.enrichLoop ?a ?b ?c ?d ?e ?f ?s ?u ?n] =>
      pose proof (enrichLoop_spec u s n) as Hen;
      destruct (HttpFirst.enrichLoop a b c d e f s u n) as [st1 saved] end.
    simpl in Hen. destruct Hen as (Hlen & Hp & Ht & Hd & Htr).
    exists saved, (map (fun b => mkFetch Lightweight Detail (website b) false) unique).
    simpl. rewrite Hd, Ht, Hp, Htr, Hlen, length_map.
    repeat split; try assumption.
    apply Forall_fmap, Forall_forall. intros b _. simpl. now split.
  - exists unique, []. simpl. rewrite app_nil_r.
    repeat split; try assumption; try constructor.
    destruct fetchFullProfiles; [|reflexivity].
    simpl in Hffp. now destruct unique.
Qed.

(** The filter of the fallback handler: every record kept adds one profile
    URL to the set. *)
Lemma fallback_filter lawyers : forall (acc : list Lawyer) (seen : gset string),
  let res :=
    fold_left
      (fun '(acc, seen) l =>
         if falsy (website l) then (acc, seen)
         else if bool_decide (website l ∈ seen) then (acc, seen)
         else (acc ++ [l], {[website l]} ∪ seen))
      lawyers (acc, seen) in
  (size res.2 + length acc = size seen + length res.1)%nat /\
  (length acc <= length res.1)%nat.
Proof using Type.
  induction lawyers as [|l rest IH]; intros acc seen; simpl; [lia|].
  destruct (falsy (website l)); [apply IH|].
  case_bool_decide as Hin; [apply IH|].
  specialize (IH (acc ++ [l]) ({[website l]} ∪ seen)). simpl in IH.
  rewrite length_app, size_union, size_singleton in IH by set_solver.
  simpl in IH. lia.
Qed.

Lemma fallbackHandler_spec maxLawyers' st seen requestUrl :
  let st' := (fallbackHandler maxLawyers' st seen requestUrl).1.1 in
  let seen' := (fallbackHandler maxLawyers' st seen requestUrl).1.2 in
  exists slice,
    HttpFirst.dataset st' = HttpFirst.dataset st ++ slice /\
    HttpFirst.totalScraped st' = HttpFirst.totalScraped st /\
    HttpFirst.pagesProcessed st' = HttpFirst.pagesProcessed st /\
    (size seen + length slice <= size seen')%nat /\
    (0 < maxLawyers' ->
     Z.of_nat (length slice) <= Z.max 0 (maxLawyers' - Z.of_nat (size seen))).
Proof using Type.
  unfold HttpFirst.fallbackHandler. cbv zeta.
  match goal with |- context [fold_left ?f ?ls (?a, ?s)] =>
    pose proof (fallback_filter ls a s) as Hf; simpl in Hf;
    destruct (fold_left f ls (a, s)) as [filtered seen'] end.
  simpl in Hf. destruct Hf as [Hsize _].
  match goal with |- context [if nonEmpty ?s then _ else _] => set (slice := s) end.
  assert ((length slice <= length filtered)%nat /\
          (0 < maxLawyers' ->
           Z.of_nat (length slice) <= Z.max 0 (maxLawyers' - Z.of_nat (size seen))))
    as [Hle Hcap].
  { subst slice. destruct (0 <? maxLawyers') eqn:Hpos.
    - rewrite length_take. split; [lia|]. intros _. lia.
    - split; [lia|]. intros H. apply Z.ltb_ge in Hpos. lia. }
  exists (if nonEmpty slice then slice else []).
  assert (length (if nonEmpty slice then slice else []) = length slice) as Hlen
    by now destruct slice.
  rewrite Hlen.
  destruct (nonEmpty slice); destruct (_ && _); try destruct (negb _); simpl;
    rewrite ?app_nil_r; repeat split; try assumption; try lia.
Qed.

(** The fallback stores at most [maxLawyers'] records when that is positive. *)
Lemma fallbackCrawl_budget fuel maxLawyers' maxRequests base :
  0 < maxLawyers' ->
  forall st seen requestUrl handled queued,
    Z.of_nat (length (HttpFirst.dataset st)) <= base + Z.of_nat (size seen) ->
    Z.of_nat (length (HttpFirst.dataset st)) <= base + maxLawyers' ->
    Z.of_nat (length (HttpFirst.dataset
                        (fallbackCrawl fuel maxLawyers' maxRequests st seen requestUrl
                           handled queued)))
    <= base + maxLawyers'.
Proof using Type.
  intros Hpos. induction fuel as [|fuel IH]; intros st seen requestUrl handled queued H1 H2;
    simpl; [exact H2|].
  destruct (maxRequests <=? handled); [exact H2|].
  destruct (fallbackHandler_spec maxLawyers' st seen requestUrl)
    as (slice & Hd & _ & _ & Hsz & Hcap).
  specialize (Hcap Hpos).
  destruct (HttpFirst.fallbackHandler _ _ _ _ _ _ _ _) as [[st1 seen1] next].
  simpl in Hd, Hsz.
  assert (Z.of_nat (length (HttpFirst.dataset st1)) <= base + Z.of_nat (size seen1) /\
          Z.of_nat (length (HttpFirst.dataset st1)) <= base + maxLawyers') as [H1' H2'].
  { rewrite Hd, length_app. lia. }
  destruct next as [next|]; [|exact H2'].
  case_bool_decide; [exact H2'|]. now apply IH.
Qed.

Lemma fallbackCrawl_counters fuel maxLawyers' maxRequests :
  forall st seen requestUrl handled queued,
    let st' := fallbackCrawl fuel maxLawyers' maxRequests st seen requestUrl handled queued in
    HttpFirst.totalScraped st' = HttpFirst.totalScraped st /\
    HttpFirst.pagesProcessed st' = HttpFirst.pagesProcessed st.
Proof using Type.
  induction fuel as [|fuel IH]; intros st seen requestUrl handled queued; simpl; [now split|].
  destruct (maxRequests <=? handled); [now split|].
  destruct (fallbackHandler_spec maxLawyers' st seen requestUrl)
    as (slice & _ & Ht & Hp & _).
  destruct (HttpFirst.fallbackHandler _ _ _ _ _ _ _ _) as [[st1 seen1] next].
  simpl in Ht, Hp.
  destruct next as [next|]; [|now split].
  case_bool_decide; [now split|].
  specialize (IH st1 seen1 next (handled + 1) ({[next]} ∪ queued)). simpl in IH.
  rewrite <- Ht, <- Hp. exact IH.
Qed.

(** The fallback renders at most [maxRequestsPerCrawl] pages, and fetches
    nothing else. *)
Lemma fallbackCrawl_requests fuel maxLawyers' maxRequests :
  forall st seen requestUrl handled queued,
  exists rd,
    HttpFirst.trace (fallbackCrawl fuel maxLawyers' maxRequests st seen requestUrl
                       handled queued)
    = HttpFirst.trace st ++ rd /\
    Forall renderedListing rd /\
    Z.of_nat (length rd) <= Z.max 0 (maxRequests - handled).
Proof using Type.
  induction fuel as [|fuel IH]; intros st seen requestUrl handled queued; simpl.
  - exists []. rewrite app_nil_r. repeat split; [constructor | simpl; lia].
  - destruct (maxRequests <=? handled) eqn:Hmax.
    { exists []. rewrite app_nil_r. repeat split; [constructor | simpl; lia]. }
    apply Z.leb_gt in Hmax.
    pose proof (fallbackHandler_trace pageContent extractListingViaEmbeddedJson
                  extractListingViaHtml findNextPageUrl maxLawyers' st seen requestUrl) as Hh.
    destruct (HttpFirst.fallbackHandler _ _ _ _ _ _ _ _) as [[st1 seen1] [next|]];
      simpl in Hh.
    + case_bool_decide.
      * exists [mkFetch Rendered Listing requestUrl false].
        repeat split; [exact Hh | repeat constructor | simpl; lia].
      * destruct (IH st1 seen1 next (handled + 1) ({[next]} ∪ queued))
          as (rd & Ht & Hrd & Hlen).
        exists (mkFetch Rendered Listing requestUrl false :: rd).
        repeat split.
        -- rewrite Ht, Hh. now rewrite <- app_assoc.
        -- constructor; [repeat constructor | exact Hrd].
        -- simpl length. lia.
    + exists [mkFetch Rendered Listing requestUrl false].
      repeat split; [exact Hh | repeat constructor | simpl; lia].
Qed.

(** An invariant of the [while] loop that the HTTP branch keeps, and a
    property that follows from it at every exit, hold of the whole loop. *)
Lemma mainLoop_inv (I Q : HttpFirst.RunState -> Prop) :
  (forall st, I st -> Q st) ->
  (forall st nextUrl,
      I st ->
      limitReached maxPages (HttpFirst.pagesProcessed st) = false ->
      limitReached maxLawyers (HttpFirst.totalScraped st) = false ->
      HttpFirstBlocking.blocked (HttpFirst.r_body (fetchHttp nextUrl))
                                (HttpFirst.r_statusCode (fetchHttp nextUrl)) = false ->
      I (saveResults (httpCascade (advance st nextUrl false) (fetchHttp nextUrl)).1
                     (httpCascade (advance st nextUrl false) (fetchHttp nextUrl)).2)) ->
  (forall fuel st nextUrl,
      I st ->
      limitReached maxPages (HttpFirst.pagesProcessed st) = false ->
      limitReached maxLawyers (HttpFirst.totalScraped st) = false ->
      Q (runBrowserFallback fuel (advance st nextUrl true) nextUrl
           (if 0 <? maxLawyers then Z.max 0 (maxLawyers - HttpFirst.totalScraped st) else 0)
           (if 0 <? maxPages
            then Z.max 0 (maxPages - (HttpFirst.pagesProcessed st + 1)) else 0))) ->
  forall fuel st nextUrl, I st -> Q (mainLoop fuel st nextUrl).
Proof using Type.
  intros Hexit Hhttp Hfall.
  induction fuel as [|fuel IH]; intros st nextUrl HI; simpl; [now apply Hexit|].
  destruct (falsy nextUrl); [now apply Hexit|].
  destruct (limitReached maxPages _) eqn:Hp; [now apply Hexit|].
  destruct (limitReached maxLawyers _) eqn:Hl; [now apply Hexit|].
  destruct (HttpFirstBlocking.blocked _ _) eqn:Hb.
  - now apply Hfall.
  - specialize (Hhttp st nextUrl HI Hp Hl Hb).
    destruct (HttpFirst.cascade _ _ _ _ _ _ _ _ _) as [st2 lawyers]. simpl in Hhttp.
    match goal with |- Q (if ?c then _ else _) => destruct c end; [now apply Hexit|].
    match goal with |- Q (if ?c then _ else _) => destruct c end; [now apply Hexit|].
    now apply IH.
Qed.

Lemma mainLoop_records fuel st nextUrl :
  0 < maxLawyers ->
  Z.of_nat (length (HttpFirst.dataset st)) = HttpFirst.totalScraped st ->
  HttpFirst.totalScraped st <= maxLawyers ->
  Z.of_nat (length (HttpFirst.dataset (mainLoop fuel st nextUrl))) <= maxLawyers.
Proof using Type.
  intros Hpos Hlen Hle.
  apply (mainLoop_inv
           (fun st => Z.of_nat (length (HttpFirst.dataset st)) = HttpFirst.totalScraped st /\
                      HttpFirst.totalScraped st <= maxLawyers)
           (fun st => Z.of_nat (length (HttpFirst.dataset st)) <= maxLawyers)).
  - intros s [H1 H2]. lia.
  - intros s u [H1 H2] _ Hl _.
    assert (HttpFirst.totalScraped s < maxLawyers) as Hlt.
    { unfold limitReached in Hl. apply andb_false_iff in Hl as [H|H]; lia. }
    destruct (cascade_fields (advance s u false) (fetchHttp u)) as (_ & Ht & Hd & _).
    simpl in Ht, Hd.
    destruct (saveResults_spec (httpCascade (advance s u false) (fetchHttp u)).1
                (httpCascade (advance s u false) (fetchHttp u)).2)
      as (saved & ev & Hd' & Ht' & _ & Hfit & _).
    rewrite Hd', Ht', length_app, Hd, Ht. rewrite Ht in Hfit. split; [lia|].
    now apply Hfit.
  - intros f s u [H1 H2] _ Hl.
    assert (HttpFirst.totalScraped s < maxLawyers) as Hlt.
    { unfold limitReached in Hl. apply andb_false_iff in Hl as [H|H]; lia. }
    replace (0 <? maxLawyers) with true by (symmetry; apply Z.ltb_lt; lia).
    unfold HttpFirst.runBrowserFallback.
    eapply Z.le_trans.
    + apply fallbackCrawl_budget with (base := HttpFirst.totalScraped s);
        simpl; rewrite ?size_empty; lia.
    + lia.
  - split; assumption.
Qed.

Lemma rendered_counts rd :
  Forall renderedListing rd ->
  countFetches lightweightListing rd = 0%nat /\
  countFetches renderedFetch rd = length rd /\
  countFetches detailFetch rd = 0%nat.
Proof using Type.
  intros H. repeat split.
  - apply countFetches_none. eapply Forall_impl; [exact H|].
    intros e (Hm & _). unfold lightweightListing. now rewrite Hm.
  - apply countFetches_all. eapply Forall_impl; [exact H|].
    intros e (Hm & _). unfold renderedFetch. now rewrite Hm.
  - apply countFetches_none. eapply Forall_impl; [exact H|].
    intros e (_ & Hp & _). unfold detailFetch. now rewrite Hp.
Qed.

Lemma auxiliary_counts (purpose : Purpose) ev :
  purpose <> Listing ->
  Forall (fun e => fetchMode e = Lightweight /\ fetchPurpose e = purpose) ev ->
  countFetches lightweightListing ev = 0%nat /\
  countFetches renderedFetch ev = 0%nat.
Proof using Type.
  intros Hne H. split; apply countFetches_none; (eapply Forall_impl; [exact H|]);
    intros e [Hm Hp].
  - unfold lightweightListing. rewrite Hm, Hp. now destruct purpose.
  - unfold renderedFetch. now rewrite Hm.
Qed.

Lemma mainLoop_fetches fuel st nextUrl :
  0 < maxPages ->
  Z.of_nat (countFetches lightweightListing (HttpFirst.trace st))
  = HttpFirst.pagesProcessed st ->
  countFetches renderedFetch (HttpFirst.trace st) = 0%nat ->
  HttpFirst.pagesProcessed st <= maxPages ->
  let st' := mainLoop fuel st nextUrl in
  let lw := Z.of_nat (countFetches lightweightListing (HttpFirst.trace st')) in
  let rd := Z.of_nat (countFetches renderedFetch (HttpFirst.trace st')) in
  lw = HttpFirst.pagesProcessed st' /\ lw <= maxPages /\ rd <= 20 /\
  (lw < maxPages -> lw + rd <= maxPages) /\
  (lw = maxPages -> rd <= 5).
Proof using Type.
  intros Hpos H1 H2 H3. cbv zeta.
  apply (mainLoop_inv
           (fun st =>
              Z.of_nat (countFetches lightweightListing (HttpFirst.trace st))
              = HttpFirst.pagesProcessed st /\
              countFetches renderedFetch (HttpFirst.trace st) = 0%nat /\
              HttpFirst.pagesProcessed st <= maxPages)
           (fun st' =>
              Z.of_nat (countFetches lightweightListing (HttpFirst.trace st'))
              = HttpFirst.pagesProcessed st' /\
              Z.of_nat (countFetches lightweightListing (HttpFirst.trace st')) <= maxPages /\
              Z.of_nat (countFetches renderedFetch (HttpFirst.trace st')) <= 20 /\
              (Z.of_nat (countFetches lightweightListing (HttpFirst.trace st')) < maxPages ->
               Z.of_nat (countFetches lightweightListing (HttpFirst.trace st'))
               + Z.of_nat (countFetches renderedFetch (HttpFirst.trace st')) <= maxPages) /\
              (Z.of_nat (countFetches lightweightListing (HttpFirst.trace st')) = maxPages ->
               Z.of_nat (countFetches renderedFetch (HttpFirst.trace st')) <= 5))).
  - intros s (Ha & Hb & Hc). rewrite Hb. lia.
  - intros s u (Ha & Hb & Hc) Hp _ _.
    assert (HttpFirst.pagesProcessed s < maxPages) as Hlt.
    { unfold limitReached in Hp. apply andb_false_iff in Hp as [H|H]; lia. }
    destruct (cascade_fields (advance s u false) (fetchHttp u))
      as (Hpg & _ & _ & ev1 & Htr1 & Hev1).
    simpl in Hpg, Htr1.
    destruct (saveResults_spec (httpCascade (advance s u false) (fetchHttp u)).1
                (httpCascade (advance s u false) (fetchHttp u)).2)
      as (saved & ev2 & _ & _ & Hpg' & _ & Htr2 & Hev2 & _).
    rewrite Htr2, Hpg', Htr1, Hpg, !countFetches_app.
    destruct (auxiliary_counts ApiProbe ev1 ltac:(discriminate) Hev1) as [-> ->].
    destruct (auxiliary_counts Detail ev2 ltac:(discriminate) Hev2) as [-> ->].
    rewrite Hb. cbn. lia.
  - intros f s u (Ha & Hb & Hc) Hp _.
    assert (HttpFirst.pagesProcessed s < maxPages) as Hlt.
    { unfold limitReached in Hp. apply andb_false_iff in Hp as [H|H]; lia. }
    replace (0 <? maxPages) with true by (symmetry; apply Z.ltb_lt; lia).
    unfold HttpFirst.runBrowserFallback.
    match goal with |- context [HttpFirst.fallbackCrawl _ _ _ _ ?f' ?m ?r ?s0 ?sn ?u0 ?h ?q] =>
      destruct (fallbackCrawl_requests f' m r s0 sn u0 h q) as (rd & Htr & Hrd & Hlen);
      destruct (fallbackCrawl_counters f' m r s0 sn u0 h q) as [_ Hpg]
    end.
    simpl in Htr, Hpg. rewrite Htr, Hpg, !countFetches_app.
    destruct (rendered_counts rd Hrd) as (-> & -> & _).
    rewrite Hb. cbn.
    destruct (Z.max 0 (maxPages - (HttpFirst.pagesProcessed s + 1)) =? 0) eqn:Hrem;
      [apply Z.eqb_eq in Hrem | apply Z.eqb_neq in Hrem]; lia.
  - repeat split; assumption.
Qed.

Lemma mainLoop_details fuel st nextUrl :
  Z.of_nat (countFetches detailFetch (HttpFirst.trace st))
  = (if fetchFullProfiles then HttpFirst.totalScraped st else 0) ->
  Z.of_nat (countFetches detailFetch (HttpFirst.trace (mainLoop fuel st nextUrl)))
  = (if fetchFullProfiles then HttpFirst.totalScraped (mainLoop fuel st nextUrl) else 0).
Proof using Type.
  apply (mainLoop_inv
           (fun st => Z.of_nat (countFetches detailFetch (HttpFirst.trace st))
                      = (if fetchFullProfiles then HttpFirst.totalScraped st else 0))
           (fun st => Z.of_nat (countFetches detailFetch (HttpFirst.trace st))
                      = (if fetchFullProfiles then HttpFirst.totalScraped st else 0))).
  - auto.
  - intros s u Ha _ _ _.
    destruct (cascade_fields (advance s u false) (fetchHttp u))
      as (_ & Ht & _ & ev1 & Htr1 & Hev1).
    simpl in Ht, Htr1.
    destruct (saveResults_spec (httpCascade (advance s u false) (fetchHttp u)).1
                (httpCascade (advance s u false) (fetchHttp u)).2)
      as (saved & ev2 & _ & Ht' & _ & _ & Htr2 & Hev2 & Hlen).
    rewrite Htr2, Ht', Htr1, Ht, !countFetches_app.
    assert (countFetches detailFetch ev1 = 0%nat) as ->.
    { apply countFetches_none. eapply Forall_impl; [exact Hev1|].
      intros e [_ Hp]. unfold detailFetch. now rewrite Hp. }
    assert (countFetches detailFetch ev2 = length ev2) as ->.
    { apply countFetches_all. eapply Forall_impl; [exact Hev2|].
      intros e [_ Hp]. unfold detailFetch. now rewrite Hp. }
    rewrite Hlen. cbn. destruct fetchFullProfiles; lia.
  - intros f s u Ha _ _.
    unfold HttpFirst.runBrowserFallback.
    match goal with |- context [HttpFirst.fallbackCrawl _ _ _ _ ?f' ?m ?r ?s0 ?sn ?u0 ?h ?q] =>
      destruct (fallbackCrawl_requests f' m r s0 sn u0 h q) as (rd & Htr & Hrd & Hlen);
      destruct (fallbackCrawl_counters f' m r s0 sn u0 h q) as [Ht _]
    end.
    simpl in Htr, Ht. rewrite Htr, Ht, !countFetches_app.
    destruct (rendered_counts rd Hrd) as (_ & _ & ->).
    cbn. destruct fetchFullProfiles; lia.
Qed.

End HttpRunFacts.

(** X9: with a positive [maxLawyers] a run of the HTTP-first program
    stores at most [maxLawyers] records, the records of the browser
    fallback included. *)
Theorem x9_http_first_record_budget :
  forall maxLawyers maxPages fetchFullProfiles fetchHttp pageContent
         (Json : Type) (safeJsonParse : string -> option Json)
         extractLawyersFromJsonObject tryExtractApiUrlFromHtml
         extractListingViaEmbeddedJson extractListingViaHtml findNextPageUrl
         detailEmail detailBiography detailEducation detailBarAdmissions detailLanguages
         fuel searchUrl,
    0 < maxLawyers ->
    Z.of_nat (length (HttpFirst.dataset
                        (HttpFirst.run maxLawyers maxPages fetchFullProfiles fetchHttp
                           pageContent Json safeJsonParse extractLawyersFromJsonObject
                           tryExtractApiUrlFromHtml extractListingViaEmbeddedJson
                           extractListingViaHtml findNextPageUrl detailEmail
                           detailBiography detailEducation detailBarAdmissions
                           detailLanguages fuel searchUrl)))
    <= maxLawyers.
Proof.
  intros until searchUrl. intros Hpos. unfold HttpFirst.run.
  apply mainLoop_records; simpl; lia.
Qed.

(** The site whose second page is blocked, three records allowed. *)
Lemma x9_http_first_record_budget_witness :
  Z.of_nat (length (HttpFirst.dataset (FixtureHttp.run 3 0 9 Fixture.page1))) <= 3.
Proof.
  apply (x9_http_first_record_budget 3 0 false FixtureHttp.fetchHttp
           FixtureHttp.pageContent unit (fun _ => None) (fun _ _ => [])
           (fun _ _ => "") (fun _ _ => []) Fixture.extractListingViaHtml
           Fixture.findNextPageUrl (fun _ => "") (fun _ => "") (fun _ => [])
           (fun _ => []) (fun _ => []) 9%nat Fixture.page1).
  lia.
Defined.

(** X10: with a positive [maxPages] the HTTP-first program fetches at most
    [maxPages] listing pages over HTTP, as many as [pagesProcessed] counts,
    and renders at most twenty pages in the fallback.  The two together
    stay within [maxPages] unless the blocked page was the last one
    allowed: then the fallback, handed a page budget of zero, reads it as
    five. *)
Theorem x10_http_first_page_budget :
  forall maxLawyers maxPages fetchFullProfiles fetchHttp pageContent
         (Json : Type) (safeJsonParse : string -> option Json)
         extractLawyersFromJsonObject tryExtractApiUrlFromHtml
         extractListingViaEmbeddedJson extractListingViaHtml findNextPageUrl
         detailEmail detailBiography detailEducation detailBarAdmissions detailLanguages
         fuel searchUrl,
    0 < maxPages ->
    let st := HttpFirst.run maxLawyers maxPages fetchFullProfiles fetchHttp
                pageContent Json safeJsonParse extractLawyersFromJsonObject
                tryExtractApiUrlFromHtml extractListingViaEmbeddedJson
                extractListingViaHtml findNextPageUrl detailEmail
                detailBiography detailEducation detailBarAdmissions
                detailLanguages fuel searchUrl in
    let lw := Z.of_nat (countFetches lightweightListing (HttpFirst.trace st)) in
    let rd := Z.of_nat (countFetches renderedFetch (HttpFirst.trace st)) in
    lw = HttpFirst.pagesProcessed st /\ lw <= maxPages /\ rd <= 20 /\
    (lw < maxPages -> lw + rd <= maxPages) /\
    (lw = maxPages -> rd <= 5).
Proof.
  intros until searchUrl. intros Hpos. unfold HttpFirst.run.
  apply mainLoop_fetches; simpl; try reflexivity; lia.
Qed.

(** The site whose second page is blocked, two pages allowed: one page
    over HTTP, the blocked fetch of the second, and the fallback. *)
Lemma x10_http_first_page_budget_witness :
  Z.of_nat (countFetches lightweightListing
              (HttpFirst.trace (FixtureHttp.run 0 2 9 Fixture.page1)))
  = HttpFirst.pagesProcessed (FixtureHttp.run 0 2 9 Fixture.page1) /\
  Z.of_nat (countFetches lightweightListing
              (HttpFirst.trace (FixtureHttp.run 0 2 9 Fixture.page1))) <= 2 /\
  Z.of_nat (countFetches renderedFetch
              (HttpFirst.trace (FixtureHttp.run 0 2 9 Fixture.page1))) <= 20.
Proof.
  pose proof (x10_http_first_page_budget 0 2 false FixtureHttp.fetchHttp
                FixtureHttp.pageContent unit (fun _ => None) (fun _ _ => [])
                (fun _ _ => "") (fun _ _ => []) Fixture.extractListingViaHtml
                Fixture.findNextPageUrl (fun _ => "") (fun _ => "") (fun _ => [])
                (fun _ => []) (fun _ => []) 9%nat Fixture.page1 ltac:(lia)) as H.
  cbv zeta in H. destruct H as (H1 & H2 & H3 & _).
  split; [exact H1 | split; [exact H2 | exact H3]].
Defined.

(** X11: the HTTP-first program fetches one detail page for each record
    its HTTP loop stores when [fetchFullProfiles] is set, and none
    otherwise; the browser fallback fetches no detail page. *)
Theorem x11_http_first_detail_fetches :
  forall maxLawyers maxPages fetchFullProfiles fetchHttp pageContent
         (Json : Type) (safeJsonParse : string -> option Json)
         extractLawyersFromJsonObject tryExtractApiUrlFromHtml
         extractListingViaEmbeddedJson extractListingViaHtml findNextPageUrl
         detailEmail detailBiography detailEducation detailBarAdmissions detailLanguages
         fuel searchUrl,
    let st := HttpFirst.run maxLawyers maxPages fetchFullProfiles fetchHttp
                pageContent Json safeJsonParse extractLawyersFromJsonObject
                tryExtractApiUrlFromHtml extractListingViaEmbeddedJson
                extractListingViaHtml findNextPageUrl detailEmail
                detailBiography detailEducation detailBarAdmissions
                detailLanguages fuel searchUrl in
    Z.of_nat (countFetches detailFetch (HttpFirst.trace st))
    = (if fetchFullProfiles then HttpFirst.totalScraped st else 0).
Proof.
  intros. subst st. unfold HttpFirst.run.
  apply mainLoop_details. simpl. now destruct fetchFullProfiles.
Qed.

(** ** Detail pages in the HTTP-first program, practice areas, and the
    filter of the browser-first program *)

Section DetailFacts.

Lemma orNull_some s t : HttpFirst.orNull s = Some t -> t = s /\ s <> "".
Proof.
  unfold HttpFirst.orNull. destruct (falsy s) eqn:Hf; [discriminate|].
  intros [= <-]. split; [reflexivity|]. intros ->. discriminate.
Qed.

Lemma listOrNull_some xs ys : HttpFirst.listOrNull xs = Some ys -> ys = xs /\ xs <> [].
Proof.
  unfold HttpFirst.listOrNull. destruct xs; simpl; [discriminate|].
  intros [= <-]. split; [reflexivity | discriminate].
Qed.

Lemma nullishOpt_cases {A} (a b : option A) :
  HttpFirst.nullishOpt a b = b \/ exists x, a = Some x /\ HttpFirst.nullishOpt a b = Some x.
Proof. destruct a as [x|]; [right; now exists x | now left]. Qed.

End DetailFacts.

Section PracticeFacts.

Lemma distinct_spec pieces : forall seen,
  NoDup (Enrich.distinct pieces seen) /\
  forall a, a ∈ Enrich.distinct pieces seen <-> a ∈ pieces /\ a ∉ seen.
Proof.
  induction pieces as [|p rest IH]; intros seen; simpl.
  - split; [apply NoDup_nil_2|]. intros a. split; [intros H | intros [H _]];
      now apply elem_of_nil in H.
  - case_bool_decide as Hin.
    + destruct (IH seen) as [Hnd Hmem]. split; [exact Hnd|].
      intros a. rewrite Hmem, elem_of_cons. split; [intros [H1 H2]; auto|].
      intros [[-> | H1] H2]; [contradiction | auto].
    + destruct (IH ({[p]} ∪ seen)) as [Hnd Hmem]. split.
      * apply NoDup_cons_2; [|exact Hnd]. rewrite Hmem. set_solver.
      * intros a. rewrite !elem_of_cons, Hmem. split.
        -- intros [-> | [H1 H2]]; [auto|]. split; [auto | set_solver].
        -- intros [[-> | H1] H2]; [auto|].
           destruct (decide (a = p)) as [-> | Hne]; [auto|]. right. set_solver.
Qed.

Lemma joinComma_empty xs :
  (forall a, a ∈ xs -> a <> "") -> Enrich.joinComma xs = "" -> xs = [].
Proof.
  destruct xs as [|x rest]; [reflexivity|]. intros Hne Hj. exfalso.
  assert (x <> "") as Hx by (apply Hne; left).
  simpl in Hj. destruct rest; [contradiction|].
  destruct x; [contradiction | discriminate].
Qed.

End PracticeFacts.

(** X12: what the HTTP-first program makes of a detail page.  The merged
    record keeps every listing field but the five the detail page may
    supply; each of these is either the listing's value or a non-empty
    value read from the page; and a detail page that is not answered with
    200, or that looks blocked, leaves the record as it was. *)
Theorem x12_http_first_detail_merge :
  forall fetchHttp detailEmail detailBiography detailEducation detailBarAdmissions
         detailLanguages st base,
    let page := HttpFirst.r_body (fetchHttp (website base)) in
    let merged :=
      HttpFirst.mergeDetails base
        (HttpFirst.fetchProfileDetails fetchHttp detailEmail detailBiography
           detailEducation detailBarAdmissions detailLanguages st (website base)).2 in
    (name merged = name base /\ firmName merged = firmName base /\
     location merged = location base /\ address merged = address base /\
     phone merged = phone base /\ website merged = website base /\
     practiceAreas merged = practiceAreas base /\
     description merged = description base /\
     yearsLicensed merged = yearsLicensed base /\
     scrapedAt merged = scrapedAt base) /\
    (email merged = email base \/
     email merged = detailEmail page /\ detailEmail page <> "") /\
    (biography merged = biography base \/
     biography merged = Some (detailBiography page) /\ detailBiography page <> "") /\
    (education merged = education base \/
     education merged = Some (detailEducation page) /\ detailEducation page <> []) /\
    (barAdmissions merged = barAdmissions base \/
     barAdmissions merged = Some (detailBarAdmissions page) /\
     detailBarAdmissions page <> []) /\
    (languages merged = languages base \/
     languages merged = Some (detailLanguages page) /\ detailLanguages page <> []) /\
    (HttpFirst.r_statusCode (fetchHttp (website base)) <> 200 \/
     HttpFirstBlocking.isBlockedHtml page = true -> merged = base).
Proof.
  intros. subst page merged. unfold HttpFirst.fetchProfileDetails.
  destruct (HttpFirst.r_statusCode (fetchHttp (website base)) =? 200) eqn:Hcode; simpl.
  2:{ repeat split; auto. }
  apply Z.eqb_eq in Hcode.
  destruct (HttpFirstBlocking.isBlockedHtml _) eqn:Hblocked; simpl.
  { repeat split; auto. }
  split; [repeat split|].
  split.
  { destruct (HttpFirst.orNull (detailEmail _)) as [e|] eqn:He; simpl; [|now left].
    apply orNull_some in He as [-> Hne]. right. now split. }
  split.
  { destruct (HttpFirst.orNull (detailBiography _)) as [e|] eqn:He; simpl; [|now left].
    apply orNull_some in He as [-> Hne]. right. now split. }
  split.
  { destruct (HttpFirst.listOrNull (detailEducation _)) as [e|] eqn:He; simpl; [|now left].
    apply listOrNull_some in He as [-> Hne]. right. now split. }
  split.
  { destruct (HttpFirst.listOrNull (detailBarAdmissions _)) as [e|] eqn:He; simpl;
      [|now left].
    apply listOrNull_some in He as [-> Hne]. right. now split. }
  split.
  { destruct (HttpFirst.listOrNull (detailLanguages _)) as [e|] eqn:He; simpl; [|now left].
    apply listOrNull_some in He as [-> Hne]. right. now split. }
  intros [H | H]; [contradiction | discriminate].
Qed.

(** X13: the practice areas read from a detail page by the CheerioCrawler
    program are the join of at most ten pairwise different texts of the
    page, each of 3 to 99 characters; the string is empty exactly when the
    page has no text of that length. *)
Theorem x13_practice_areas :
  forall texts,
  exists areas,
    Enrich.practiceAreasOf texts = Enrich.joinComma areas /\
    NoDup areas /\ (length areas <= 10)%nat /\
    (forall a, a ∈ areas -> a ∈ texts /\ (2 < String.length a < 100)%nat) /\
    (Enrich.practiceAreasOf texts = ""
     <-> forall t, t ∈ texts -> ~ (2 < String.length t < 100)%nat).
Proof.
  intros texts. unfold Enrich.practiceAreasOf.
  set (keep := fun t : string =>
                 (negb (falsy t) && Nat.ltb 2 (String.length t)
                  && Nat.ltb (String.length t) 100)%bool).
  set (pieces := List.filter keep texts).
  assert (forall t, keep t = true <-> (2 < String.length t < 100)%nat) as Hkeep.
  { intros t. unfold keep. rewrite !andb_true_iff, !Nat.ltb_lt. split; [lia|].
    intros [H1 H2]. repeat split; try lia. destruct t; [simpl in H1; lia | reflexivity]. }
  assert (forall a, a ∈ pieces <-> a ∈ texts /\ (2 < String.length a < 100)%nat) as Hpieces.
  { intros a. unfold pieces. rewrite !list_elem_of_In, List.filter_In, Hkeep.
    reflexivity. }
  destruct (distinct_spec pieces ∅) as [Hnd Hmem].
  assert (forall a, a ∈ take 10 (Enrich.distinct pieces ∅) ->
                    a ∈ texts /\ (2 < String.length a < 100)%nat) as Hin.
  { intros a Ha. apply Hpieces. eapply Hmem, elem_of_sublist; [exact Ha|].
    apply sublist_take. }
  exists (take 10 (Enrich.distinct pieces ∅)).
  split; [reflexivity|]. split; [eapply sublist_NoDup; [exact Hnd | apply sublist_take]|].
  split; [rewrite length_take; lia|]. split; [exact Hin|].
  split.
  - intros Hempty t Ht Hlen.
    apply joinComma_empty in Hempty.
    2:{ intros a Ha ->. apply Hin in Ha as [_ Ha]. simpl in Ha. lia. }
    assert (t ∈ Enrich.distinct pieces ∅) as Hd.
    { apply Hmem. split; [now apply Hpieces | set_solver]. }
    destruct (Enrich.distinct pieces ∅); [now apply elem_of_nil in Hd | discriminate].
  - intros Hnone.
    assert (Enrich.distinct pieces ∅ = []) as ->; [|reflexivity].
    destruct (Enrich.distinct pieces ∅) as [|a rest] eqn:Hd; [reflexivity|]. exfalso.
    assert (a ∈ pieces) as Ha by (apply (Hmem a); left).
    apply Hpieces in Ha as [Ha Hlen]. exact (Hnone a Ha Hlen).
Qed.

(** X14: the filter of the browser-first program.  The records it adds
    have pairwise different, non-empty profile URLs that were not in the
    ledger; the ledger and the counter grow by exactly these; a positive
    budget is never exceeded; and when the budget is not reached at the
    end, the profile URL of every candidate that has one is in the ledger. *)
Theorem x14_browser_first_filter :
  forall maxLawyers lawyers seen total unique,
  exists added,
    Browser.filterLoop maxLawyers lawyers seen total unique
    = (unique ++ added, list_to_set (map website added) ∪ seen,
       total + Z.of_nat (length added)) /\
    NoDup (map website added) /\
    (forall l, l ∈ added -> l ∈ lawyers /\ website l <> "" /\ website l ∉ seen) /\
    (0 < maxLawyers -> total <= maxLawyers ->
     total + Z.of_nat (length added) <= maxLawyers) /\
    (limitReached maxLawyers (total + Z.of_nat (length added)) = false ->
     forall l, l ∈ lawyers -> website l <> "" ->
               website l ∈ (list_to_set (map website added) ∪ seen : gset string)).
Proof.
  intros maxLawyers lawyers.
  induction lawyers as [|l rest IH]; intros seen total unique; simpl.
  - exists []. rewrite app_nil_r. simpl. split; [f_equal; [f_equal; set_solver | lia]|].
    split; [apply NoDup_nil_2|]. split; [intros l H; now apply elem_of_nil in H|].
    split; [lia|]. intros _ l H. now apply elem_of_nil in H.
  - destruct (falsy (website l)) eqn:Hf; simpl.
    { destruct (IH seen total unique) as (added & Heq & Hnd & Hmem & Hle & Hall).
      exists added. split; [exact Heq|]. split; [exact Hnd|].
      split; [intros x Hx; destruct (Hmem x Hx) as (H1 & H2 & H3);
              split; [now right | auto]|].
      split; [exact Hle|]. intros Hlim x [-> | Hx]%elem_of_cons Hne.
      - apply falsy_spec in Hf. contradiction.
      - now apply Hall. }
    case_bool_decide as Hin.
    { destruct (IH seen total unique) as (added & Heq & Hnd & Hmem & Hle & Hall).
      exists added. split; [exact Heq|]. split; [exact Hnd|].
      split; [intros x Hx; destruct (Hmem x Hx) as (H1 & H2 & H3);
              split; [now right | auto]|].
      split; [exact Hle|]. intros Hlim x [-> | Hx]%elem_of_cons Hne.
      - now apply elem_of_union_r.
      - now apply Hall. }
    destruct (limitReached maxLawyers total) eqn:Hlim.
    { exists []. rewrite app_nil_r. simpl.
      split; [f_equal; [f_equal; set_solver | lia]|].
      split; [apply NoDup_nil_2|]. split; [intros x H; now apply elem_of_nil in H|].
      split; [lia|]. rewrite Z.add_0_r, Hlim. discriminate. }
    destruct (IH ({[website l]} ∪ seen) (total + 1) (unique ++ [l]))
      as (added & Heq & Hnd & Hmem & Hle & Hall).
    assert (website l <> "") as Hne by (intros E; rewrite E in Hf; discriminate).
    exists (l :: added). simpl.
    replace (total + Z.of_nat (S (length added)))
      with (total + 1 + Z.of_nat (length added)) by lia.
    split; [rewrite Heq, <- app_assoc; simpl; f_equal; f_equal; set_solver|].
    split.
    { apply NoDup_cons_2; [|exact Hnd]. intros Hl.
      apply list_elem_of_fmap in Hl as (x & Hx & Hxin).
      destruct (Hmem x Hxin) as (_ & _ & Hfresh). rewrite <- Hx in Hfresh. set_solver. }
    split.
    { intros x [-> | Hx]%elem_of_cons.
      - split; [now left | auto].
      - destruct (Hmem x Hx) as (H1 & H2 & H3). split; [now right|].
        split; [exact H2 | set_solver]. }
    split.
    { intros Hpos Htot. apply Hle; [exact Hpos|].
      unfold limitReached in Hlim. apply andb_false_iff in Hlim as [H|H]; lia. }
    intros Hend x [-> | Hx]%elem_of_cons Hxne.
    + set_solver.
    + specialize (Hall Hend x Hx Hxne). set_solver.
Qed.

(** ** JSON-LD: entities, and the recursion through item lists *)

(** *** Turning a value into a string *)

Section StringConversion.

Import JsonLd.

(** Induction on a value, the members of arrays and objects included. *)
Lemma json_induction (P : json -> Prop) :
  P JUndefined -> P JNull -> (forall b, P (JBool b)) -> (forall n, P (JNum n)) ->
  (forall s, P (JStr s)) ->
  (forall items, Forall P items -> P (JArr items)) ->
  (forall props, Forall (fun kv => P kv.2) props -> P (JObj props)) ->
  forall v, P v.
Proof.
  intros HU HN HB HZ HS HA HO.
  fix IH 1. intros [| |b|n|s|items|props].
  - exact HU.
  - exact HN.
  - apply HB.
  - apply HZ.
  - apply HS.
  - apply HA.
    exact ((fix all (xs : list json) : Forall P xs :=
              match xs with
              | [] => @List.Forall_nil json P
              | x :: xs' => @List.Forall_cons json P x xs' (IH x) (all xs')
              end) items).
  - apply HO.
    exact ((fix all (xs : list (string * json)) : Forall (fun kv => P kv.2) xs :=
              match xs with
              | [] => @List.Forall_nil _ (fun kv => P kv.2)
              | x :: xs' =>
                  @List.Forall_cons _ (fun kv => P kv.2) x xs' (IH x.2) (all xs')
              end) props).
Qed.

Lemma toStr_fuel v : toStr v <> OutOfFuel.
Proof.
  induction v as [| |b|n|s|items IH|props _] using json_induction; simpl;
    try discriminate.
  - now destruct b.
  - assert (traverse (fun x => match x with
                               | JUndefined | JNull => Ok ""
                               | _ => toStr x
                               end) items <> OutOfFuel) as Hparts.
    { apply traverse_fuel. eapply Forall_impl; [exact IH|].
      intros x Hx. destruct x; solve [discriminate | exact Hx]. }
    destruct (traverse _ items); simpl; [discriminate | discriminate | now contradiction Hparts].
  - now destruct (hasKey "toString" props).
Qed.

(** A value free of properties named [toString] has a string form. *)
Lemma toStr_printable v : printable v = true -> exists s, toStr v = Ok s.
Proof.
  induction v as [| |b|n|s|items IH|props _] using json_induction; simpl; intros Hp;
    try (eexists; reflexivity).
  - destruct b; eexists; reflexivity.
  - destruct (traverse_ok (fun x => match x with
                                    | JUndefined | JNull => Ok ""
                                    | _ => toStr x
                                    end) items) as [parts ->].
    { rewrite forallb_forall in Hp. rewrite Forall_forall in IH. apply Forall_forall.
      intros x Hx. specialize (IH x Hx). specialize (Hp x (proj1 (list_elem_of_In _ _) Hx)).
      destruct x; solve [eexists; reflexivity | now apply IH]. }
    simpl. eexists. reflexivity.
  - apply andb_true_iff in Hp as [Hkey _]. apply negb_true_iff in Hkey. rewrite Hkey.
    eexists. reflexivity.
Qed.

Lemma elementStr_fuel x : elementStr x <> OutOfFuel.
Proof. destruct x; solve [discriminate | apply toStr_fuel]. Qed.

Lemma elementStr_printable x : printable x = true -> exists s, elementStr x = Ok s.
Proof.
  intros Hp. destruct x; try (eexists; reflexivity); now apply toStr_printable.
Qed.

Lemma join_fuel sep items : join sep items <> OutOfFuel.
Proof.
  unfold join.
  assert (traverse elementStr items <> OutOfFuel) as H.
  { apply traverse_fuel, Forall_forall. intros x _. apply elementStr_fuel. }
  destruct (traverse elementStr items); simpl; [discriminate | discriminate | now contradiction H].
Qed.

Lemma join_printable sep items :
  forallb printable items = true -> exists s, join sep items = Ok s.
Proof.
  intros Hp. unfold join.
  destruct (traverse_ok elementStr items) as [parts ->].
  { apply Forall_forall. intros x Hx. apply elementStr_printable.
    rewrite forallb_forall in Hp. apply Hp. now apply list_elem_of_In. }
  simpl. eexists. reflexivity.
Qed.

Lemma printable_lookup k props :
  forallb (fun p => printable p.2) props = true -> printable (lookup k props) = true.
Proof.
  induction props as [|[k' v] rest IH]; simpl; [reflexivity|].
  intros [Hv Hrest]%andb_true_iff. destruct (String.eqb k' k); auto.
Qed.

Lemma printable_getOpt v k : printable v = true -> printable (getOpt v k) = true.
Proof.
  destruct v; simpl; try reflexivity.
  intros [_ Hp]%andb_true_iff. now apply printable_lookup.
Qed.

Lemma printable_or a b :
  printable a = true -> printable b = true -> printable (or a b) = true.
Proof. intros Ha Hb. unfold or. now destruct (truthy a). Qed.

Lemma practiceAreasOf_fuel item : practiceAreasOf item <> OutOfFuel.
Proof.
  unfold practiceAreasOf.
  destruct (truthy (getOpt item "knowsAbout")).
  - destruct (getOpt item "knowsAbout") as [| | | | |xs|]; try discriminate.
    pose proof (join_fuel ", " xs) as H. destruct (join ", " xs); simpl; congruence.
  - destruct (truthy (or _ _)); [|discriminate].
    destruct (or _ _) as [| | | | |xs|]; try discriminate.
    pose proof (join_fuel ", " xs) as H. destruct (join ", " xs); simpl; congruence.
Qed.

Lemma practiceAreasOf_printable item :
  printable item = true -> exists v, practiceAreasOf item = Ok v.
Proof.
  intros Hp. unfold practiceAreasOf.
  destruct (truthy (getOpt item "knowsAbout")).
  - pose proof (printable_getOpt item "knowsAbout" Hp) as Hk.
    destruct (getOpt item "knowsAbout") as [| | | | |xs|]; try (eexists; reflexivity).
    destruct (join_printable ", " xs Hk) as [s ->]. eexists. reflexivity.
  - destruct (truthy (or _ _)); [|eexists; reflexivity].
    pose proof (printable_or _ _ (printable_getOpt item "areaServed" Hp)
                  (printable_getOpt item "serviceArea" Hp)) as Hk.
    destruct (or _ _) as [| | | | |xs|]; try (eexists; reflexivity).
    destruct (join_printable ", " xs Hk) as [s ->]. eexists. reflexivity.
Qed.

Lemma locationOf_fuel item : locationOf item <> OutOfFuel.
Proof.
  unfold locationOf. cbv zeta.
  destruct (isString _); [discriminate|].
  destruct (truthy (or _ _)); [|discriminate].
  match goal with |- context [join ?sep ?xs] =>
    pose proof (join_fuel sep xs) as H; destruct (join sep xs) end; simpl; congruence.
Qed.

Lemma locationOf_printable item :
  printable item = true -> exists v, locationOf item = Ok v.
Proof.
  intros Hp. unfold locationOf. cbv zeta.
  destruct (isString _); [eexists; reflexivity|].
  destruct (truthy (or _ _)); [|eexists; reflexivity].
  match goal with |- context [join ?sep ?xs] =>
    destruct (join_printable sep xs) as [s ->] end; [|eexists; reflexivity].
  pose proof (printable_getOpt _ "addressLocality"
                (printable_getOpt item "address" Hp)) as H1.
  pose proof (printable_getOpt _ "addressRegion"
                (printable_getOpt item "address" Hp)) as H2.
  simpl. destruct (truthy (getOpt (getOpt item "address") "addressLocality"));
    destruct (truthy (getOpt (getOpt item "address") "addressRegion")); simpl;
    rewrite ?H1, ?H2; reflexivity.
Qed.

End StringConversion.

Section JsonLdTotal.

Import JsonLd.

Variable newURL : json -> string -> option string.
Variable now : string.

Abbreviation extract := (extractLawyersFromJsonLd newURL now).

Lemma typeIncludes_hasType type s :
  match type with JStr _ | JArr _ => True | _ => False end ->
  typeIncludes type s = Ok (hasType type s).
Proof using Type. destruct type; simpl; intros H; try contradiction; reflexivity. Qed.

(** For such a [@type] the item is skipped, or the two joins are made
    and one record is pushed. *)
Lemma entity_cases item pageUrl results :
  let type := or (getOpt item "@type") (JStr "") in
  let name0 := or (getOpt item "name") (getOpt item "givenName") in
  match type with JStr _ | JArr _ => True | _ => False end ->
  exists record : json -> json -> entry,
    entity newURL now item pageUrl results
    = (if negb (existsb (hasType type) lawyerTypes) && negb (truthy (getOpt item "name"))
       then Ok results
       else if negb (truthy (or name0 (JStr ""))) then Ok results
            else
              let! practiceAreas := practiceAreasOf item in
              let! location := locationOf item in
              Ok (results ++ [record practiceAreas location])) /\
    forall pa loc,
      name (record pa loc) = or (or name0 (JStr "")) (JStr "Unknown Name") /\
      website (record pa loc)
      = absoluteUrl newURL (or (or (getOpt item "url") (getOpt item "@id")) (JStr ""))
          pageUrl /\
      practiceAreas (record pa loc) = pa /\ location (record pa loc) = loc /\
      biography (record pa loc) = JNull /\ education (record pa loc) = JNull /\
      barAdmissions (record pa loc) = JNull /\ scrapedAt (record pa loc) = now.
Proof using Type.
  intros type name0 Htype. unfold entity. fold type. fold name0. cbv zeta.
  rewrite !(typeIncludes_hasType type) by exact Htype.
  unfold lawyerTypes. cbn [existsb].
  eexists (fun pa loc => _). split.
  - destruct (hasType type "Attorney"), (hasType type "Lawyer"), (hasType type "Person"),
             (hasType type "LegalService"), (hasType type "Organization");
      cbn [bind orb]; reflexivity.
  - intros pa loc. cbn. repeat split.
Qed.

Lemma typeIncludes_fuel type s : typeIncludes type s <> OutOfFuel.
Proof using Type. destruct type; discriminate. Qed.

Lemma entity_fuel item pageUrl results :
  entity newURL now item pageUrl results <> OutOfFuel.
Proof using Type.
  unfold entity. cbv zeta.
  apply bind_fuel; [apply typeIncludes_fuel | intros a].
  apply bind_fuel; [destruct a; [discriminate | apply typeIncludes_fuel] | intros b].
  apply bind_fuel; [destruct b; [discriminate | apply typeIncludes_fuel] | intros c].
  apply bind_fuel; [destruct c; [discriminate | apply typeIncludes_fuel] | intros d].
  apply bind_fuel; [destruct d; [discriminate | apply typeIncludes_fuel] | intros e].
  destruct (_ && _); [discriminate|]. destruct (negb _); [discriminate|].
  apply bind_fuel; [apply practiceAreasOf_fuel | intros pa].
  apply bind_fuel; [apply locationOf_fuel | intros loc]. discriminate.
Qed.

Lemma get_cases v k : get v k = TypeError \/ get v k = Ok (getOpt v k).
Proof using Type. destruct v; simpl; auto. Qed.

Lemma iterate_fuel v : iterate v <> OutOfFuel.
Proof using Type. destruct v; discriminate. Qed.

Lemma itemsOf_fuel data : itemsOf data <> OutOfFuel.
Proof using Type.
  unfold itemsOf. destruct (isArray data); [apply iterate_fuel|].
  apply bind_fuel; [destruct (get_cases data "@graph") as [-> | ->]; discriminate|].
  intros graph. apply iterate_fuel.
Qed.

Lemma extract_unfold fuel data pageUrl :
  extract (S fuel) data pageUrl
  = bind (itemsOf data) (fun items => itemsLoop newURL now (extract fuel) items pageUrl []).
Proof using Type. reflexivity. Qed.

(** *** Depth *)

Lemma depth_lookup k props :
  (jsonDepth (lookup k props) <= list_max (map (fun p => jsonDepth (snd p)) props))%nat.
Proof using Type.
  induction props as [|[k' v] rest IH]; simpl; [lia|].
  destruct (String.eqb k' k); lia.
Qed.

Lemma depth_getOpt v k : (jsonDepth (getOpt v k) <= jsonDepth v)%nat.
Proof using Type.
  destruct v; simpl; try lia. pose proof (depth_lookup k props). lia.
Qed.

Lemma depth_getOpt_lt v k :
  truthy (getOpt v k) = true -> (jsonDepth (getOpt v k) < jsonDepth v)%nat.
Proof using Type.
  destruct v; simpl; try discriminate. intros _. pose proof (depth_lookup k props). lia.
Qed.

Lemma depth_elem x xs : x ∈ xs -> (jsonDepth x < jsonDepth (JArr xs))%nat.
Proof using Type.
  intros Hx. simpl. apply Nat.lt_succ_r.
  assert (Forall (fun k => (k <= list_max (map jsonDepth xs))%nat) (map jsonDepth xs)) as Hall
    by now apply list_max_le.
  rewrite Forall_forall in Hall. apply Hall. now apply list_elem_of_fmap_2.
Qed.

Lemma depth_or a b :
  (jsonDepth (or a b) <= Nat.max (jsonDepth a) (jsonDepth b))%nat.
Proof using Type. unfold or. destruct (truthy a); lia. Qed.

Lemma depth_chars s x : x ∈ chars s -> jsonDepth x = 0%nat.
Proof using Type.
  induction s as [|c s IH]; simpl; intros H; [now apply elem_of_nil in H|].
  apply elem_of_cons in H as [-> | H]; [reflexivity | auto].
Qed.

Lemma itemsOf_depth data items item :
  itemsOf data = Ok items -> item ∈ items -> (jsonDepth item <= jsonDepth data)%nat.
Proof using Type.
  unfold itemsOf. destruct (isArray data) eqn:Harr.
  - destruct data; try discriminate. simpl. intros [= <-] Hin.
    pose proof (depth_elem item items0 Hin). simpl in H. lia.
  - destruct (get_cases data "@graph") as [-> | ->]; simpl; [discriminate|].
    unfold or. destruct (truthy (getOpt data "@graph")) eqn:Hg.
    + pose proof (depth_getOpt_lt data "@graph" Hg) as Hlt.
      destruct (getOpt data "@graph") as [| | | |s|ys|]; simpl; try discriminate.
      * intros [= <-] Hin. apply depth_chars in Hin. lia.
      * intros [= <-] Hin. pose proof (depth_elem item ys Hin). lia.
    + simpl. intros [= <-] Hin. apply list_elem_of_singleton in Hin as ->. lia.
Qed.

(** *** Enough fuel *)

Lemma listItemsLoop_fuel (recurse : json -> string -> result (list entry))
    listItems pageUrl :
  (forall li, li ∈ listItems -> recurse (or (getOpt li "item") li) pageUrl <> OutOfFuel) ->
  forall results, listItemsLoop recurse listItems pageUrl results <> OutOfFuel.
Proof using Type.
  induction listItems as [|li rest IH]; intros Hrec results; simpl; [discriminate|].
  destruct (get_cases li "item") as [-> | ->]; simpl; [discriminate|].
  assert (forall results, listItemsLoop recurse rest pageUrl results <> OutOfFuel) as IH'.
  { apply IH. intros x Hx. apply Hrec. now right. }
  destruct (truthy _); [|apply IH'].
  apply bind_fuel; [apply Hrec; now left | intros extracted; apply IH'].
Qed.

Lemma itemsLoop_fuel (recurse : json -> string -> result (list entry)) items pageUrl :
  (forall item v, item ∈ items -> (jsonDepth v < jsonDepth item)%nat ->
                  recurse v pageUrl <> OutOfFuel) ->
  forall results, itemsLoop newURL now recurse items pageUrl results <> OutOfFuel.
Proof using Type.
  induction items as [|item rest IH]; intros Hrec results; simpl; [discriminate|].
  assert (forall results, itemsLoop newURL now recurse rest pageUrl results <> OutOfFuel)
    as IH'.
  { apply IH. intros x v Hx. apply Hrec. now right. }
  destruct (_ || _); [apply IH'|].
  destruct (isStr (getOpt item "@type") "ItemList" && truthy (getOpt item "itemListElement"))
    eqn:Hlist.
  - apply andb_true_iff in Hlist as [_ Htruthy].
    pose proof (depth_getOpt_lt item "itemListElement" Htruthy) as Hlt.
    apply bind_fuel; [|intros r; apply IH'].
    apply listItemsLoop_fuel. intros li Hli. apply (Hrec item); [now left|].
    pose proof (depth_or (getOpt li "item") li) as Hor.
    pose proof (depth_getOpt li "item") as Hget.
    assert (jsonDepth li <= jsonDepth (getOpt item "itemListElement"))%nat as Hle.
    { destruct (getOpt item "itemListElement") as [| | | | |xs|] eqn:Hv;
        try (apply list_elem_of_singleton in Hli as ->; lia).
      pose proof (depth_elem li xs Hli). lia. }
    lia.
  - apply bind_fuel; [apply entity_fuel | intros r; apply IH'].
Qed.

Lemma extract_fuel pageUrl fuel : forall data,
  (jsonDepth data < fuel)%nat -> extract fuel data pageUrl <> OutOfFuel.
Proof using Type.
  induction fuel as [|fuel IH]; intros data Hd; [lia|].
  rewrite extract_unfold.
  destruct (itemsOf data) as [items| |] eqn:Hitems; simpl; [|discriminate|].
  - apply itemsLoop_fuel. intros item v Hin Hlt. apply IH.
    pose proof (itemsOf_depth data items item Hitems Hin). lia.
  - now apply itemsOf_fuel in Hitems.
Qed.

(** *** More fuel changes nothing *)

Lemma listItemsLoop_ext (r1 r2 : json -> string -> result (list entry))
    listItems pageUrl :
  (forall v, r1 v pageUrl <> OutOfFuel -> r2 v pageUrl = r1 v pageUrl) ->
  forall results,
    listItemsLoop r1 listItems pageUrl results <> OutOfFuel ->
    listItemsLoop r2 listItems pageUrl results = listItemsLoop r1 listItems pageUrl results.
Proof using Type.
  intros Hext. induction listItems as [|li rest IH]; intros results; simpl; [reflexivity|].
  destruct (get li "item") as [inner| |]; simpl; try reflexivity.
  destruct (truthy _); [|apply IH].
  destruct (r1 (or inner li) pageUrl) as [extracted| |] eqn:H1; simpl.
  - rewrite Hext by (rewrite H1; discriminate). rewrite H1. simpl. apply IH.
  - rewrite Hext by (rewrite H1; discriminate). now rewrite H1.
  - intros H. contradiction.
Qed.

Lemma itemsLoop_ext (r1 r2 : json -> string -> result (list entry)) items pageUrl :
  (forall v, r1 v pageUrl <> OutOfFuel -> r2 v pageUrl = r1 v pageUrl) ->
  forall results,
    itemsLoop newURL now r1 items pageUrl results <> OutOfFuel ->
    itemsLoop newURL now r2 items pageUrl results
    = itemsLoop newURL now r1 items pageUrl results.
Proof using Type.
  intros Hext. induction items as [|item rest IH]; intros results; simpl; [reflexivity|].
  destruct (_ || _); [apply IH|].
  destruct (_ && _).
  - match goal with |- context [listItemsLoop r1 ?ls pageUrl results] =>
      pose proof (listItemsLoop_ext r1 r2 ls pageUrl Hext results) as Hl;
      destruct (listItemsLoop r1 ls pageUrl results) as [out| |] eqn:H1 end; simpl.
    + rewrite Hl by discriminate. simpl. apply IH.
    + rewrite Hl by discriminate. reflexivity.
    + intros H. contradiction.
  - destruct (entity newURL now item pageUrl results); simpl; auto.
Qed.

Lemma extract_mono pageUrl fuel : forall data,
  extract fuel data pageUrl <> OutOfFuel ->
  extract (S fuel) data pageUrl = extract fuel data pageUrl.
Proof using Type.
  induction fuel as [|fuel IH]; intros data Hne; [now contradiction Hne|].
  rewrite (extract_unfold (S fuel)), (extract_unfold fuel).
  rewrite extract_unfold in Hne.
  destruct (itemsOf data) as [items| |]; simpl in *; try reflexivity.
  apply itemsLoop_ext; [|exact Hne]. intros v Hv. now apply IH.
Qed.

End JsonLdTotal.

(** X15: what [extractLawyersFromJsonLd] makes of one item whose [@type]
    is absent, a string or an array.  The item is wanted when it has a
    name, or one of the five entity types and a given name; an item that
    is not wanted is skipped.  For a wanted item the practice areas and
    the location are joined first: if a join throws (an array that holds
    an object with a property [toString]) the extractor throws, otherwise
    one record is added, whose name is the item's own, never the
    placeholder, and whose biography, education and bar admissions are
    [null].  With no property named [toString] anywhere in the item, no
    join throws. *)
Theorem x15_jsonld_entity :
  forall newURL now item pageUrl results,
    let type := JsonLd.or (JsonLd.getOpt item "@type") (JsonLd.JStr "") in
    let wanted :=
      JsonLd.truthy (JsonLd.getOpt item "name")
      || existsb (hasType type) lawyerTypes
         && JsonLd.truthy (JsonLd.getOpt item "givenName") in
    match type with JsonLd.JStr _ | JsonLd.JArr _ => True | _ => False end ->
    (wanted = false -> JsonLd.entity newURL now item pageUrl results = JsonLd.Ok results) /\
    (wanted = true ->
     JsonLd.practiceAreasOf item = JsonLd.TypeError \/
     JsonLd.locationOf item = JsonLd.TypeError ->
     JsonLd.entity newURL now item pageUrl results = JsonLd.TypeError) /\
    (wanted = true ->
     forall pa loc,
       JsonLd.practiceAreasOf item = JsonLd.Ok pa ->
       JsonLd.locationOf item = JsonLd.Ok loc ->
       exists e,
         JsonLd.entity newURL now item pageUrl results = JsonLd.Ok (results ++ [e]) /\
         JsonLd.name e
         = JsonLd.or (JsonLd.getOpt item "name") (JsonLd.getOpt item "givenName") /\
         JsonLd.truthy (JsonLd.name e) = true /\
         JsonLd.website e
         = JsonLd.absoluteUrl newURL
             (JsonLd.or (JsonLd.or (JsonLd.getOpt item "url") (JsonLd.getOpt item "@id"))
                        (JsonLd.JStr "")) pageUrl /\
         JsonLd.practiceAreas e = pa /\ JsonLd.location e = loc /\
         JsonLd.biography e = JsonLd.JNull /\ JsonLd.education e = JsonLd.JNull /\
         JsonLd.barAdmissions e = JsonLd.JNull /\ JsonLd.scrapedAt e = now) /\
    (printable item = true ->
     exists pa loc,
       JsonLd.practiceAreasOf item = JsonLd.Ok pa /\ JsonLd.locationOf item = JsonLd.Ok loc).
Proof.
  intros newURL now item pageUrl results type wanted Htype.
  destruct (entity_cases newURL now item pageUrl results Htype) as (record & Heq & Hrec).
  cbv zeta in Heq, Hrec. fold type in Heq.
  set (name0 := JsonLd.or (JsonLd.getOpt item "name") (JsonLd.getOpt item "givenName"))
    in *.
  assert (JsonLd.truthy (JsonLd.or name0 (JsonLd.JStr "")) = JsonLd.truthy name0) as Htr.
  { unfold JsonLd.or at 1. destruct (JsonLd.truthy name0) eqn:H; [exact H | reflexivity]. }
  assert (JsonLd.truthy name0 = true ->
          JsonLd.or (JsonLd.or name0 (JsonLd.JStr "")) (JsonLd.JStr "Unknown Name") = name0)
    as Hname0.
  { intros H. unfold JsonLd.or at 1. rewrite Htr, H. unfold JsonLd.or. now rewrite H. }
  assert (JsonLd.truthy name0
          = JsonLd.truthy (JsonLd.getOpt item "name")
            || JsonLd.truthy (JsonLd.getOpt item "givenName")) as Hn0.
  { unfold name0, JsonLd.or.
    destruct (JsonLd.truthy (JsonLd.getOpt item "name")) eqn:H1; [exact H1 | reflexivity]. }
  rewrite Htr, Hn0 in Heq. rewrite Hn0 in Hname0.
  assert (wanted = true ->
          JsonLd.entity newURL now item pageUrl results
          = JsonLd.bind (JsonLd.practiceAreasOf item)
              (fun pa => JsonLd.bind (JsonLd.locationOf item)
                 (fun loc => JsonLd.Ok (results ++ [record pa loc]))) /\
          JsonLd.truthy (JsonLd.getOpt item "name")
          || JsonLd.truthy (JsonLd.getOpt item "givenName") = true) as Hwanted.
  { subst wanted. rewrite Heq.
    destruct (existsb (hasType type) lawyerTypes),
             (JsonLd.truthy (JsonLd.getOpt item "name")),
             (JsonLd.truthy (JsonLd.getOpt item "givenName"));
      cbn [negb andb orb]; intros H; try discriminate; split; reflexivity. }
  split; [|split; [|split]].
  - subst wanted. rewrite Heq.
    destruct (existsb (hasType type) lawyerTypes),
             (JsonLd.truthy (JsonLd.getOpt item "name")),
             (JsonLd.truthy (JsonLd.getOpt item "givenName"));
      cbn [negb andb orb]; intros H; try discriminate; reflexivity.
  - intros Hw Hthrow. destruct (Hwanted Hw) as [-> _].
    destruct Hthrow as [-> | Hloc]; [reflexivity|].
    pose proof (practiceAreasOf_fuel item) as Hpa.
    destruct (JsonLd.practiceAreasOf item); simpl;
      [now rewrite Hloc | reflexivity | now contradiction Hpa].
  - intros Hw pa loc Hpa Hloc. destruct (Hwanted Hw) as [-> Htruthy].
    rewrite Hpa, Hloc. simpl. exists (record pa loc).
    destruct (Hrec pa loc) as (Hn & Hweb & Hp & Hl & Hb & He & Hbar & Hat).
    rewrite Hn, (Hname0 Htruthy), Hn0.
    repeat split; assumption.
  - intros Hp.
    destruct (practiceAreasOf_printable item Hp) as [pa Hpa].
    destruct (locationOf_printable item Hp) as [loc Hloc].
    now exists pa, loc.
Qed.

(** The attorney of the fixture, who is wanted and has nothing to join;
    and the person whose [knowsAbout] cannot be joined. *)
Lemma x15_jsonld_entity_witness :
  (exists e,
      JsonLd.entity FixtureLd.newURL FixtureLd.now FixtureLd.attorney Fixture.page1 []
      = JsonLd.Ok ([] ++ [e]) /\
      JsonLd.name e = JsonLd.JStr "Ann Lee") /\
  JsonLd.entity FixtureLd.newURL FixtureLd.now FixtureLd.unprintable Fixture.page1 []
  = JsonLd.TypeError.
Proof.
  split.
  - destruct (x15_jsonld_entity FixtureLd.newURL FixtureLd.now FixtureLd.attorney
                Fixture.page1 [] I) as (_ & _ & Hok & _).
    destruct (Hok eq_refl (JsonLd.JStr "") (JsonLd.JStr "") eq_refl eq_refl)
      as (e & Heq & Hname & _).
    exists e. split; [exact Heq | exact Hname].
  - destruct (x15_jsonld_entity FixtureLd.newURL FixtureLd.now FixtureLd.unprintable
                Fixture.page1 [] I) as (_ & Hthrow & _).
    apply Hthrow; [reflexivity | left; reflexivity].
Defined.

(** X16: [extractLawyersFromJsonLd] terminates on every JSON value.  The
    recursion through item lists goes strictly down the nesting of the
    value, so a bound above its depth is never reached, and a larger bound
    gives the same result. *)
Theorem x16_jsonld_extractor_terminates :
  forall newURL now data pageUrl fuel,
    (jsonDepth data < fuel)%nat ->
    JsonLd.extractLawyersFromJsonLd newURL now fuel data pageUrl <> JsonLd.OutOfFuel /\
    forall more,
      JsonLd.extractLawyersFromJsonLd newURL now (more + fuel) data pageUrl
      = JsonLd.extractLawyersFromJsonLd newURL now fuel data pageUrl.
Proof.
  intros newURL now data pageUrl fuel Hdepth.
  pose proof (extract_fuel newURL now pageUrl fuel data Hdepth) as Hfuel.
  split; [exact Hfuel|].
  induction more as [|more IH]; [reflexivity|].
  change (S more + fuel)%nat with (S (more + fuel)).
  rewrite extract_mono; [exact IH | now rewrite IH].
Qed.

(** The item list of the fixture, nested four deep. *)
Lemma x16_jsonld_extractor_terminates_witness :
  JsonLd.extractLawyersFromJsonLd FixtureLd.newURL FixtureLd.now 5 FixtureLd.itemList
    Fixture.page1 <> JsonLd.OutOfFuel /\
  JsonLd.extractLawyersFromJsonLd FixtureLd.newURL FixtureLd.now (3 + 5) FixtureLd.itemList
    Fixture.page1
  = JsonLd.extractLawyersFromJsonLd FixtureLd.newURL FixtureLd.now 5 FixtureLd.itemList
      Fixture.page1.
Proof.
  assert (jsonDepth FixtureLd.itemList < 5)%nat as Hdepth by (vm_compute; lia).
  destruct (x16_jsonld_extractor_terminates FixtureLd.newURL FixtureLd.now
              FixtureLd.itemList Fixture.page1 5 Hdepth) as [H1 H2].
  split; [exact H1 | exact (H2 3%nat)].
Defined.

(** ** A listing page that stays blocked, in the CheerioCrawler program *)

(** X17: a listing page that the CheerioCrawler program classifies as
    blocked is fetched three times; the first two attempts throw, and the
    third is handled like any other page: the extractors run on the blocked
    page's HTML, the page is counted, and what the filter keeps is stored. *)
Theorem x17_cheerio_blocked_page_parsed :
  forall maxLawyers maxPages fetchFullProfiles extractLawyersFromJsonLdHtml
         extractLawyersFromNextData extractListingViaHtml findNextPageUrl
         enrichProfileWithDetailsHttp fetch fuel st u handled queued trace,
    (statusCode (fetch u) =? 403) || CheerioBlocking.isBlockedHtml (body (fetch u)) = true ->
    limitReached maxPages handled = false ->
    Cheerio.crawl maxLawyers maxPages fetchFullProfiles extractLawyersFromJsonLdHtml
      extractLawyersFromNextData extractListingViaHtml findNextPageUrl
      enrichProfileWithDetailsHttp fetch (S (S (S fuel))) st (mkRequest u 0) handled
      queued trace
    = Cheerio.crawl maxLawyers maxPages fetchFullProfiles extractLawyersFromJsonLdHtml
        extractLawyersFromNextData extractListingViaHtml findNextPageUrl
        enrichProfileWithDetailsHttp fetch (S fuel) st (mkRequest u 2) handled queued
        (trace ++ [mkFetch Lightweight Listing u true; mkFetch Lightweight Listing u true])
    /\
    exists unique seen total,
      Cheerio.filterLoop maxLawyers
        (Cheerio.extractAll extractLawyersFromJsonLdHtml extractLawyersFromNextData
           extractListingViaHtml (body (fetch u)) u)
        (Cheerio.seenWebsites st) (Cheerio.totalScraped st) []
      = (unique, seen, total) /\
      Cheerio.requestHandler maxLawyers maxPages fetchFullProfiles
        extractLawyersFromJsonLdHtml extractLawyersFromNextData extractListingViaHtml
        findNextPageUrl enrichProfileWithDetailsHttp st (mkRequest u 2) (fetch u)
      = Cheerio.Return
          (Cheerio.mkState seen total (Cheerio.pagesProcessed st + 1)
             (Cheerio.dataset st
              ++ Cheerio.enrichAll fetchFullProfiles enrichProfileWithDetailsHttp unique))
          (nextRequest maxLawyers maxPages total (Cheerio.pagesProcessed st + 1)
             (findNextPageUrl (body (fetch u))) u).
Proof.
  intros until trace. intros Hblocked Hpages. split.
  - assert (forall fuel' n tr, n < 2 ->
              Cheerio.crawl maxLawyers maxPages fetchFullProfiles
                extractLawyersFromJsonLdHtml extractLawyersFromNextData
                extractListingViaHtml findNextPageUrl enrichProfileWithDetailsHttp fetch
                (S fuel') st (mkRequest u n) handled queued tr
              = Cheerio.crawl maxLawyers maxPages fetchFullProfiles
                  extractLawyersFromJsonLdHtml extractLawyersFromNextData
                  extractListingViaHtml findNextPageUrl enrichProfileWithDetailsHttp fetch
                  fuel' st (mkRequest u (n + 1)) handled queued
                  (tr ++ [mkFetch Lightweight Listing u true])) as Hstep.
    { intros fuel' n tr Hn. cbn [Cheerio.crawl url retryCount]. rewrite Hpages, Hblocked.
      rewrite requestHandler_blocked_throws by (simpl; auto).
      replace (n <? Cheerio.maxRequestRetries) with true
        by (symmetry; apply Z.ltb_lt; unfold Cheerio.maxRequestRetries; lia).
      reflexivity. }
    rewrite (Hstep _ 0) by lia. rewrite (Hstep _ (0 + 1)) by lia.
    now rewrite <- app_assoc.
  - unfold Cheerio.requestHandler. cbn [url retryCount body statusCode].
    rewrite Hblocked. cbn [andb Z.ltb Z.compare Pos.compare Pos.compare_cont].
    destruct (Cheerio.filterLoop _ _ _ _ _) as [[unique seen] total].
    exists unique, seen, total. split; reflexivity.
Qed.

(** The page of the fixture that is answered with 403. *)
Lemma x17_cheerio_blocked_page_parsed_witness :
  Cheerio.crawl 0 0 false Fixture.extractLawyersFromJsonLdHtml
    Fixture.extractLawyersFromNextData Fixture.extractListingViaHtml
    Fixture.findNextPageUrl Fixture.enrich Fixture.fetch 3 Cheerio.initial
    (mkRequest Fixture.pageDenied 0) 0 {[Fixture.pageDenied]} []
  = Cheerio.crawl 0 0 false Fixture.extractLawyersFromJsonLdHtml
      Fixture.extractLawyersFromNextData Fixture.extractListingViaHtml
      Fixture.findNextPageUrl Fixture.enrich Fixture.fetch 1 Cheerio.initial
      (mkRequest Fixture.pageDenied 2) 0 {[Fixture.pageDenied]}
      ([] ++ [mkFetch Lightweight Listing Fixture.pageDenied true;
              mkFetch Lightweight Listing Fixture.pageDenied true]).
Proof.
  apply (x17_cheerio_blocked_page_parsed 0 0 false Fixture.extractLawyersFromJsonLdHtml
           Fixture.extractLawyersFromNextData Fixture.extractListingViaHtml
           Fixture.findNextPageUrl Fixture.enrich Fixture.fetch 0%nat Cheerio.initial
           Fixture.pageDenied 0 {[Fixture.pageDenied]} []); reflexivity.
Defined.
